(** * atomhooks: the persisted-state hooks and their imperative accessors

    A shallow embedding of [src/useLocalStorage.ts] (the hook
    [useLocalStorage], [getLocalStorage], [getDefaultFromConfigs],
    [setLocalStorage]), of the earlier [getLocalStorage] that returns the bare
    value, and of [useDraftLocalStorage], over a model of the browser
    primitives they call: [JSON.stringify], [JSON.parse], [localStorage],
    [window.dispatchEvent] and React's state setters.

    The world holds the storage area, the mounted cells with their React
    state, the events dispatched so far and the errors logged.  The code runs
    in a monad over the world in which a computation returns or throws, so
    that [try]/[catch] and an exception leaving a function are both visible.
    [window.dispatchEvent] calls the listeners before it returns: a cell that
    writes receives its own notification.

    Strings are sequences of 16-bit code units and numbers are the values of
    the IEEE 754 binary64 format, as in the language. *)

From Stdlib Require Import ZArith NArith Ascii List Lia Bool.
From Stdlib Require Import Decimal DecimalFacts DecimalPos DecimalN.
From Stdlib Require Import Floats.SpecFloat.
From stdpp Require Import base option list gmap.

Set Warnings "-register-all".

Declare Scope js_scope.
Delimit Scope js_scope with js.
Declare Scope code_unit_scope.
Delimit Scope code_unit_scope with cu.

(** ** JavaScript strings *)

(** A code unit is sixteen bits, held as its two bytes. *)
Record code_unit : Type := CodeUnit {
  high_byte : ascii;
  low_byte : ascii
}.

Bind Scope code_unit_scope with code_unit.

Inductive string : Type :=
  | EmptyString
  | String (c : code_unit) (s : string).

Bind Scope js_scope with string.

Module String.

(** The number of a code unit, below 65536, and the code unit of a number. *)
Definition code (c : code_unit) : N :=
  256 * N_of_ascii (high_byte c) + N_of_ascii (low_byte c).

Definition of_code (n : N) : code_unit :=
  CodeUnit (ascii_of_N (n / 256)) (ascii_of_N (n mod 256)).

Definition unit_eqb (a b : code_unit) : bool :=
  Ascii.eqb (high_byte a) (high_byte b) && Ascii.eqb (low_byte a) (low_byte b).

(** Literals: a character of the source text is the code unit of its byte. *)
Definition code_unit_of_byte (b : Byte.byte) : code_unit :=
  CodeUnit Ascii.zero (ascii_of_byte b).

Definition byte_of_code_unit (c : code_unit) : option Byte.byte :=
  if Ascii.eqb (high_byte c) Ascii.zero then Some (byte_of_ascii (low_byte c))
  else None.

Fixpoint string_of_bytes (bs : list Byte.byte) : string :=
  match bs with
  | [] => EmptyString
  | b :: bs' => String (code_unit_of_byte b) (string_of_bytes bs')
  end.

Fixpoint bytes_of_string (s : string) : option (list Byte.byte) :=
  match s with
  | EmptyString => Some []
  | String c s' =>
      match byte_of_code_unit c, bytes_of_string s' with
      | Some b, Some bs => Some (b :: bs)
      | _, _ => None
      end
  end.

(** [a === b] on strings *)
Fixpoint eqb (a b : string) : bool :=
  match a, b with
  | EmptyString, EmptyString => true
  | String c a', String d b' => unit_eqb c d && eqb a' b'
  | _, _ => false
  end.

Fixpoint length (s : string) : nat :=
  match s with
  | EmptyString => O
  | String _ s' => S (length s')
  end.

Fixpoint append (a b : string) : string :=
  match a with
  | EmptyString => b
  | String c a' => String c (append a' b)
  end.

Fixpoint take (n : nat) (s : string) : string :=
  match n, s with
  | S n', String c s' => String c (take n' s')
  | _, _ => EmptyString
  end.

Fixpoint drop (n : nat) (s : string) : string :=
  match n, s with
  | S n', String _ s' => drop n' s'
  | _, _ => s
  end.

(** The code units as pairs of numbers, and back. *)
Fixpoint to_list (s : string) : list (N * N) :=
  match s with
  | EmptyString => []
  | String c s' => (N_of_ascii (high_byte c), N_of_ascii (low_byte c)) :: to_list s'
  end.

Fixpoint of_list (l : list (N * N)) : string :=
  match l with
  | [] => EmptyString
  | (h, lo) :: l' => String (CodeUnit (ascii_of_N h) (ascii_of_N lo)) (of_list l')
  end.

End String.

String Notation string String.string_of_bytes String.bytes_of_string : js_scope.
String Notation code_unit String.code_unit_of_byte String.byte_of_code_unit
  : code_unit_scope.
Infix "++" := String.append (right associativity, at level 60) : js_scope.
Local Open Scope js_scope.

#[global] Instance code_unit_eq_dec : EqDecision code_unit.
Proof.
  intros [h l] [h' l']. unfold Decision.
  destruct (Ascii.ascii_dec h h') as [->|Hh]; [|right; congruence].
  destruct (Ascii.ascii_dec l l') as [->|Hl]; [left; reflexivity | right; congruence].
Defined.

#[global] Instance string_eq_dec : EqDecision string.
Proof. solve_decision. Defined.

#[global] Instance string_countable : Countable string.
Proof.
  apply (inj_countable' String.to_list String.of_list).
  intros s. induction s as [|[h l] s IH]; [reflexivity|].
  simpl. rewrite !ascii_N_embedding, IH. reflexivity.
Defined.

(** ** JavaScript numbers *)

(** A number is a value of the binary64 format: a zero of either sign, an
    infinity of either sign, [NaN], or a finite number [m * 2 ^ e] with a sign;
    the finite numbers of the format are those [Number.valid] accepts. *)
Definition number : Type := spec_float.

Module Number.

Definition prec : Z := 53.
Definition emax : Z := 1024.

(** [m * 2 ^ e] is the one way the format writes the value: [m] has 53 bits,
    or fewer at the least exponent, and the exponent is in range. *)
Definition valid (x : number) : bool := valid_binary prec emax x.

Definition finite (x : number) : bool :=
  match x with
  | S754_zero _ | S754_finite _ _ _ => true
  | S754_infinity _ | S754_nan => false
  end.

(** [Object.is(x, y)] on numbers: one [NaN], two zeros. *)
Definition eqb (x y : number) : bool :=
  match x, y with
  | S754_zero a, S754_zero b => Bool.eqb a b
  | S754_infinity a, S754_infinity b => Bool.eqb a b
  | S754_nan, S754_nan => true
  | S754_finite a m e, S754_finite b m' e' =>
      Bool.eqb a b && Pos.eqb m m' && Z.eqb e e'
  | _, _ => false
  end.

(** [x === y] on numbers: the zeros are equal, [NaN] is equal to nothing. *)
Definition equal (x y : number) : bool := SFeqb x y.

(** [num / den] to the nearest integer, a tie going to the even one. *)
Definition round_half_even (num den : Z) : Z :=
  let q := (num / den)%Z in
  match (2 * (num mod den) ?= den)%Z with
  | Lt => q
  | Eq => if Z.even q then q else (q + 1)%Z
  | Gt => (q + 1)%Z
  end.

(** The number nearest to the positive rational [num / den], a tie going to
    the even significand: [binade] is the power of two at or below the
    rational, [e] the exponent of the format there. *)
Definition nearest (negative : bool) (num den : Z) : number :=
  let t := (Z.log2 den + 1)%Z in
  let binade := (Z.log2 (num * 2 ^ t / den) - t)%Z in
  let e := Z.max (binade - 52) (-1074) in
  let m := round_half_even (num * 2 ^ Z.max (- e) 0) (den * 2 ^ Z.max e 0) in
  let '(m, e) := if (m =? 2 ^ 53)%Z then ((2 ^ 52)%Z, (e + 1)%Z) else (m, e) in
  if (971 <? e)%Z then S754_infinity negative
  else match m with
       | Zpos p => S754_finite negative p e
       | _ => S754_zero negative
       end.

(** The number a decimal literal denotes: [s * 10 ^ p], rounded. *)
Definition of_decimal (negative : bool) (s p : Z) : number :=
  if (s =? 0)%Z then S754_zero negative
  else if (0 <=? p)%Z then nearest negative (s * 10 ^ p) 1
  else nearest negative s (10 ^ (- p)).

Definition of_Z (n : Z) : number := of_decimal (n <? 0)%Z (Z.abs n) 0.

(** *** Number::toString *)

(** The decimal [s * 10 ^ p] reads as the number [m * 2 ^ e]. *)
Definition reads_as (m : positive) (e s p : Z) : bool :=
  (0 <? s)%Z && eqb (of_decimal false s p) (S754_finite false m e).

(** [m * 2 ^ e / 10 ^ p] as a fraction. *)
Definition scaled (m : positive) (e p : Z) : Z * Z :=
  ((Zpos m * 2 ^ Z.max e 0 * 10 ^ Z.max (- p) 0)%Z,
   (2 ^ Z.max (- e) 0 * 10 ^ Z.max p 0)%Z).

(** The digits [s] for which [s * 10 ^ p] reads as the number, if any: of the
    two integers around [m * 2 ^ e / 10 ^ p] the one that reads as the number,
    the closer one if both do, the even one if they are as close. *)
Definition candidate (m : positive) (e p : Z) : option Z :=
  let '(num, den) := scaled m e p in
  let lo := (num / den)%Z in
  let hi := (lo + 1)%Z in
  match reads_as m e lo p, reads_as m e hi p with
  | true, true =>
      Some (match (2 * (num mod den) ?= den)%Z with
            | Lt => lo
            | Eq => if Z.even lo then lo else hi
            | Gt => hi
            end)
  | true, false => Some lo
  | false, true => Some hi
  | false, false => None
  end.

(** At this position the decimal expansion of [m * 2 ^ e] has no digit left. *)
Definition exact_position (e : Z) : Z := Z.min e 0.

(** No decimal [s * 10 ^ p] with [1 <= s] and [p] above this position reads as
    the number: it is more than twice the number. *)
Definition first_position (m : positive) (e : Z) : Z :=
  ((Z.log2 (Zpos m) + e + 2) * 30103 / 100000 + 1)%Z.

(** The fewest digits: the positions are tried from the highest down, and the
    last one is that of the whole decimal expansion. *)
Fixpoint shortest_from (fuel : nat) (m : positive) (e p : Z) : Z * Z :=
  match fuel with
  | O =>
      let '(num, den) := scaled m e (exact_position e) in
      ((num / den)%Z, exact_position e)
  | S fuel =>
      match candidate m e p with
      | Some s => (s, p)
      | None => shortest_from fuel m e (p - 1)
      end
  end.

Definition shortest (m : positive) (e : Z) : Z * Z :=
  shortest_from (Z.to_nat (first_position m e - exact_position e)) m e
    (first_position m e).

(** The number that the digits [d] write after the digits read as [acc]. *)
Fixpoint uint_value (d : uint) (acc : Z) : Z :=
  match d with
  | Nil => acc
  | D0 d => uint_value d (10 * acc)
  | D1 d => uint_value d (10 * acc + 1)
  | D2 d => uint_value d (10 * acc + 2)
  | D3 d => uint_value d (10 * acc + 3)
  | D4 d => uint_value d (10 * acc + 4)
  | D5 d => uint_value d (10 * acc + 5)
  | D6 d => uint_value d (10 * acc + 6)
  | D7 d => uint_value d (10 * acc + 7)
  | D8 d => uint_value d (10 * acc + 8)
  | D9 d => uint_value d (10 * acc + 9)
  end.

Fixpoint string_of_uint (d : uint) : string :=
  match d with
  | Nil => EmptyString
  | D0 d => String "0" (string_of_uint d)
  | D1 d => String "1" (string_of_uint d)
  | D2 d => String "2" (string_of_uint d)
  | D3 d => String "3" (string_of_uint d)
  | D4 d => String "4" (string_of_uint d)
  | D5 d => String "5" (string_of_uint d)
  | D6 d => String "6" (string_of_uint d)
  | D7 d => String "7" (string_of_uint d)
  | D8 d => String "8" (string_of_uint d)
  | D9 d => String "9" (string_of_uint d)
  end.

(** The decimal digits of a natural number. *)
Definition decimal (n : Z) : string := string_of_uint (N.to_uint (Z.to_N n)).

Fixpoint zeros (n : nat) : string :=
  match n with
  | O => EmptyString
  | S n' => String "0" (zeros n')
  end.

(** The text of the decimal with digits [ds] whose first digit has the
    weight [10 ^ (n - 1)]. *)
Definition format (ds : string) (n : Z) : string :=
  let k := Z.of_nat (String.length ds) in
  if ((k <=? n) && (n <=? 21))%Z then ds ++ zeros (Z.to_nat (n - k))
  else if ((0 <? n) && (n <=? 21))%Z then
    String.take (Z.to_nat n) ds ++ "." ++ String.drop (Z.to_nat n) ds
  else if ((-6 <? n) && (n <=? 0))%Z then "0." ++ zeros (Z.to_nat (- n)) ++ ds
  else
    let exponent :=
      (if (n - 1 <? 0)%Z then "e-" else "e+") ++ decimal (Z.abs (n - 1)) in
    match ds with
    | String c EmptyString => String c exponent
    | String c r => String c ("." ++ r ++ exponent)
    | EmptyString => exponent
    end.

Definition toString (x : number) : string :=
  match x with
  | S754_nan => "NaN"
  | S754_infinity false => "Infinity"
  | S754_infinity true => "-Infinity"
  | S754_zero _ => "0"
  | S754_finite negative m e =>
      let '(s, p) := shortest m e in
      let ds := decimal s in
      (if negative then "-" else EmptyString) ++ format ds (p + Z.of_nat (String.length ds))
  end.

End Number.

(** ** JavaScript values *)

(** The values the hooks store.  An object is the list of its own properties
    in the order the language enumerates them.  Cyclic structures and
    [BigInt] (the inputs on which [JSON.stringify] throws) have no
    representation. *)
Inductive Value : Type :=
  | VUndefined
  | VNull
  | VBool (b : bool)
  | VNum (x : number)
  | VStr (s : string)
  | VArr (xs : list Value)
  | VObj (fields : list (string * Value)).

(** Induction over [Value] that reaches inside arrays and objects. *)
Section value_induction.
Variable P : Value -> Prop.
Hypothesis Hundef : P VUndefined.
Hypothesis Hnull : P VNull.
Hypothesis Hbool : forall b, P (VBool b).
Hypothesis Hnum : forall x, P (VNum x).
Hypothesis Hstr : forall s, P (VStr s).
Hypothesis Harr : forall xs, Forall P xs -> P (VArr xs).
Hypothesis Hobj : forall fs, Forall (fun kv => P (snd kv)) fs -> P (VObj fs).

Fixpoint value_ind_nested (v : Value) : P v :=
  match v with
  | VUndefined => Hundef
  | VNull => Hnull
  | VBool b => Hbool b
  | VNum x => Hnum x
  | VStr s => Hstr s
  | VArr xs =>
      Harr xs
        ((fix all (l : list Value) : Forall P l :=
            match l with
            | [] => List.Forall_nil P
            | x :: l' => List.Forall_cons P x l' (value_ind_nested x) (all l')
            end) xs)
  | VObj fs =>
      Hobj fs
        ((fix all (l : list (string * Value))
            : Forall (fun kv => P (snd kv)) l :=
            match l with
            | [] => List.Forall_nil _
            | kv :: l' =>
                List.Forall_cons _ kv l' (value_ind_nested (snd kv)) (all l')
            end) fs)
  end.
End value_induction.

(** Structural comparison.  On [undefined], [null], booleans, numbers and
    strings it is [Object.is]; arrays and objects, which JavaScript compares by
    reference, are compared by content. *)
Fixpoint Value_eqb (a b : Value) : bool :=
  match a, b with
  | VUndefined, VUndefined => true
  | VNull, VNull => true
  | VBool x, VBool y => Bool.eqb x y
  | VNum x, VNum y => Number.eqb x y
  | VStr x, VStr y => String.eqb x y
  | VArr xs, VArr ys =>
      (fix all (xs ys : list Value) : bool :=
         match xs, ys with
         | [], [] => true
         | x :: xs', y :: ys' => Value_eqb x y && all xs' ys'
         | _, _ => false
         end) xs ys
  | VObj fs, VObj gs =>
      (fix all (fs gs : list (string * Value)) : bool :=
         match fs, gs with
         | [], [] => true
         | (k, x) :: fs', (k', y) :: gs' =>
             String.eqb k k' && Value_eqb x y && all fs' gs'
         | _, _ => false
         end) fs gs
  | _, _ => false
  end.

(** Deep equality: the same shape, with [===] at the leaves, so that the two
    zeros are equal. *)
Fixpoint deep_equal (a b : Value) : bool :=
  match a, b with
  | VUndefined, VUndefined => true
  | VNull, VNull => true
  | VBool x, VBool y => Bool.eqb x y
  | VNum x, VNum y => Number.equal x y
  | VStr x, VStr y => String.eqb x y
  | VArr xs, VArr ys =>
      (fix all (xs ys : list Value) : bool :=
         match xs, ys with
         | [], [] => true
         | x :: xs', y :: ys' => deep_equal x y && all xs' ys'
         | _, _ => false
         end) xs ys
  | VObj fs, VObj gs =>
      (fix all (fs gs : list (string * Value)) : bool :=
         match fs, gs with
         | [], [] => true
         | (k, x) :: fs', (k', y) :: gs' =>
             String.eqb k k' && deep_equal x y && all fs' gs'
         | _, _ => false
         end) fs gs
  | _, _ => false
  end.

(** [typeof v === 'string'] *)
Definition typeof_string (v : Value) : bool :=
  match v with VStr _ => true | _ => false end.

(** The operand test of [??]: [null] and [undefined] are nullish. *)
Definition nullish (v : Value) : bool :=
  match v with VUndefined | VNull => true | _ => false end.

(** [a ?? b] *)
Definition coalesce (a b : Value) : Value := if nullish a then b else a.

Infix "??" := coalesce (at level 45, left associativity).

(** ** JSON text *)

Module JSON.

Definition dquote : code_unit := String.of_code 34.
Definition backslash : code_unit := String.of_code 92.

Definition hex_digit (n : N) : code_unit :=
  if (n <? 10)%N then String.of_code (48 + n) else String.of_code (87 + n).

(** [\uXXXX] *)
Definition unicode_escape (n : N) : string :=
  String backslash
    (String "u"
       (String (hex_digit (n / 4096))
          (String (hex_digit (n / 256 mod 16))
             (String (hex_digit (n / 16 mod 16))
                (String (hex_digit (n mod 16)) EmptyString))))).

Definition leading_surrogate (c : code_unit) : bool :=
  ((55296 <=? String.code c) && (String.code c <=? 56319))%N.

Definition trailing_surrogate (c : code_unit) : bool :=
  ((56320 <=? String.code c) && (String.code c <=? 57343))%N.

(** One code unit inside a quoted string (QuoteJSONString), when it is not
    half of a surrogate pair: a surrogate on its own is escaped. *)
Definition quote_char (c : code_unit) : string :=
  let n := String.code c in
  if String.unit_eqb c dquote then String backslash (String dquote EmptyString)
  else if String.unit_eqb c backslash then String backslash (String backslash EmptyString)
  else if (n =? 8)%N then String backslash "b"
  else if (n =? 9)%N then String backslash "t"
  else if (n =? 10)%N then String backslash "n"
  else if (n =? 12)%N then String backslash "f"
  else if (n =? 13)%N then String backslash "r"
  else if (n <? 32)%N || leading_surrogate c || trailing_surrogate c
  then unicode_escape n
  else String c EmptyString.

(** The code points of the string one after the other: a leading surrogate
    followed by a trailing one is one code point, written as it is. *)
Fixpoint quote_body (s : string) : string :=
  match s with
  | EmptyString => EmptyString
  | String c s' =>
      match s' with
      | String d s'' =>
          if leading_surrogate c && trailing_surrogate d
          then String c (String d (quote_body s''))
          else quote_char c ++ quote_body s'
      | EmptyString => quote_char c ++ quote_body s'
      end
  end.

Definition quote (s : string) : string :=
  String dquote (quote_body s ++ String dquote EmptyString).

Fixpoint join_comma (ts : list string) : string :=
  match ts with
  | [] => EmptyString
  | [t] => t
  | t :: ts' => t ++ "," ++ join_comma ts'
  end.

(** An array element that serializes to [undefined] is written [null]. *)
Definition element_text (t : option string) : string :=
  match t with Some t => t | None => "null" end.

(** A property whose value serializes to [undefined] is left out. *)
Definition member_text (k : string) (t : option string) : option string :=
  match t with Some t => Some (quote k ++ ":" ++ t) | None => None end.

(** [JSON.stringify(v)]; [None] is the result [undefined].  A number that is
    not finite is written [null]. *)
Fixpoint stringify (v : Value) : option string :=
  match v with
  | VUndefined => None
  | VNull => Some "null"
  | VBool true => Some "true"
  | VBool false => Some "false"
  | VNum x => Some (if Number.finite x then Number.toString x else "null")
  | VStr s => Some (quote s)
  | VArr xs =>
      Some ("[" ++ join_comma (List.map (fun x => element_text (stringify x)) xs) ++ "]")
  | VObj fs =>
      Some ("{" ++
            join_comma
              (List.flat_map
                 (fun kv => match member_text (fst kv) (stringify (snd kv)) with
                            | Some t => [t]
                            | None => []
                            end) fs) ++ "}")
  end.

(** *** Parsing *)

Definition is_ws (c : code_unit) : bool :=
  let n := String.code c in
  ((n =? 32) || (n =? 9) || (n =? 10) || (n =? 13))%N.

Fixpoint skip_ws (s : string) : string :=
  match s with
  | String c r => if is_ws c then skip_ws r else s
  | EmptyString => EmptyString
  end.

Definition digit_value (c : code_unit) : option Z :=
  let n := String.code c in
  if ((48 <=? n) && (n <=? 57))%N then Some (Z.of_N n - 48)%Z else None.

(** The longest run of decimal digits at the head of [s]: the number they
    write after the digits already read as [acc], how many they are, and the
    text after them. *)
Fixpoint scan_digits (s : string) (acc : Z) : Z * nat * string :=
  match s with
  | EmptyString => (acc, O, EmptyString)
  | String c r =>
      match digit_value c with
      | Some d => let '(v, n, rest) := scan_digits r (10 * acc + d)%Z in (v, S n, rest)
      | None => (acc, O, s)
      end
  end.

(** The number that a text of digits writes after [acc]; whether a text is
    all digits; whether a text does not go on with a digit. *)
Fixpoint digits_value (s : string) (acc : Z) : Z :=
  match s with
  | EmptyString => acc
  | String c r =>
      match digit_value c with
      | Some d => digits_value r (10 * acc + d)
      | None => acc
      end
  end.

Fixpoint all_digits (s : string) : bool :=
  match s with
  | EmptyString => true
  | String c r =>
      match digit_value c with
      | Some _ => all_digits r
      | None => false
      end
  end.

Definition no_digit_ahead (s : string) : bool :=
  match s with
  | EmptyString => true
  | String c _ =>
      match digit_value c with
      | Some _ => false
      | None => true
      end
  end.

(** [starts_with c s] is the rest of [s] after the character [c]. *)
Definition starts_with (c : code_unit) (s : string) : option string :=
  match s with
  | String c' r => if String.unit_eqb c c' then Some r else None
  | EmptyString => None
  end.

Definition starts_with_zero (s : string) : bool :=
  match s with
  | String c _ => String.unit_eqb c "0"
  | EmptyString => false
  end.

(** The integer part of a number literal: [0], or digits with no leading
    zero. *)
Definition parse_integer (s : string) : option (Z * string) :=
  let '(v, n, rest) := scan_digits s 0 in
  match n with
  | O => None
  | S O => Some (v, rest)
  | S (S _) => if starts_with_zero s then None else Some (v, rest)
  end.

(** The fraction of a number literal, after the integer part [i]: the digits
    of both, how many follow the point, and the text after them. *)
Definition parse_fraction (i : Z) (s : string) : option (Z * nat * string) :=
  match starts_with "." s with
  | None => Some (i, O, s)
  | Some r =>
      let '(v, n, rest) := scan_digits r i in
      match n with
      | O => None
      | S _ => Some (v, n, rest)
      end
  end.

Definition starts_exponent (s : string) : option string :=
  match s with
  | String c r =>
      if String.unit_eqb c "e" || String.unit_eqb c "E" then Some r else None
  | EmptyString => None
  end.

(** The exponent of a number literal; [0] when there is none. *)
Definition parse_exponent (s : string) : option (Z * string) :=
  match starts_exponent s with
  | None => Some (0%Z, s)
  | Some r =>
      let '(negative, r1) :=
        match starts_with "-" r, starts_with "+" r with
        | Some r', _ => (true, r')
        | None, Some r' => (false, r')
        | None, None => (false, r)
        end in
      let '(v, n, rest) := scan_digits r1 0 in
      match n with
      | O => None
      | S _ => Some ((if negative then - v else v)%Z, rest)
      end
  end.

(** A number literal, read as the nearest number. *)
Definition parse_number (s : string) : option (Value * string) :=
  let '(negative, s1) :=
    match starts_with "-" s with
    | Some r => (true, r)
    | None => (false, s)
    end in
  match parse_integer s1 with
  | None => None
  | Some (i, r1) =>
      match parse_fraction i r1 with
      | None => None
      | Some (digits, places, r2) =>
          match parse_exponent r2 with
          | None => None
          | Some (exponent, r3) =>
              Some (VNum (Number.of_decimal negative digits
                            (exponent - Z.of_nat places)), r3)
          end
      end
  end.

Definition hex_value (c : code_unit) : option N :=
  let n := String.code c in
  if ((48 <=? n) && (n <=? 57))%N then Some (n - 48)%N
  else if ((97 <=? n) && (n <=? 102))%N then Some (n - 87)%N
  else if ((65 <=? n) && (n <=? 70))%N then Some (n - 55)%N
  else None.

Definition hex4 (h1 h2 h3 h4 : code_unit) : option N :=
  match hex_value h1, hex_value h2, hex_value h3, hex_value h4 with
  | Some a, Some b, Some c, Some d => Some (((a * 16 + b) * 16 + c) * 16 + d)%N
  | _, _, _, _ => None
  end.

(** The character after a backslash, other than [u]. *)
Definition unescape (e : code_unit) : option code_unit :=
  if String.unit_eqb e dquote then Some dquote
  else if String.unit_eqb e backslash then Some backslash
  else if String.unit_eqb e "/" then Some "/"%cu
  else if String.unit_eqb e "b" then Some (String.of_code 8)
  else if String.unit_eqb e "f" then Some (String.of_code 12)
  else if String.unit_eqb e "n" then Some (String.of_code 10)
  else if String.unit_eqb e "r" then Some (String.of_code 13)
  else if String.unit_eqb e "t" then Some (String.of_code 9)
  else None.

Definition cons_char (c : code_unit) (r : option (string * string))
  : option (string * string) :=
  match r with
  | Some (s, rest) => Some (String c s, rest)
  | None => None
  end.

(** The characters of a string literal after its opening quote, up to and
    including the closing quote. *)
Fixpoint parse_string_body (s : string) : option (string * string) :=
  match s with
  | EmptyString => None
  | String c r =>
      if String.unit_eqb c dquote then Some (EmptyString, r)
      else if String.unit_eqb c backslash then
        match r with
        | EmptyString => None
        | String e r1 =>
            if String.unit_eqb e "u" then
              match r1 with
              | String h1 (String h2 (String h3 (String h4 r2))) =>
                  match hex4 h1 h2 h3 h4 with
                  | Some n => cons_char (String.of_code n) (parse_string_body r2)
                  | None => None
                  end
              | _ => None
              end
            else
              match unescape e with
              | Some ch => cons_char ch (parse_string_body r1)
              | None => None
              end
        end
      else if (String.code c <? 32)%N then None
      else cons_char c (parse_string_body r)
  end.

(** [strip_prefix p s] is the rest of [s] after the prefix [p]. *)
Fixpoint strip_prefix (p s : string) : option string :=
  match p, s with
  | EmptyString, _ => Some s
  | String a p', String b s' => if String.unit_eqb a b then strip_prefix p' s' else None
  | String _ _, EmptyString => None
  end.

Definition parse_literal (word : string) (v : Value) (s : string)
  : option (Value * string) :=
  match strip_prefix word s with
  | Some r => Some (v, r)
  | None => None
  end.

(** *** The order of the properties of an object *)

(** An array index: the decimal digits, with no leading zero, of an integer
    up to [2 ^ 32 - 2]. *)
Definition array_index (k : string) : option Z :=
  match parse_integer k with
  | Some (i, EmptyString) => if (i <=? 4294967294)%Z then Some i else None
  | _ => None
  end.

(** The language lists the array indices first, in ascending order, then the
    other names in the order of their creation: [precedes k k'] when a new
    property [k] goes before the property [k'] already there. *)
Definition precedes (k k' : string) : bool :=
  match array_index k, array_index k' with
  | Some i, Some j => (i <? j)%Z
  | Some _, None => true
  | None, _ => false
  end.

(** Assigning a property: a name already present keeps its place and takes
    the new value, a new name goes to its place in the order. *)
Fixpoint set_property (k : string) (v : Value) (fs : list (string * Value))
  : list (string * Value) :=
  match fs with
  | [] => [(k, v)]
  | (k', v') :: fs' =>
      if String.eqb k k' then (k, v) :: fs'
      else if precedes k k' then (k, v) :: (k', v') :: fs'
      else (k', v') :: set_property k v fs'
  end.

Definition object_of_members (ms : list (string * Value)) : list (string * Value) :=
  fold_left (fun fs kv => set_property (fst kv) (snd kv) fs) ms [].

(** Recursive descent; [fuel] bounds the nesting and the number of elements
    read.  Each function returns the value read and the text after it. *)
Fixpoint parse_value (fuel : nat) (s : string) : option (Value * string) :=
  match fuel with
  | O => None
  | S fuel =>
      match skip_ws s with
      | EmptyString => None
      | String c r =>
          if String.unit_eqb c "[" then
            match starts_with "]" (skip_ws r) with
            | Some r' => Some (VArr [], r')
            | None =>
                match parse_elements fuel r with
                | Some (xs, r') => Some (VArr xs, r')
                | None => None
                end
            end
          else if String.unit_eqb c "{" then
            match starts_with "}" (skip_ws r) with
            | Some r' => Some (VObj [], r')
            | None =>
                match parse_members fuel r with
                | Some (ms, r') => Some (VObj (object_of_members ms), r')
                | None => None
                end
            end
          else if String.unit_eqb c dquote then
            match parse_string_body r with
            | Some (str, r') => Some (VStr str, r')
            | None => None
            end
          else if String.unit_eqb c "n" then parse_literal "ull" VNull r
          else if String.unit_eqb c "t" then parse_literal "rue" (VBool true) r
          else if String.unit_eqb c "f" then parse_literal "alse" (VBool false) r
          else parse_number (String c r)
      end
  end
with parse_elements (fuel : nat) (s : string) : option (list Value * string) :=
  match fuel with
  | O => None
  | S fuel =>
      match parse_value fuel s with
      | Some (v, r) =>
          match starts_with "," (skip_ws r) with
          | Some r' =>
              match parse_elements fuel r' with
              | Some (vs, r'') => Some (v :: vs, r'')
              | None => None
              end
          | None =>
              match starts_with "]" (skip_ws r) with
              | Some r' => Some ([v], r')
              | None => None
              end
          end
      | None => None
      end
  end
with parse_members (fuel : nat) (s : string)
  : option (list (string * Value) * string) :=
  match fuel with
  | O => None
  | S fuel =>
      match starts_with dquote (skip_ws s) with
      | Some r =>
          match parse_string_body r with
          | Some (k, r1) =>
              match starts_with ":" (skip_ws r1) with
              | Some r2 =>
                  match parse_value fuel r2 with
                  | Some (v, r3) =>
                      match starts_with "," (skip_ws r3) with
                      | Some r4 =>
                          match parse_members fuel r4 with
                          | Some (ms, r5) => Some ((k, v) :: ms, r5)
                          | None => None
                          end
                      | None =>
                          match starts_with "}" (skip_ws r3) with
                          | Some r4 => Some ([(k, v)], r4)
                          | None => None
                          end
                      end
                  | None => None
                  end
              | None => None
              end
          | None => None
          end
      | None => None
      end
  end.

(** [JSON.parse(text)]; [None] is a thrown [SyntaxError]. *)
Definition parse (text : string) : option Value :=
  match parse_value (S (String.length text)) text with
  | Some (v, r) =>
      match skip_ws r with
      | EmptyString => Some v
      | String _ _ => None
      end
  | None => None
  end.

(** *** JSON-serializable values *)

Fixpoint distinct (ks : list string) : bool :=
  match ks with
  | [] => true
  | k :: ks' => negb (existsb (String.eqb k) ks') && distinct ks'
  end.

(** The names are in the order the language lists them: none goes before one
    that is listed earlier. *)
Fixpoint in_order (ks : list string) : bool :=
  match ks with
  | [] => true
  | k :: ks' => forallb (fun k' => negb (precedes k' k)) ks' && in_order ks'
  end.

(** The numbers JSON text writes: the finite numbers of the format. *)
Definition finite_number (x : number) : bool := Number.finite x && Number.valid x.

Definition negative_zero (x : number) : bool :=
  match x with
  | S754_zero true => true
  | _ => false
  end.

(** The values JSON text represents: no [undefined] at any depth, every
    number finite, the properties of every object distinct and in order. *)
Fixpoint representable (v : Value) : bool :=
  match v with
  | VUndefined => false
  | VNull | VBool _ | VStr _ => true
  | VNum x => finite_number x
  | VArr xs => forallb representable xs
  | VObj fs =>
      distinct (List.map fst fs) && in_order (List.map fst fs) &&
      forallb (fun kv => representable (snd kv)) fs
  end.

(** The values that [stringify] writes without loss: the representable
    values with no negative zero, which is written as zero. *)
Fixpoint serializable (v : Value) : bool :=
  match v with
  | VUndefined => false
  | VNull | VBool _ | VStr _ => true
  | VNum x => finite_number x && negb (negative_zero x)
  | VArr xs => forallb serializable xs
  | VObj fs =>
      distinct (List.map fst fs) && in_order (List.map fst fs) &&
      forallb (fun kv => serializable (snd kv)) fs
  end.

(** What the text of a value reads back as: the value, with zero for every
    negative zero. *)
Fixpoint read_back (v : Value) : Value :=
  match v with
  | VNum x => VNum (if negative_zero x then S754_zero false else x)
  | VArr xs => VArr (List.map read_back xs)
  | VObj fs => VObj (List.map (fun kv => (fst kv, read_back (snd kv))) fs)
  | _ => v
  end.

(** Text that can follow a value: it does not go on with a digit, a fraction
    or an exponent. *)
Definition number_end (rest : string) : bool :=
  match rest with
  | EmptyString => true
  | String c _ =>
      match digit_value c with
      | Some _ => false
      | None =>
          negb (String.unit_eqb c "." || String.unit_eqb c "e" || String.unit_eqb c "E")
      end
  end.

(** The characters a serialized value can start with, as far as the parser
    cares: no white space and no closing bracket. *)
Definition opens_value (c : code_unit) : bool :=
  negb (is_ws c) && negb (String.unit_eqb "]" c).

(** The characters a number starts with. *)
Definition opens_number (c : code_unit) : bool :=
  String.unit_eqb c "-" ||
  match digit_value c with
  | Some _ => true
  | None => false
  end.

(** The text of an array element and of an object member. *)
Definition element (x : Value) : string := element_text (stringify x).

Definition member (kv : string * Value) : string :=
  quote (fst kv) ++ ":" ++ element (snd kv).

(** Fuel that [parse_value] needs to read back the text of [v]. *)
Fixpoint fuel_of (v : Value) : nat :=
  match v with
  | VArr xs => S (list_sum (List.map (fun x => S (fuel_of x)) xs))
  | VObj fs => S (list_sum (List.map (fun kv => S (fuel_of (snd kv))) fs))
  | _ => 1
  end.

(** What reading back the text of [v] means: with enough fuel, and whatever
    follows the text, the parser returns the value and stops right after
    it. *)
Definition reads_back (v : Value) : Prop :=
  forall fuel rest,
    representable v = true -> fuel_of v <= fuel -> number_end rest = true ->
    parse_value fuel (element v ++ rest) = Some (read_back v, rest).

End JSON.

(** ** The browser *)

Inductive exn : Type :=
  | SecurityError
  | QuotaExceededError
  | SyntaxError.

(** What the storage area refuses: nothing, every access (storage disabled or
    denied to the page), or every write (quota exceeded). *)
Inductive fault : Type :=
  | NoFault
  | AccessDenied
  | StoreFull.

Inductive area : Type :=
  | LocalStorage
  | OtherArea.

(** The fields of a [StorageEvent] the hook reads or writes; [None] is [null]. *)
Record StorageEvent : Type := {
  ev_key : option string;
  ev_newValue : option string;
  ev_oldValue : option string;
  ev_storageArea : area
}.

(** One mounted [useLocalStorage(key, defaultValue)]: its arguments, its React
    state, and whether its effect has attached [handleStorageChange]. *)
Record Cell : Type := {
  cell_key : string;
  cell_defaultValue : Value;
  cell_value : Value;
  cell_listening : bool
}.

Record World : Type := {
  has_window : bool;
  storage_fault : fault;
  items : gmap string string;
  cells : list Cell;
  dispatched : list StorageEvent;
  console : list exn
}.

Definition with_items (m : gmap string string) (w : World) : World :=
  {| has_window := has_window w; storage_fault := storage_fault w; items := m;
     cells := cells w; dispatched := dispatched w; console := console w |}.

Definition with_cells (cs : list Cell) (w : World) : World :=
  {| has_window := has_window w; storage_fault := storage_fault w;
     items := items w; cells := cs; dispatched := dispatched w;
     console := console w |}.

Definition with_dispatched (es : list StorageEvent) (w : World) : World :=
  {| has_window := has_window w; storage_fault := storage_fault w;
     items := items w; cells := cells w; dispatched := es;
     console := console w |}.

Definition with_console (log : list exn) (w : World) : World :=
  {| has_window := has_window w; storage_fault := storage_fault w;
     items := items w; cells := cells w; dispatched := dispatched w;
     console := log |}.

Definition with_value (v : Value) (c : Cell) : Cell :=
  {| cell_key := cell_key c; cell_defaultValue := cell_defaultValue c;
     cell_value := v; cell_listening := cell_listening c |}.

Definition with_listening (b : bool) (c : Cell) : Cell :=
  {| cell_key := cell_key c; cell_defaultValue := cell_defaultValue c;
     cell_value := cell_value c; cell_listening := b |}.

(** *** Computations that change the world and may throw *)

Inductive outcome (A : Type) : Type :=
  | Returned (a : A)
  | Thrown (e : exn).

Arguments Returned {A} a.
Arguments Thrown {A} e.

Definition M (A : Type) : Type := World -> outcome A * World.

Definition ret {A : Type} (a : A) : M A := fun w => (Returned a, w).

Definition throw {A : Type} (e : exn) : M A := fun w => (Thrown e, w).

Definition bind {A B : Type} (m : M A) (k : A -> M B) : M B :=
  fun w =>
    match m w with
    | (Returned a, w') => k a w'
    | (Thrown e, w') => (Thrown e, w')
    end.

(** [try { m } catch (e) { handler e }]: what [m] did before it threw stays
    done. *)
Definition try_catch {A : Type} (m : M A) (handler : exn -> M A) : M A :=
  fun w =>
    match m w with
    | (Returned a, w') => (Returned a, w')
    | (Thrown e, w') => handler e w'
    end.

Notation "x <- m ;; k" := (bind m (fun x => k))
  (at level 100, m at next level, right associativity) : js_scope.
Notation "m ;; k" := (bind m (fun _ => k))
  (at level 100, right associativity) : js_scope.

(** *** Primitives *)

(** [typeof window !== 'undefined'] *)
Definition window_defined : M bool := fun w => (Returned (has_window w), w).

Definition localStorage_getItem (key : string) : M (option string) :=
  fun w =>
    match storage_fault w with
    | AccessDenied => (Thrown SecurityError, w)
    | _ => (Returned (items w !! key), w)
    end.

Definition localStorage_setItem (key text : string) : M unit :=
  fun w =>
    match storage_fault w with
    | AccessDenied => (Thrown SecurityError, w)
    | StoreFull => (Thrown QuotaExceededError, w)
    | NoFault => (Returned tt, with_items (<[key := text]> (items w)) w)
    end.

Definition localStorage_removeItem (key : string) : M unit :=
  fun w =>
    match storage_fault w with
    | AccessDenied => (Thrown SecurityError, w)
    | _ => (Returned tt, with_items (delete key (items w)) w)
    end.

Definition console_error (error : exn) : M unit :=
  fun w => (Returned tt, with_console (console w ++ [error]) w).

(** [JSON.parse(text)] as a computation. *)
Definition JSON_parse (text : string) : M Value :=
  match JSON.parse text with
  | Some v => ret v
  | None => throw SyntaxError
  end.

(** A [DOMString] argument: [undefined] is converted to its name. *)
Definition DOMString (t : option string) : string :=
  match t with
  | Some t => t
  | None => "undefined"
  end.

(** React's [setValue] for the state of the cell in slot [i]. *)
Definition setValue (i : nat) (v : Value) : M unit :=
  fun w => (Returned tt, with_cells (alter (with_value v) i (cells w)) w).

(** ** [useLocalStorage] *)

(** The argument of a state setter: [T | ((prev: T) => T)]. *)
Inductive SetStateAction : Type :=
  | Literal (v : Value)
  | Updater (f : Value -> Value).

(** The stored text of a value: a string as it is, anything else through
    [JSON.stringify]; [None] is [undefined]. *)
Definition storageValue_of (valueToStore : Value) : option string :=
  match valueToStore with
  | VStr s => Some s
  | _ => JSON.stringify valueToStore
  end.

(** The lazy initializer passed to [useState].  The first two branches on
    [item] are [if (!item) return defaultValue]: the item is [null] or the
    empty string. *)
Definition initialValue (key : string) (defaultValue : Value) : M Value :=
  win <- window_defined ;;
  if negb win then ret defaultValue
  else
    try_catch
      (item <- localStorage_getItem key ;;
       match item with
       | None => ret defaultValue
       | Some EmptyString => ret defaultValue
       | Some item =>
           if typeof_string defaultValue then ret (VStr item)
           else try_catch (JSON_parse item) (fun _ => ret defaultValue)
       end)
      (fun _ => ret defaultValue).

(** The first render of [useLocalStorage(key, defaultValue)]: the state is
    created in a new slot; the slot and the value are returned.  The listener
    is not attached yet. *)
Definition useLocalStorage (key : string) (defaultValue : Value) : M (nat * Value) :=
  value <- initialValue key defaultValue ;;
  fun w =>
    (Returned (length (cells w), value),
     with_cells
       (cells w ++
        [{| cell_key := key; cell_defaultValue := defaultValue;
            cell_value := value; cell_listening := false |}]) w).

(** The effect of [useLocalStorage], run after the render is committed:
    [window.addEventListener('storage', handleStorageChange)]. *)
Definition subscribe (i : nat) : M unit :=
  win <- window_defined ;;
  if negb win then ret tt
  else fun w => (Returned tt, with_cells (alter (with_listening true) i (cells w)) w).

(** The cleanup of the effect: [window.removeEventListener]. *)
Definition unsubscribe (i : nat) : M unit :=
  fun w => (Returned tt, with_cells (alter (with_listening false) i (cells w)) w).

(** [!e.newValue] *)
Definition falsy (t : option string) : bool :=
  match t with
  | None => true
  | Some EmptyString => true
  | Some (String _ _) => false
  end.

(** The listener of one cell.  It only sets the cell's own state, so it is a
    function on the cell.  The event is taken when [e.key === key] and
    [e.storageArea === localStorage]; the inner [option] is the [try] block,
    [None] when [JSON.parse] throws, and its [None] branch is the [catch]. *)
Definition handleStorageChange (e : StorageEvent) (this : Cell) : Cell :=
  let key := cell_key this in
  let defaultValue := cell_defaultValue this in
  match ev_key e, ev_storageArea e with
  | Some k, LocalStorage =>
      if String.eqb k key then
        if falsy (ev_newValue e) then with_value defaultValue this
        else
          let newValue := DOMString (ev_newValue e) in
          match (if typeof_string defaultValue then Some (VStr newValue)
                 else JSON.parse newValue) with
          | Some v => with_value v this
          | None => with_value defaultValue this
          end
      else this
  | _, _ => this
  end.

(** [window.dispatchEvent(e)]: the event is recorded and every attached
    listener runs before the call returns. *)
Definition dispatchEvent (e : StorageEvent) : M unit :=
  fun w =>
    (Returned tt,
     with_dispatched (dispatched w ++ [e])
       (with_cells
          ((fun c => if cell_listening c then handleStorageChange e c else c)
             <$> cells w) w)).

(** [setStoredValue] of the cell in slot [i]; [this] holds what the closure
    captured at render: the key and the value of that render.  No statement
    of it is inside a [try].  The event's [oldValue] is read with [getItem]
    after [setItem] has run.  React applies the state updates in the order of
    the calls: [setValue(valueToStore)], then whatever the cell's own listener
    sets while the event is dispatched. *)
Definition setStoredValue (i : nat) (this : Cell) (newValue : SetStateAction) : M unit :=
  let key := cell_key this in
  let value := cell_value this in
  let valueToStore :=
    match newValue with
    | Updater f => f value
    | Literal v => v
    end in
  setValue i valueToStore ;;
  win <- window_defined ;;
  if win then
    let storageValue := storageValue_of valueToStore in
    localStorage_setItem key (DOMString storageValue) ;;
    oldValue <- localStorage_getItem key ;;
    dispatchEvent
      {| ev_key := Some key; ev_newValue := storageValue;
         ev_oldValue := oldValue; ev_storageArea := LocalStorage |}
  else ret tt.

(** [remove] of the cell in slot [i]; here [oldValue] is read before
    [removeItem]. *)
Definition remove (i : nat) (this : Cell) : M unit :=
  let key := cell_key this in
  let defaultValue := cell_defaultValue this in
  setValue i defaultValue ;;
  win <- window_defined ;;
  if win then
    oldValue <- localStorage_getItem key ;;
    localStorage_removeItem key ;;
    dispatchEvent
      {| ev_key := Some key; ev_newValue := None;
         ev_oldValue := oldValue; ev_storageArea := LocalStorage |}
  else ret tt.

(** ** [getLocalStorage] and [setLocalStorage] *)

Record Config : Type := {
  cfg_key : string;
  cfg_defaultValue : Value
}.

(** The result of [getLocalStorage]. *)
Record Read : Type := {
  value : Value;
  isNull : bool
}.

(** [configs] is optional: [None] when it is not passed, and then
    [if (!configs) return null]. *)
Definition getDefaultFromConfigs (key : string) (configs : option (list Config)) : Value :=
  match configs with
  | None => VNull
  | Some configs =>
      match List.find (fun config => String.eqb (cfg_key config) key) configs with
      | Some config => cfg_defaultValue config
      | None => VNull
      end
  end.

(** [getLocalStorage] of [src/useLocalStorage.ts].  [defaultValue] is
    optional: [VUndefined] when it is not passed.  The item is tested with
    [item === null]. *)
Definition getLocalStorage (key : string) (defaultValue : Value)
    (configs : option (list Config)) : M Read :=
  win <- window_defined ;;
  if negb win then
    let fallback := defaultValue ?? getDefaultFromConfigs key configs ?? VNull in
    ret {| value := fallback; isNull := true |}
  else
    try_catch
      (item <- localStorage_getItem key ;;
       match item with
       | None =>
           let fallback := defaultValue ?? getDefaultFromConfigs key configs ?? VNull in
           ret {| value := fallback; isNull := true |}
       | Some item =>
           if typeof_string defaultValue then ret {| value := VStr item; isNull := false |}
           else
             try_catch
               (parsed <- JSON_parse item ;;
                ret {| value := parsed; isNull := false |})
               (fun _ =>
                  let fallback :=
                    defaultValue ?? getDefaultFromConfigs key configs ?? VNull in
                  ret {| value := fallback; isNull := true |})
       end)
      (fun _ =>
         let fallback := defaultValue ?? getDefaultFromConfigs key configs ?? VNull in
         ret {| value := fallback; isNull := true |}).

(** [setLocalStorage]: the statements of [setStoredValue] after its
    [setValue], inside [try], with [console.error] in the [catch]. *)
Definition setLocalStorage (key : string) (value : Value) : M unit :=
  win <- window_defined ;;
  if negb win then ret tt
  else
    try_catch
      (let storageValue := storageValue_of value in
       localStorage_setItem key (DOMString storageValue) ;;
       oldValue <- localStorage_getItem key ;;
       dispatchEvent
         {| ev_key := Some key; ev_newValue := storageValue;
            ev_oldValue := oldValue; ev_storageArea := LocalStorage |})
      (fun error => console_error error).

(** The earlier [getLocalStorage] (its [setLocalStorage] and hook are the
    ones above), which returns the bare value and tests the item with
    [!item]. *)
Module Earlier.

Definition getLocalStorage (key : string) (defaultValue : Value) : M Value :=
  win <- window_defined ;;
  if negb win then ret (defaultValue ?? VNull)
  else
    try_catch
      (item <- localStorage_getItem key ;;
       match item with
       | None => ret (defaultValue ?? VNull)
       | Some EmptyString => ret (defaultValue ?? VNull)
       | Some item =>
           if typeof_string defaultValue then ret (VStr item)
           else try_catch (JSON_parse item) (fun _ => ret (defaultValue ?? VNull))
       end)
      (fun _ => ret (defaultValue ?? VNull)).

End Earlier.

(** ** [useDraftLocalStorage] *)

(** The hook's own state: the draft, and the [storedValue] the effect last
    ran with (its dependency). *)
Record Draft : Type := {
  draftValue : Value;
  syncedValue : Value
}.

(** [useState(storedValue)], and the first run of the effect, which sets the
    draft to the same value. *)
Definition initialDraft (storedValue : Value) : Draft :=
  {| draftValue := storedValue; syncedValue := storedValue |}.

(** The first render of [useDraftLocalStorage(key, defaultValue)]: the slot
    of the cell it is built on, and its own state. *)
Definition useDraftLocalStorage (key : string) (defaultValue : Value)
  : M (nat * Draft) :=
  mounted <- useLocalStorage key defaultValue ;;
  let '(i, storedValue) := mounted in
  ret (i, initialDraft storedValue).

(** [useEffect(() => setDraftValue(storedValue), [storedValue])], after a
    render that sees [storedValue]: the effect runs when the dependency has
    changed.  React compares it with [Object.is]; the comparison here is
    [Value_eqb]. *)
Definition syncDraft (storedValue : Value) (d : Draft) : Draft :=
  if Value_eqb storedValue (syncedValue d) then d
  else {| draftValue := storedValue; syncedValue := storedValue |}.

Definition setDraftValue (next : SetStateAction) (d : Draft) : Draft :=
  {| draftValue := match next with
                   | Updater f => f (draftValue d)
                   | Literal v => v
                   end;
     syncedValue := syncedValue d |}.

(** [save], [reset] and [removeValue] of a draft over the cell in slot [i],
    with [this] the cell as rendered. *)
Definition save (i : nat) (this : Cell) (d : Draft) : M unit :=
  setStoredValue i this (Literal (draftValue d)).

Definition reset (storedValue : Value) (d : Draft) : Draft :=
  setDraftValue (Literal storedValue) d.

Definition removeValue (i : nat) (this : Cell) : M unit :=
  remove i this.

(** [JSON.stringify(a) !== JSON.stringify(b)] *)
Definition hasChanges (draftValue storedValue : Value) : bool :=
  match JSON.stringify draftValue, JSON.stringify storedValue with
  | Some a, Some b => negb (String.eqb a b)
  | None, None => false
  | _, _ => true
  end.

(** The value of the cell in slot [i], when the slot exists. *)
Definition storedValue (i : nat) (w : World) : option Value :=
  cell_value <$> cells w !! i.

(** ** Vocabulary of the statements *)

(** A browser whose storage area takes reads and writes. *)
Definition storage_works (w : World) : Prop :=
  has_window w = true /\ storage_fault w = NoFault.

(** The storage area can be read, and holds the empty string under [key]. *)
Definition reads_empty_string (key : string) (w : World) : Prop :=
  has_window w = true /\ storage_fault w <> AccessDenied /\
  items w !! key = Some EmptyString.

(** A write by the cell reaches the cell's own listener: there is a window,
    the storage area takes the write, and the cell is subscribed. *)
Definition hears_itself (this : Cell) (w : World) : bool :=
  has_window w && cell_listening this &&
  match storage_fault w with
  | NoFault => true
  | _ => false
  end.

(** The value [setStoredValue] resolves its argument to. *)
Definition resolve (next : SetStateAction) (current : Value) : Value :=
  match next with
  | Updater f => f current
  | Literal v => v
  end.

(** The value a listening cell adopts from a notification for its key. *)
Definition adopted (defaultValue : Value) (newValue : option string) : Value :=
  match newValue with
  | None => defaultValue
  | Some EmptyString => defaultValue
  | Some text =>
      if typeof_string defaultValue then VStr text
      else match JSON.parse text with
           | Some v => v
           | None => defaultValue
           end
  end.

(** The fallback of [getLocalStorage] in words: the supplied default, else the
    default of the first entry of [configs] for the key, else [null]; a
    default that is [null] or [undefined] counts as not supplied. *)
Definition fallback_in_words (key : string) (defaultValue : Value)
    (configs : option (list Config)) : Value :=
  if negb (nullish defaultValue) then defaultValue
  else
    match configs with
    | None => VNull
    | Some entries =>
        match List.find (fun config => String.eqb (cfg_key config) key) entries with
        | Some entry =>
            if negb (nullish (cfg_defaultValue entry)) then cfg_defaultValue entry
            else VNull
        | None => VNull
        end
    end.

(** *** Worlds and cells of the examples *)

Definition note_cell (current : string) : Cell :=
  {| cell_key := "note"; cell_defaultValue := VStr "draft";
     cell_value := VStr current; cell_listening := true |}.

(** A browser with one mounted cell for the key [note]. *)
Definition browser (stored : gmap string string) (current : string) : World :=
  {| has_window := true; storage_fault := NoFault; items := stored;
     cells := [note_cell current]; dispatched := []; console := [] |}.

Definition full_browser (current : string) : World :=
  {| has_window := true; storage_fault := StoreFull; items := ∅;
     cells := [note_cell current]; dispatched := []; console := [] |}.

(** A cell for [note] whose default is the empty string, as in
    [useDraftLocalStorage('note', '')], and a browser that holds it. *)
Definition empty_note : Cell :=
  {| cell_key := "note"; cell_defaultValue := VStr EmptyString;
     cell_value := VStr EmptyString; cell_listening := true |}.

Definition empty_note_browser (current : string) : World :=
  {| has_window := true; storage_fault := NoFault; items := ∅;
     cells := [with_value (VStr current) empty_note]; dispatched := []; console := [] |}.

(** A value with a fraction and a negative zero. *)
Definition mixer : Value :=
  VObj [("volume", VNum (Number.of_decimal false 5 (-1)));
        ("pan", VNum (S754_zero true));
        ("tracks", VArr [VNum (Number.of_Z 3); VStr "lead"])].

(** A mounted cell for [mixer] whose default is the empty object. *)
Definition mixer_cell : Cell :=
  {| cell_key := "mixer"; cell_defaultValue := VObj [];
     cell_value := VObj []; cell_listening := true |}.

Definition mixer_browser : World :=
  {| has_window := true; storage_fault := NoFault; items := ∅;
     cells := [mixer_cell]; dispatched := []; console := [] |}.

Definition settings : Value := VObj [("darkMode", VBool true); ("size", VNum (Number.of_Z 12))].

(** ** [useStateRef] *)

(** The hook's two stores: the React state, as the next render will show it,
    and the ref, which [getCurrent] reads at once. *)
Record StateRef : Type := {
  sr_state : Value;
  sr_current : Value
}.

(** [useState(initialValue)] and [useRef(initialValue)]. *)
Definition useStateRef (initialValue : Value) : StateRef :=
  {| sr_state := initialValue; sr_current := initialValue |}.

(** [setStateRef]: a function argument is applied to [ref.current], not to
    the state of the render. *)
Definition setStateRef (value : SetStateAction) (s : StateRef) : StateRef :=
  let newValue :=
    match value with
    | Updater f => f (sr_current s)
    | Literal v => v
    end in
  {| sr_state := newValue; sr_current := newValue |}.

Definition getCurrent (s : StateRef) : Value := sr_current s.

(** ** [useIsOnline] *)

(** The two events the hook listens to on [window]. *)
Inductive ConnectivityEvent : Type :=
  | online
  | offline.

(** The initial state; [navigator] is [None] when [typeof navigator] is
    ['undefined'], else the value of [navigator.onLine]. *)
Definition useIsOnline (navigator : option bool) : bool :=
  match navigator with
  | Some onLine => onLine
  | None => true
  end.

(** [handleOnline] and [handleOffline], by the event that calls them. *)
Definition handleConnectivity (isOnline : bool) (e : ConnectivityEvent) : bool :=
  match e with
  | online => true
  | offline => false
  end.

(** *** More worlds of the examples *)

(** A browser with two mounted cells for [note], of different defaults; the
    second listens. *)
Definition note_reader : Cell :=
  {| cell_key := "note"; cell_defaultValue := VStr "empty";
     cell_value := VStr "old"; cell_listening := true |}.

Definition shared_browser (stored : gmap string string) : World :=
  {| has_window := true; storage_fault := NoFault; items := stored;
     cells := [note_cell "old"; note_reader]; dispatched := []; console := [] |}.

(** The same page rendered where there is no [window]. *)
Definition server (current : string) : World :=
  {| has_window := false; storage_fault := NoFault; items := ∅;
     cells := [note_cell current]; dispatched := []; console := [] |}.

(** A browser that denies the page its storage area. *)
Definition denied_browser (current : string) : World :=
  {| has_window := true; storage_fault := AccessDenied; items := ∅;
     cells := [note_cell current]; dispatched := []; console := [] |}.

(** * Facts about strings *)

Module StringFacts.

Lemma unit_eqb_eq (a b : code_unit) : String.unit_eqb a b = true <-> a = b.
Proof.
  destruct a as [h l], b as [h' l']. unfold String.unit_eqb. simpl.
  rewrite andb_true_iff, !Ascii.eqb_eq. split; [intros [-> ->]; reflexivity|].
  intros [= -> ->]. auto.
Qed.

Lemma unit_eqb_refl (a : code_unit) : String.unit_eqb a a = true.
Proof. apply unit_eqb_eq. reflexivity. Qed.

Lemma unit_eqb_neq (a b : code_unit) : String.unit_eqb a b = false <-> a <> b.
Proof.
  rewrite <- unit_eqb_eq. destruct (String.unit_eqb a b); split; congruence.
Qed.

Lemma eqb_eq (a b : string) : String.eqb a b = true <-> a = b.
Proof.
  revert b. induction a as [|c a IH]; intros [|d b]; simpl;
    try (split; [discriminate | intros H; discriminate H]).
  - split; reflexivity.
  - rewrite andb_true_iff, unit_eqb_eq, IH. split; [intros [-> ->]; reflexivity|].
    intros [= -> ->]. auto.
Qed.

Lemma eqb_refl (a : string) : String.eqb a a = true.
Proof. apply eqb_eq. reflexivity. Qed.

Lemma eqb_neq (a b : string) : String.eqb a b = false <-> a <> b.
Proof.
  rewrite <- eqb_eq. destruct (String.eqb a b); split; congruence.
Qed.

Lemma eqb_spec (a b : string) : reflect (a = b) (String.eqb a b).
Proof.
  destruct (String.eqb a b) eqn:E; constructor;
    [apply eqb_eq | apply eqb_neq]; exact E.
Qed.

Lemma eqb_sym (a b : string) : String.eqb a b = String.eqb b a.
Proof.
  destruct (String.eqb a b) eqn:E.
  - apply eqb_eq in E. subst. symmetry. apply eqb_refl.
  - symmetry. apply eqb_neq. apply eqb_neq in E. congruence.
Qed.

Lemma code_bound (c : code_unit) : (String.code c < 65536)%N.
Proof.
  unfold String.code. pose proof (N_ascii_bounded (high_byte c)).
  pose proof (N_ascii_bounded (low_byte c)). lia.
Qed.

Lemma of_code_code (c : code_unit) : String.of_code (String.code c) = c.
Proof.
  destruct c as [h l]. unfold String.of_code, String.code. simpl.
  pose proof (N_ascii_bounded h) as Hh. pose proof (N_ascii_bounded l) as Hl.
  assert (Hd : ((256 * N_of_ascii h + N_of_ascii l) / 256 = N_of_ascii h)%N).
  { symmetry. apply (N.div_unique _ 256 _ (N_of_ascii l)); lia. }
  assert (Hm : ((256 * N_of_ascii h + N_of_ascii l) mod 256 = N_of_ascii l)%N).
  { symmetry. apply (N.mod_unique _ 256 (N_of_ascii h)); lia. }
  rewrite Hd, Hm, !ascii_N_embedding. reflexivity.
Qed.

Lemma code_of_code (n : N) : (n < 65536)%N -> String.code (String.of_code n) = n.
Proof.
  intros Hn. unfold String.of_code, String.code. simpl.
  assert (Hq : (n / 256 < 256)%N) by (apply N.Div0.div_lt_upper_bound; lia).
  assert (Hr : (n mod 256 < 256)%N) by (apply N.mod_lt; lia).
  rewrite !N_ascii_embedding by assumption.
  symmetry. apply N.div_mod. lia.
Qed.

Lemma code_inj (a b : code_unit) : String.code a = String.code b -> a = b.
Proof. intros H. rewrite <- (of_code_code a), <- (of_code_code b), H. reflexivity. Qed.

Lemma append_cons (c : code_unit) (a b : string) : String c a ++ b = String c (a ++ b).
Proof. reflexivity. Qed.

Lemma append_empty_l (a : string) : EmptyString ++ a = a.
Proof. reflexivity. Qed.

Lemma append_assoc (a b c : string) : (a ++ b) ++ c = a ++ (b ++ c).
Proof.
  induction a as [|x a IH]; [reflexivity | rewrite !append_cons; now rewrite IH].
Qed.

Lemma append_empty_r (a : string) : a ++ EmptyString = a.
Proof.
  induction a as [|x a IH]; [reflexivity | rewrite append_cons; now rewrite IH].
Qed.

Lemma length_append (a b : string) :
  String.length (a ++ b) = String.length a + String.length b.
Proof.
  induction a as [|x a IH]; [reflexivity | rewrite append_cons; simpl; now rewrite IH].
Qed.

Lemma take_drop (n : nat) (s : string) : String.take n s ++ String.drop n s = s.
Proof.
  revert s. induction n as [|n IH]; intros [|c s]; try reflexivity.
  simpl. rewrite IH. reflexivity.
Qed.

Lemma length_take (n : nat) (s : string) :
  n <= String.length s -> String.length (String.take n s) = n.
Proof.
  revert s. induction n as [|n IH]; intros [|c s] H; simpl in *; try reflexivity; try lia.
  rewrite IH by lia. reflexivity.
Qed.

Lemma length_drop (n : nat) (s : string) :
  String.length (String.drop n s) = String.length s - n.
Proof.
  revert s. induction n as [|n IH]; intros [|c s]; simpl; try reflexivity; try lia.
  apply IH.
Qed.

End StringFacts.

(** * Facts about numbers *)

Module NumberFacts.
Import Number.
Local Open Scope Z_scope.

Lemma number_eqb_eq (x y : number) : eqb x y = true <-> x = y.
Proof.
  destruct x as [a|a| |a m e], y as [b|b| |b m' e']; simpl;
    try (split; [discriminate | intros H; discriminate H]);
    try (rewrite Bool.eqb_true_iff; split; congruence).
  - split; reflexivity.
  - rewrite !andb_true_iff, Bool.eqb_true_iff, Pos.eqb_eq, Z.eqb_eq.
    split; [intros [[-> ->] ->]; reflexivity | intros [= -> -> ->]; auto].
Qed.

Lemma number_eqb_refl (x : number) : eqb x x = true.
Proof. apply number_eqb_eq. reflexivity. Qed.

(** The digits of the significand are its binary logarithm and one. *)
Lemma digits2_pos_log2 (m : positive) :
  Zpos (digits2_pos m) = Z.log2 (Zpos m) + 1.
Proof.
  induction m as [m IH|m IH|]; simpl; try reflexivity.
  - rewrite Pos2Z.inj_succ, IH. destruct m; simpl; lia.
  - rewrite Pos2Z.inj_succ, IH. destruct m; simpl; lia.
Qed.

Lemma bounded_spec (m : positive) (e : Z) :
  bounded prec emax m e = true ->
  Z.max (Z.log2 (Zpos m) + e - 52) (-1074) = e /\ e <= 971.
Proof.
  unfold bounded, canonical_mantissa, fexp, SpecFloat.emin, prec, emax.
  rewrite andb_true_iff, Z.eqb_eq, Z.leb_le, digits2_pos_log2. lia.
Qed.

Lemma round_half_even_exact (d m : Z) : 0 < d -> round_half_even (d * m) d = m.
Proof.
  intros Hd. unfold round_half_even.
  rewrite (Z.mul_comm d m), Z.mod_mul, Z.div_mul by lia.
  change (2 * 0) with 0. destruct (Z.compare_spec 0 d); lia.
Qed.

(** A rational that is a number of the format is its own nearest number. *)
Lemma nearest_exact (negative : bool) (c : Z) (m : positive) (a b e : Z) :
  0 < c -> 0 <= a -> 0 <= b -> e = a - b -> bounded prec emax m e = true ->
  nearest negative (c * Zpos m * 2 ^ a) (c * 2 ^ b) = S754_finite negative m e.
Proof.
  intros Hc Ha Hb He Hv. destruct (bounded_spec m e Hv) as [Hmax Hle].
  unfold nearest.
  assert (Hlogc : 0 <= Z.log2 c) by apply Z.log2_nonneg.
  assert (Hlogm : 0 <= Z.log2 (Zpos m)) by apply Z.log2_nonneg.
  rewrite (Z.log2_mul_pow2 c b) by lia.
  set (t := b + Z.log2 c + 1).
  assert (Hq : c * Z.pos m * 2 ^ a * 2 ^ t / (c * 2 ^ b) = Zpos m * 2 ^ (a + t - b)).
  { replace (c * Z.pos m * 2 ^ a * 2 ^ t) with ((Zpos m * 2 ^ (a + t - b)) * (c * 2 ^ b)).
    - apply Z.div_mul. pose proof (Z.pow_pos_nonneg 2 b). lia.
    - assert (Hpow : 2 ^ a * 2 ^ t = 2 ^ (a + t - b) * 2 ^ b)
        by (rewrite <- !Z.pow_add_r by lia; f_equal; lia).
      transitivity (c * Zpos m * (2 ^ (a + t - b) * 2 ^ b)); [ring|].
      rewrite <- Hpow. ring. }
  rewrite Hq.
  rewrite Z.log2_mul_pow2 by lia.
  replace (a + t - b + Z.log2 (Z.pos m) - t - 52) with (Z.log2 (Zpos m) + e - 52) by lia.
  rewrite Hmax.
  assert (Hround : round_half_even (c * Z.pos m * 2 ^ a * 2 ^ Z.max (- e) 0)
                     (c * 2 ^ b * 2 ^ Z.max e 0) = Zpos m).
  { replace (c * Z.pos m * 2 ^ a * 2 ^ Z.max (- e) 0)
      with ((c * 2 ^ b * 2 ^ Z.max e 0) * Zpos m).
    - apply round_half_even_exact.
      pose proof (Z.pow_pos_nonneg 2 b). pose proof (Z.pow_pos_nonneg 2 (Z.max e 0)). nia.
    - assert (Hpow : 2 ^ a * 2 ^ Z.max (- e) 0 = 2 ^ b * 2 ^ Z.max e 0)
        by (rewrite <- !Z.pow_add_r by lia; f_equal; lia).
      transitivity (c * Zpos m * (2 ^ b * 2 ^ Z.max e 0)); [ring|].
      rewrite <- Hpow. ring. }
  rewrite Hround.
  assert (Hm : Zpos m < 2 ^ 53).
  { apply Z.log2_lt_pow2; lia. }
  destruct (Z.eqb_spec (Zpos m) (2 ^ 53)) as [E|_]; [lia|].
  destruct (Z.ltb_spec 971 e); [lia | reflexivity].
Qed.

(** The whole decimal expansion of a number reads as the number. *)
Lemma exact_reads_back (m : positive) (e : Z) :
  bounded prec emax m e = true ->
  let '(num, den) := scaled m e (exact_position e) in
  reads_as m e (num / den) (exact_position e) = true.
Proof.
  intros Hv. unfold scaled, exact_position, reads_as.
  destruct (Z.le_gt_cases 0 e) as [He|He].
  - replace (Z.min e 0) with 0 by lia. replace (Z.max e 0) with e by lia.
    replace (Z.max (- e) 0) with 0 by lia. change (Z.max (- 0) 0) with 0.
    change (Z.max 0 0) with 0.
    change (10 ^ 0) with 1. change (2 ^ 0) with 1.
    rewrite !Z.mul_1_r, Z.div_1_r.
    assert (Hpos : 0 < Zpos m * 2 ^ e) by (pose proof (Z.pow_pos_nonneg 2 e); nia).
    apply andb_true_iff. split; [apply Z.ltb_lt; exact Hpos|].
    apply number_eqb_eq. unfold of_decimal.
    destruct (Z.eqb_spec (Zpos m * 2 ^ e) 0); [lia|].
    change (0 <=? 0) with true. cbv iota. change (10 ^ 0) with 1. rewrite Z.mul_1_r.
    replace (Z.pos m * 2 ^ e) with (1 * Zpos m * 2 ^ e) by ring.
    change 1 with (1 * 2 ^ 0) at 2.
    apply nearest_exact; try lia. exact Hv.
  - replace (Z.min e 0) with e by lia. replace (Z.max e 0) with 0 by lia.
    replace (Z.max (- e) 0) with (- e) by lia.
    change (10 ^ 0) with 1. change (2 ^ 0) with 1. rewrite !Z.mul_1_r.
    set (k := - e). assert (Hk : 0 <= k) by lia.
    assert (Hten : 10 ^ k = 5 ^ k * 2 ^ k) by (rewrite <- Z.pow_mul_l; reflexivity).
    assert (H2 : 0 < 2 ^ k) by (apply Z.pow_pos_nonneg; lia).
    assert (H5 : 0 < 5 ^ k) by (apply Z.pow_pos_nonneg; lia).
    assert (Hs : Zpos m * 10 ^ k / 2 ^ k = 5 ^ k * Zpos m).
    { rewrite Hten. replace (Z.pos m * (5 ^ k * 2 ^ k)) with (5 ^ k * Zpos m * 2 ^ k) by ring.
      apply Z.div_mul. lia. }
    rewrite Hs.
    apply andb_true_iff. split; [apply Z.ltb_lt; nia|].
    apply number_eqb_eq. unfold of_decimal.
    destruct (Z.eqb_spec (5 ^ k * Zpos m) 0); [nia|].
    destruct (Z.leb_spec 0 e); [lia|]. fold k. rewrite Hten.
    replace (5 ^ k * Z.pos m) with (5 ^ k * Zpos m * 2 ^ 0) by (change (2 ^ 0) with 1; ring).
    apply nearest_exact; try lia. exact Hv.
Qed.

Lemma candidate_reads_back (m : positive) (e p s : Z) :
  candidate m e p = Some s -> reads_as m e s p = true.
Proof.
  unfold candidate. destruct (scaled m e p) as [num den].
  generalize (2 * (num mod den) ?= den). intros cmp.
  destruct (reads_as m e (num / den) p) eqn:Hlo,
           (reads_as m e (num / den + 1) p) eqn:Hhi; intros [= <-]; try assumption.
  destruct cmp; try assumption.
  destruct (Z.even (num / den)); assumption.
Qed.

Lemma shortest_from_reads_back (fuel : nat) (m : positive) (e p : Z) :
  bounded prec emax m e = true ->
  let '(s, p') := shortest_from fuel m e p in reads_as m e s p' = true.
Proof.
  intros Hv. revert p. induction fuel as [|fuel IH]; intros p; cbn [shortest_from].
  - pose proof (exact_reads_back m e Hv) as H.
    destruct (scaled m e (exact_position e)) as [num den]. exact H.
  - destruct (candidate m e p) as [s|] eqn:Hc.
    + exact (candidate_reads_back m e p s Hc).
    + apply IH.
Qed.

(** The digits that [Number::toString] writes read as the number. *)
Lemma shortest_reads_back (m : positive) (e : Z) :
  bounded prec emax m e = true ->
  let '(s, p) := shortest m e in
  0 < s /\ of_decimal false s p = S754_finite false m e.
Proof.
  intros Hv. unfold shortest.
  pose proof (shortest_from_reads_back
                (Z.to_nat (first_position m e - exact_position e)) m e
                (first_position m e) Hv) as H.
  destruct (shortest_from _ m e _) as [s p].
  unfold reads_as in H. apply andb_true_iff in H as [Hs He].
  split; [apply Z.ltb_lt; exact Hs | apply number_eqb_eq; exact He].
Qed.

(** The sign of a literal is the sign of its number. *)
Lemma of_decimal_sign (negative : bool) (s p : Z) (m : positive) (e : Z) :
  of_decimal false s p = S754_finite false m e ->
  of_decimal negative s p = S754_finite negative m e.
Proof.
  unfold of_decimal. destruct (s =? 0); [discriminate|].
  assert (H : forall num den,
             nearest false num den = S754_finite false m e ->
             nearest negative num den = S754_finite negative m e).
  { intros num den. unfold nearest.
    destruct (round_half_even _ _ =? 2 ^ 53).
    - destruct (971 <? _); [discriminate|]. intros [= <- <-]. reflexivity.
    - destruct (971 <? _); [discriminate|].
      destruct (round_half_even _ _); try discriminate. intros [= <- <-]. reflexivity. }
  destruct (0 <=? p); apply H.
Qed.

(** Zeros after the digits move the point. *)
Lemma of_decimal_shift (negative : bool) (s j : Z) :
  0 < s -> 0 <= j -> of_decimal negative (s * 10 ^ j) 0 = of_decimal negative s j.
Proof.
  intros Hs Hj. unfold of_decimal.
  assert (Hp : 0 < 10 ^ j) by (apply Z.pow_pos_nonneg; lia).
  destruct (Z.eqb_spec (s * 10 ^ j) 0); [nia|].
  destruct (Z.eqb_spec s 0); [lia|].
  change (0 <=? 0) with true. destruct (Z.leb_spec 0 j); [|lia].
  cbv iota. change (10 ^ 0) with 1. rewrite Z.mul_1_r. reflexivity.
Qed.

(** A finite number is [===] to itself. *)
Lemma equal_refl (x : number) : finite x = true -> equal x x = true.
Proof.
  destruct x as [s|s| |s m e]; try discriminate; intros _; [reflexivity|].
  unfold equal, SFeqb, SFcompare.
  destruct s; rewrite Z.compare_refl, Pos.compare_cont_refl; reflexivity.
Qed.

(** *** Digits *)

Lemma of_uint_acc_value (d : uint) (acc : positive) :
  Zpos (Pos.of_uint_acc d acc) = uint_value d (Zpos acc).
Proof.
  revert acc. induction d; intros acc; simpl; try reflexivity; rewrite IHd; f_equal; lia.
Qed.

Lemma of_uint_value (d : uint) : Z.of_N (N.of_uint d) = uint_value d 0.
Proof.
  unfold N.of_uint. induction d; simpl; try reflexivity; try exact IHd;
    rewrite of_uint_acc_value; reflexivity.
Qed.

End NumberFacts.

(** * Facts about the JSON text *)

Module JSONFacts.
Import JSON StringFacts.


(** *** Digits *)

Lemma all_digits_string_of_uint (d : uint) :
  all_digits (Number.string_of_uint d) = true.
Proof. induction d; simpl; auto. Qed.

Lemma digits_value_string_of_uint (d : uint) (acc : Z) :
  digits_value (Number.string_of_uint d) acc = Number.uint_value d acc.
Proof.
  revert acc. induction d; intros acc; [reflexivity | ..];
    cbn [Number.string_of_uint digits_value Number.uint_value];
    match goal with
    | |- context [digit_value ?c] =>
        let d := eval vm_compute in (digit_value c) in
        change (digit_value c) with d
    end; cbv iota; rewrite IHd; f_equal; lia.
Qed.

Lemma decimal_all_digits (n : Z) : all_digits (Number.decimal n) = true.
Proof. apply all_digits_string_of_uint. Qed.

Lemma decimal_value (n : Z) : (0 <= n)%Z -> digits_value (Number.decimal n) 0 = n.
Proof.
  intros Hn. unfold Number.decimal.
  rewrite digits_value_string_of_uint, <- NumberFacts.of_uint_value,
    DecimalN.Unsigned.of_to. lia.
Qed.

Lemma to_uint_unorm (p : positive) : unorm (Pos.to_uint p) = Pos.to_uint p.
Proof.
  rewrite <- DecimalPos.Unsigned.to_of, DecimalPos.Unsigned.of_to. reflexivity.
Qed.

(** The digits of a positive number do not start with a zero. *)
Lemma to_uint_no_leading_zero (p : positive) (d : uint) : Pos.to_uint p <> D0 d.
Proof.
  intros E. pose proof (to_uint_unorm p) as U. rewrite E in U.
  unfold unorm in U. rewrite nzhead_D0 in U.
  destruct (nzhead d) eqn:Hd; try discriminate U.
  - injection U as <-. exact (DecimalPos.Unsigned.to_uint_nonzero p E).
  - exact (nzhead_nonzero d _ Hd).
Qed.

Lemma decimal_head (n : Z) :
  exists c t, Number.decimal n = String c t /\
              (exists d, digit_value c = Some d) /\
              ((0 < n)%Z -> String.unit_eqb c "0" = false).
Proof.
  unfold Number.decimal. destruct (Z.to_N n) as [|p] eqn:En.
  - exists "0"%cu, EmptyString. split; [reflexivity|]. split; [eexists; reflexivity|].
    intros Hn. lia.
  - change (N.to_uint (N.pos p)) with (Pos.to_uint p).
    pose proof (DecimalPos.Unsigned.to_uint_nonnil p) as Hnil.
    pose proof (to_uint_no_leading_zero p) as Hz.
    destruct (Pos.to_uint p) as [|d|d|d|d|d|d|d|d|d|d];
      [contradiction | exfalso; exact (Hz d eq_refl) | ..];
      eexists _, _; (split; [reflexivity|]); (split; [eexists; reflexivity|]);
      intros _; reflexivity.
Qed.

Lemma scan_digits_app (a rest : string) (acc : Z) :
  all_digits a = true -> no_digit_ahead rest = true ->
  scan_digits (a ++ rest) acc = (digits_value a acc, String.length a, rest).
Proof.
  revert acc. induction a as [|c a IH]; intros acc Ha Hrest.
  - rewrite append_empty_l. destruct rest as [|c r]; [reflexivity|].
    simpl in Hrest. simpl. destruct (digit_value c); [discriminate | reflexivity].
  - rewrite append_cons. simpl in Ha. simpl.
    destruct (digit_value c) as [d|]; [|discriminate].
    rewrite (IH _ Ha Hrest). reflexivity.
Qed.

Lemma digits_value_app (a b : string) (acc : Z) :
  all_digits a = true ->
  digits_value (a ++ b) acc = digits_value b (digits_value a acc).
Proof.
  revert acc. induction a as [|c a IH]; intros acc Ha; [reflexivity|].
  rewrite append_cons. simpl in Ha. simpl.
  destruct (digit_value c) as [d|]; [|discriminate]. apply IH. exact Ha.
Qed.

Lemma all_digits_app (a b : string) :
  all_digits a = true -> all_digits b = true -> all_digits (a ++ b) = true.
Proof.
  induction a as [|c a IH]; intros Ha Hb; [exact Hb|].
  rewrite append_cons. simpl in Ha. simpl.
  destruct (digit_value c); [auto | discriminate].
Qed.

Lemma all_digits_zeros (j : nat) : all_digits (Number.zeros j) = true.
Proof. induction j; simpl; auto. Qed.

Lemma length_zeros (j : nat) : String.length (Number.zeros j) = j.
Proof. induction j; simpl; auto. Qed.

Lemma digits_value_zeros (j : nat) (acc : Z) :
  digits_value (Number.zeros j) acc = (acc * 10 ^ Z.of_nat j)%Z.
Proof.
  revert acc. induction j as [|j IH]; intros acc.
  - simpl. lia.
  - cbn [Number.zeros digits_value]. change (digit_value "0") with (Some 0%Z).
    cbv iota. rewrite IH, Nat2Z.inj_succ, Z.pow_succ_r by lia. ring.
Qed.

Lemma all_digits_take (n : nat) (s : string) :
  all_digits s = true -> all_digits (String.take n s) = true.
Proof.
  revert s. induction n as [|n IH]; intros [|c s] H; try reflexivity.
  simpl in *. destruct (digit_value c); [auto | discriminate].
Qed.

Lemma all_digits_drop (n : nat) (s : string) :
  all_digits s = true -> all_digits (String.drop n s) = true.
Proof.
  revert s. induction n as [|n IH]; intros [|c s] H; try reflexivity; try exact H.
  simpl in *. destruct (digit_value c); [auto | discriminate].
Qed.

(** *** Number literals *)

Lemma number_end_spec (rest : string) :
  number_end rest = true ->
  no_digit_ahead rest = true /\ starts_with "." rest = None /\
  starts_exponent rest = None.
Proof.
  destruct rest as [|c r]; [auto|]. unfold number_end, no_digit_ahead, starts_with,
    starts_exponent.
  destruct (digit_value c); [discriminate|]. intros H.
  apply negb_true_iff in H. apply orb_false_iff in H as [H He'].
  apply orb_false_iff in H as [Hdot He].
  rewrite He, He'. split; [reflexivity|]. split; [|reflexivity].
  rewrite (proj2 (unit_eqb_neq "." c)); [reflexivity|].
  apply unit_eqb_neq in Hdot. congruence.
Qed.

Lemma starts_with_zero_app (a rest : string) :
  a <> EmptyString -> starts_with_zero (a ++ rest) = starts_with_zero a.
Proof. destruct a; [contradiction | reflexivity]. Qed.

Lemma parse_integer_digits (a rest : string) :
  all_digits a = true -> a <> EmptyString ->
  starts_with_zero a = false \/ String.length a = 1 ->
  no_digit_ahead rest = true ->
  parse_integer (a ++ rest) = Some (digits_value a 0, rest).
Proof.
  intros Ha Hne Hz Hrest. unfold parse_integer.
  rewrite (scan_digits_app a rest 0 Ha Hrest).
  rewrite (starts_with_zero_app a rest Hne).
  destruct a as [|c [|d a]]; [contradiction | reflexivity |].
  simpl String.length. cbv iota.
  destruct Hz as [-> | Hz]; [reflexivity | simpl in Hz; lia].
Qed.

Lemma parse_fraction_none (i : Z) (rest : string) :
  starts_with "." rest = None -> parse_fraction i rest = Some (i, O, rest).
Proof. intros H. unfold parse_fraction. rewrite H. reflexivity. Qed.

Lemma parse_fraction_digits (i : Z) (b rest : string) :
  all_digits b = true -> b <> EmptyString -> no_digit_ahead rest = true ->
  parse_fraction i (String "." (b ++ rest))
  = Some (digits_value b i, String.length b, rest).
Proof.
  intros Hb Hne Hrest. unfold parse_fraction.
  change (starts_with "." (String "." (b ++ rest))) with (Some (b ++ rest)).
  cbv iota. rewrite (scan_digits_app b rest i Hb Hrest).
  destruct b; [contradiction | reflexivity].
Qed.

Lemma parse_exponent_none (rest : string) :
  starts_exponent rest = None -> parse_exponent rest = Some (0%Z, rest).
Proof. intros H. unfold parse_exponent. rewrite H. reflexivity. Qed.

Lemma parse_exponent_digits (x : Z) (rest : string) :
  no_digit_ahead rest = true ->
  parse_exponent
    ((if (x <? 0)%Z then "e-" else "e+") ++ Number.decimal (Z.abs x) ++ rest)
  = Some (x, rest).
Proof.
  intros Hrest. unfold parse_exponent.
  assert (Hscan : scan_digits (Number.decimal (Z.abs x) ++ rest) 0
                  = (Z.abs x, String.length (Number.decimal (Z.abs x)), rest)).
  { rewrite scan_digits_app by (try apply decimal_all_digits; exact Hrest).
    rewrite decimal_value by lia. reflexivity. }
  destruct (decimal_head (Z.abs x)) as (c & t & E & _ & _).
  destruct (Z.ltb_spec x 0) as [Hx|Hx].
  - change (starts_exponent ("e-" ++ ?r)) with (Some (String "-" r)).
    cbv iota.
    change (starts_with "-" (String "-" ?r)) with (Some r). cbv iota.
    rewrite Hscan, E. simpl String.length. cbv iota. f_equal. f_equal. lia.
  - change (starts_exponent ("e+" ++ ?r)) with (Some (String "+" r)).
    cbv iota.
    change (starts_with "-" (String "+" ?r)) with (@None string).
    change (starts_with "+" (String "+" ?r)) with (Some r). cbv iota.
    rewrite Hscan, E. simpl String.length. cbv iota. f_equal. f_equal. lia.
Qed.


(** A number literal read part by part. *)
Lemma parse_number_parts (negative : bool) (text : string) (i : Z) (r1 : string)
    (digits : Z) (places : nat) (r2 : string) (exponent : Z) (r3 : string) :
  (exists c t d, text = String c t /\ digit_value c = Some d) ->
  parse_integer text = Some (i, r1) ->
  parse_fraction i r1 = Some (digits, places, r2) ->
  parse_exponent r2 = Some (exponent, r3) ->
  parse_number ((if negative then "-" else EmptyString) ++ text)
  = Some (VNum (Number.of_decimal negative digits (exponent - Z.of_nat places)), r3).
Proof.
  intros (c & t & d & -> & Hc) Hi Hf He. unfold parse_number.
  destruct negative.
  - change (starts_with "-" ("-" ++ String c t)) with (Some (String c t)).
    cbv iota. rewrite Hi, Hf, He. reflexivity.
  - rewrite append_empty_l.
    assert (Hminus : starts_with "-" (String c t) = None).
    { unfold starts_with. destruct (String.unit_eqb "-" c) eqn:E; [|reflexivity].
      apply unit_eqb_eq in E. subst c. discriminate Hc. }
    rewrite Hminus, Hi, Hf, He. reflexivity.
Qed.

(** The text of the exponent starts with [e]. *)
Lemma exponent_head (x : Z) (rest : string) :
  exists t,
    ((if (x <? 0)%Z then "e-" else "e+") ++ Number.decimal (Z.abs x)) ++ rest
    = String "e" t.
Proof. destruct (x <? 0)%Z; eexists; reflexivity. Qed.

Ltac same_exponent tac :=
  match goal with
  | |- Some (VNum (Number.of_decimal _ _ ?a), _)
       = Some (VNum (Number.of_decimal _ _ ?b), _) =>
      replace a with b by tac; reflexivity
  end.

(** The text [Number::toString] gives to the digits [s] at the position
    [n] reads as the decimal it writes. *)
Lemma parse_number_format (negative : bool) (s n : Z) (rest : string) :
  (0 < s)%Z -> number_end rest = true ->
  parse_number ((if negative then "-" else EmptyString) ++
                Number.format (Number.decimal s) n ++ rest)
  = Some (VNum (Number.of_decimal negative s
                  (n - Z.of_nat (String.length (Number.decimal s)))), rest).
Proof.
  intros Hs Hend. destruct (number_end_spec rest Hend) as (Hnd & Hdot & Hexp).
  pose proof (decimal_all_digits s) as Hda.
  pose proof (decimal_value s ltac:(lia)) as Hval.
  destruct (decimal_head s) as (c & t & Eds & (d & Hc) & Hzero).
  specialize (Hzero Hs).
  set (ds := Number.decimal s) in *. clearbody ds. subst ds.
  assert (Hz : starts_with_zero (String c t) = false) by exact Hzero.
  unfold Number.format. set (k := Z.of_nat (String.length (String c t))).
  assert (Hk : (1 <= k)%Z) by (unfold k; simpl String.length; lia).
  destruct ((k <=? n)%Z && (n <=? 21)%Z) eqn:Ca.
  { (* the digits, then zeros *)
    apply andb_true_iff in Ca as [Ckn _]. apply Z.leb_le in Ckn.
    set (j := Z.to_nat (n - k)).
    assert (Hall : all_digits (String c t ++ Number.zeros j) = true)
      by (apply all_digits_app; [exact Hda | apply all_digits_zeros]).
    rewrite (parse_number_parts negative ((String c t ++ Number.zeros j) ++ rest)
               _ _ _ _ _ _ _
               ltac:(exists c, ((t ++ Number.zeros j) ++ rest), d; split; [reflexivity | exact Hc])
               (parse_integer_digits _ rest Hall ltac:(discriminate)
                  ltac:(left; exact Hz) Hnd)
               (parse_fraction_none _ rest Hdot)
               (parse_exponent_none rest Hexp)).
    rewrite digits_value_app, Hval, digits_value_zeros by exact Hda.
    rewrite NumberFacts.of_decimal_shift by lia.
    same_exponent ltac:(unfold j; lia). }
  destruct ((0 <? n)%Z && (n <=? 21)%Z) eqn:Cb.
  { (* digits, the point, digits *)
    apply andb_true_iff in Cb as [C0n Cn21]. apply Z.ltb_lt in C0n.
    apply Z.leb_le in Cn21.
    assert (Hnk : (n < k)%Z).
    { apply andb_false_iff in Ca as [Ca|Ca]; [apply Z.leb_gt in Ca; lia|].
      apply Z.leb_gt in Ca. lia. }
    set (n' := Z.to_nat n).
    assert (Hn' : n' <= String.length (String c t)) by (unfold n'; lia).
    assert (Htake : String.take n' (String c t) <> EmptyString).
    { unfold n'. destruct (Z.to_nat n) eqn:E; [lia | discriminate]. }
    assert (Hdrop : String.drop n' (String c t) <> EmptyString).
    { intros E. pose proof (length_drop n' (String c t)) as L. rewrite E in L.
      simpl String.length in L. unfold k in Hnk. simpl String.length in Hnk. lia. }
    assert (Hzt : starts_with_zero (String.take n' (String c t)) = false).
    { unfold n'. destruct (Z.to_nat n) eqn:E; [lia | exact Hz]. }
    rewrite !append_assoc.
    change ("." ++ ?x) with (String "." x).
    rewrite (parse_number_parts negative
               (String.take n' (String c t) ++
                String "." (String.drop n' (String c t) ++ rest))
               _ _ _ _ _ _ _
               ltac:(unfold n'; destruct (Z.to_nat n) eqn:E; [lia|];
                     eexists c, _, d; split; [reflexivity | exact Hc])
               (parse_integer_digits (String.take n' (String c t))
                  (String "." (String.drop n' (String c t) ++ rest))
                  (all_digits_take n' _ Hda) Htake
                  ltac:(left; exact Hzt) eq_refl)
               (parse_fraction_digits _ _ rest (all_digits_drop n' _ Hda) Hdrop Hnd)
               (parse_exponent_none rest Hexp)).
    rewrite <- digits_value_app by (apply all_digits_take; exact Hda).
    rewrite take_drop, Hval.
    same_exponent ltac:(rewrite length_drop; unfold k, n' in *; lia). }
  destruct ((-6 <? n)%Z && (n <=? 0)%Z) eqn:Cc.
  { (* zero, the point, zeros, the digits *)
    apply andb_true_iff in Cc as [_ Cn0]. apply Z.leb_le in Cn0.
    set (j := Z.to_nat (- n)).
    assert (Hall : all_digits (Number.zeros j ++ String c t) = true)
      by (apply all_digits_app; [apply all_digits_zeros | exact Hda]).
    assert (Hne : Number.zeros j ++ String c t <> EmptyString).
    { intros E. apply (f_equal String.length) in E. rewrite length_append in E.
      simpl in E. lia. }
    rewrite (append_assoc "0." _ rest).
    change ("0." ++ ?x) with ("0" ++ String "." x).
    rewrite (parse_number_parts negative
               ("0" ++ String "." ((Number.zeros j ++ String c t) ++ rest))
               _ _ _ _ _ _ _
               ltac:(eexists "0"%cu, _, 0%Z; split; reflexivity)
               (parse_integer_digits "0"
                  (String "." ((Number.zeros j ++ String c t) ++ rest))
                  eq_refl ltac:(discriminate)
                  ltac:(right; reflexivity) eq_refl)
               (parse_fraction_digits _ _ rest Hall Hne Hnd)
               (parse_exponent_none rest Hexp)).
    rewrite digits_value_app by apply all_digits_zeros.
    rewrite digits_value_zeros. change (digits_value "0" 0) with 0%Z.
    rewrite Z.mul_0_l, Hval.
    same_exponent ltac:(rewrite length_append, length_zeros; unfold k, j; lia). }
  (* the exponent form *)
  set (E := (if (n - 1 <? 0)%Z then "e-" else "e+") ++ Number.decimal (Z.abs (n - 1))).
  assert (Hpe : parse_exponent (E ++ rest) = Some ((n - 1)%Z, rest)).
  { unfold E. rewrite append_assoc. exact (parse_exponent_digits (n - 1) rest Hnd). }
  destruct (exponent_head (n - 1) rest) as (tail & Etail). fold E in Etail.
  assert (Hahead : no_digit_ahead (E ++ rest) = true) by (rewrite Etail; reflexivity).
  assert (Hnodot : starts_with "." (E ++ rest) = None) by (rewrite Etail; reflexivity).
  assert (Hc1 : all_digits (String c EmptyString) = true)
    by (simpl; rewrite Hc; reflexivity).
  assert (Hint : forall r, no_digit_ahead r = true ->
                   parse_integer (String c EmptyString ++ r)
                   = Some (digits_value (String c EmptyString) 0, r)).
  { intros r Hr. apply parse_integer_digits;
      [exact Hc1 | discriminate | right; reflexivity | exact Hr]. }
  destruct t as [|c' t'].
  - change (String c E ++ rest) with (String c EmptyString ++ (E ++ rest)).
    rewrite (parse_number_parts negative (String c EmptyString ++ (E ++ rest))
               _ _ _ _ _ _ _
               ltac:(eexists c, _, d; split; [reflexivity | exact Hc])
               (Hint _ Hahead) (parse_fraction_none _ _ Hnodot) Hpe).
    rewrite Hval. same_exponent ltac:(unfold k; simpl String.length; lia).
  - change (String c ("." ++ String c' t' ++ E) ++ rest)
      with (String c EmptyString ++ String "." ((String c' t' ++ E) ++ rest)).
    rewrite (append_assoc (String c' t')).
    assert (Ht : all_digits (String c' t') = true)
      by (simpl in Hda; rewrite Hc in Hda; exact Hda).
    rewrite (parse_number_parts negative
               (String c EmptyString ++ String "." (String c' t' ++ E ++ rest))
               _ _ _ _ _ _ _
               ltac:(eexists c, _, d; split; [reflexivity | exact Hc])
               (Hint (String "." (String c' t' ++ E ++ rest)) eq_refl)
               (parse_fraction_digits _ (String c' t') _ Ht ltac:(discriminate) Hahead)
               Hpe).
    rewrite <- (digits_value_app (String c EmptyString) (String c' t') 0 Hc1).
    change (String c EmptyString ++ String c' t') with (String c (String c' t')).
    rewrite Hval. same_exponent ltac:(unfold k; simpl String.length; lia).
Qed.


(** *** Strings *)

Lemma hex_value_digit (d : N) : (d < 16)%N -> hex_value (hex_digit d) = Some d.
Proof.
  intros Hd.
  assert (H : (d = 0 \/ d = 1 \/ d = 2 \/ d = 3 \/ d = 4 \/ d = 5 \/ d = 6 \/ d = 7 \/
               d = 8 \/ d = 9 \/ d = 10 \/ d = 11 \/ d = 12 \/ d = 13 \/ d = 14 \/
               d = 15)%N) by lia.
  repeat (destruct H as [->|H]; [vm_compute; reflexivity|]). subst d.
  vm_compute. reflexivity.
Qed.

Lemma hex4_escape (n : N) :
  (n < 65536)%N ->
  hex4 (hex_digit (n / 4096)) (hex_digit (n / 256 mod 16))
       (hex_digit (n / 16 mod 16)) (hex_digit (n mod 16)) = Some n.
Proof.
  intros Hn. unfold hex4.
  rewrite !hex_value_digit;
    try (apply N.mod_lt; lia); try (apply N.Div0.div_lt_upper_bound; lia).
  f_equal.
  pose proof (N.div_mod n 16 ltac:(lia)) as H1.
  pose proof (N.div_mod (n / 16) 16 ltac:(lia)) as H2.
  pose proof (N.div_mod (n / 256) 16 ltac:(lia)) as H3.
  rewrite N.Div0.div_div in H2, H3. change (16 * 16)%N with 256%N in H2.
  change (256 * 16)%N with 4096%N in H3.
  lia.
Qed.

Lemma unit_eqb_code (a b : code_unit) :
  String.code a <> String.code b -> String.unit_eqb a b = false.
Proof. intros H. apply unit_eqb_neq. congruence. Qed.

(** Reading a code unit that stands for itself. *)
Lemma parse_string_body_literal (c : code_unit) (tail : string) :
  String.unit_eqb c dquote = false -> String.unit_eqb c backslash = false ->
  (String.code c <? 32)%N = false ->
  parse_string_body (String c tail) = cons_char c (parse_string_body tail).
Proof.
  intros H1 H2 H3. cbn [parse_string_body]. rewrite H1, H2, H3. reflexivity.
Qed.

Lemma parse_string_body_escape (n : N) (tail : string) :
  (n < 65536)%N ->
  parse_string_body (unicode_escape n ++ tail)
  = cons_char (String.of_code n) (parse_string_body tail).
Proof.
  intros Hn. unfold unicode_escape. rewrite !append_cons, append_empty_l.
  cbn [parse_string_body].
  change (String.unit_eqb backslash dquote) with false.
  change (String.unit_eqb backslash backslash) with true.
  change (String.unit_eqb "u" "u") with true. cbv iota.
  rewrite (hex4_escape n Hn). reflexivity.
Qed.

(** Reading back one quoted code unit. *)
Lemma parse_quote_char (c : code_unit) (tail : string) :
  parse_string_body (quote_char c ++ tail) = cons_char c (parse_string_body tail).
Proof.
  unfold quote_char.
  destruct (String.unit_eqb c dquote) eqn:H1.
  { apply unit_eqb_eq in H1. subst c. reflexivity. }
  destruct (String.unit_eqb c backslash) eqn:H2.
  { apply unit_eqb_eq in H2. subst c. reflexivity. }
  destruct (N.eqb_spec (String.code c) 8) as [E|_].
  { rewrite <- (of_code_code c), E. reflexivity. }
  destruct (N.eqb_spec (String.code c) 9) as [E|_].
  { rewrite <- (of_code_code c), E. reflexivity. }
  destruct (N.eqb_spec (String.code c) 10) as [E|_].
  { rewrite <- (of_code_code c), E. reflexivity. }
  destruct (N.eqb_spec (String.code c) 12) as [E|_].
  { rewrite <- (of_code_code c), E. reflexivity. }
  destruct (N.eqb_spec (String.code c) 13) as [E|_].
  { rewrite <- (of_code_code c), E. reflexivity. }
  destruct ((String.code c <? 32)%N || leading_surrogate c || trailing_surrogate c)
    eqn:H3.
  - rewrite (parse_string_body_escape _ tail (code_bound c)), of_code_code.
    reflexivity.
  - apply orb_false_iff in H3 as [H3 _]. apply orb_false_iff in H3 as [H3 _].
    rewrite append_cons, append_empty_l.
    apply parse_string_body_literal; assumption.
Qed.

Lemma surrogate_literal (c : code_unit) (tail : string) :
  leading_surrogate c || trailing_surrogate c = true ->
  parse_string_body (String c tail) = cons_char c (parse_string_body tail).
Proof.
  intros H.
  assert (Hc : (55296 <= String.code c)%N).
  { unfold leading_surrogate, trailing_surrogate in H.
    apply orb_true_iff in H as [H|H]; apply andb_true_iff in H as [H _];
      apply N.leb_le in H; lia. }
  apply parse_string_body_literal.
  - apply unit_eqb_code. change (String.code dquote) with 34%N. lia.
  - apply unit_eqb_code. change (String.code backslash) with 92%N. lia.
  - apply N.ltb_ge. lia.
Qed.

Lemma quote_body_step (c : code_unit) (s : string) :
  quote_body (String c s) = quote_char c ++ quote_body s \/
  exists d s', s = String d s' /\
    leading_surrogate c = true /\ trailing_surrogate d = true /\
    quote_body (String c s) = String c (String d (quote_body s')).
Proof.
  destruct s as [|d s']; [left; reflexivity|].
  cbn [quote_body].
  destruct (leading_surrogate c) eqn:Hc; [|left; reflexivity].
  destruct (trailing_surrogate d) eqn:Hd; [|left; reflexivity].
  right. exists d, s'. auto.
Qed.

Lemma parse_quote_body_bounded (n : nat) (s rest : string) :
  String.length s <= n ->
  parse_string_body (quote_body s ++ String dquote rest) = Some (s, rest).
Proof.
  revert s. induction n as [|n IH]; intros s Hn.
  - destruct s; [reflexivity | simpl in Hn; lia].
  - destruct s as [|c s]; [reflexivity|].
    simpl in Hn.
    destruct (quote_body_step c s) as [E | (d & s' & -> & Hc & Hd & E)]; rewrite E.
    + rewrite append_assoc, parse_quote_char, IH by lia. reflexivity.
    + rewrite !append_cons.
      rewrite surrogate_literal by (rewrite Hc; reflexivity).
      rewrite surrogate_literal by (rewrite Hd; apply orb_true_r).
      simpl in Hn. rewrite IH by lia. reflexivity.
Qed.

Lemma parse_quote_body (s rest : string) :
  parse_string_body (quote_body s ++ String dquote rest) = Some (s, rest).
Proof. apply (parse_quote_body_bounded (String.length s)). lia. Qed.


(** *** Numbers *)

(** The text of a finite number reads back as the number, zero for the
    negative zero. *)
Lemma parse_number_toString (x : number) (rest : string) :
  finite_number x = true -> number_end rest = true ->
  parse_number (Number.toString x ++ rest)
  = Some (VNum (if negative_zero x then S754_zero false else x), rest).
Proof.
  intros Hx Hend. destruct (number_end_spec rest Hend) as (Hnd & Hdot & Hexp).
  destruct x as [sign|sign| |sign m e]; try discriminate Hx.
  - change (Number.toString (S754_zero sign) ++ rest) with (EmptyString ++ "0" ++ rest).
    rewrite (parse_number_parts false ("0" ++ rest) _ _ _ _ _ _ _
               ltac:(eexists "0"%cu, _, 0%Z; split; reflexivity)
               (parse_integer_digits "0" rest eq_refl ltac:(discriminate)
                  ltac:(right; reflexivity) Hnd)
               (parse_fraction_none _ rest Hdot)
               (parse_exponent_none rest Hexp)).
    destruct sign; reflexivity.
  - unfold finite_number in Hx. simpl in Hx.
    pose proof (NumberFacts.shortest_reads_back m e Hx) as Hshort.
    cbn [Number.toString negative_zero].
    destruct (Number.shortest m e) as [s p]. destruct Hshort as [Hs Hread].
    rewrite append_assoc, (parse_number_format sign s _ rest Hs Hend).
    replace (p + Z.of_nat (String.length (Number.decimal s))
             - Z.of_nat (String.length (Number.decimal s)))%Z with p by lia.
    rewrite (NumberFacts.of_decimal_sign sign s p m e Hread). reflexivity.
Qed.

Lemma digit_opens_value (c : code_unit) (d : Z) :
  digit_value c = Some d -> opens_value c = true.
Proof.
  unfold digit_value, opens_value, is_ws. intros H.
  destruct ((48 <=? String.code c)%N && (String.code c <=? 57)%N) eqn:E;
    [|discriminate].
  apply andb_true_iff in E as [E1 E2]. apply N.leb_le in E1, E2.
  rewrite (unit_eqb_code "]" c) by (change (String.code "]") with 93%N; lia).
  repeat match goal with
         | |- context [(?a =? ?b)%N] => destruct (N.eqb_spec a b); [lia|]
         end.
  reflexivity.
Qed.

Lemma opens_number_value (c : code_unit) : opens_number c = true -> opens_value c = true.
Proof.
  unfold opens_number. intros H. apply orb_true_iff in H as [H|H].
  - apply unit_eqb_eq in H. subst c. reflexivity.
  - destruct (digit_value c) as [d|] eqn:E; [|discriminate].
    exact (digit_opens_value c d E).
Qed.

Lemma parse_value_number (fuel : nat) (c : code_unit) (r : string) :
  opens_number c = true ->
  parse_value (S fuel) (String c r) = parse_number (String c r).
Proof.
  intros H. pose proof (opens_number_value c H) as Hv.
  unfold opens_value in Hv. apply andb_true_iff in Hv as [Hws _].
  apply negb_true_iff in Hws.
  cbn [parse_value skip_ws]. rewrite Hws.
  repeat match goal with
         | |- context [String.unit_eqb c ?x] =>
             let E := fresh "E" in
             destruct (String.unit_eqb c x) eqn:E;
             [apply unit_eqb_eq in E; subst c; discriminate H | clear E]
         end.
  reflexivity.
Qed.

Lemma format_head (c : code_unit) (t : string) (d n : Z) :
  digit_value c = Some d ->
  exists c' t' d', Number.format (String c t) n = String c' t' /\
                   digit_value c' = Some d'.
Proof.
  intros Hc. unfold Number.format.
  destruct ((Z.of_nat (String.length (String c t)) <=? n)%Z && (n <=? 21)%Z);
    [exists c; eexists _, d; split; [reflexivity | exact Hc]|].
  destruct ((0 <? n)%Z && (n <=? 21)%Z) eqn:Cb.
  { apply andb_true_iff in Cb as [Cb _]. apply Z.ltb_lt in Cb.
    destruct (Z.to_nat n) eqn:E; [lia|].
    exists c. eexists _, d. split; [reflexivity | exact Hc]. }
  destruct ((-6 <? n)%Z && (n <=? 0)%Z);
    [eexists "0"%cu, _, 0%Z; split; reflexivity|].
  destruct t; exists c; eexists _, d; (split; [reflexivity | exact Hc]).
Qed.

Lemma toString_head (x : number) :
  Number.finite x = true ->
  exists c t, Number.toString x = String c t /\ opens_number c = true.
Proof.
  intros Hx. destruct x as [sign|sign| |sign m e]; try discriminate Hx.
  - eexists _, _. split; reflexivity.
  - cbn [Number.toString]. destruct (Number.shortest m e) as [s p].
    destruct (decimal_head s) as (c & t & E & (d & Hc) & _). rewrite E.
    destruct (format_head c t d (p + Z.of_nat (String.length (String c t))) Hc)
      as (c' & t' & d' & E' & Hc').
    rewrite E'. destruct sign.
    + eexists _, _. split; reflexivity.
    + exists c', t'. split; [reflexivity|]. unfold opens_number. rewrite Hc'.
      apply orb_true_r.
Qed.

(** *** Values *)

(** Every serialized value starts with a character that opens a value. *)
Lemma stringify_head (v : Value) (t : string) :
  stringify v = Some t ->
  exists c t', t = String c t' /\ opens_value c = true.
Proof.
  destruct v as [| |[]|x|s|xs|fs]; simpl; intros H; try discriminate H;
    injection H as <-; try (eexists _, _; split; reflexivity).
  destruct (Number.finite x) eqn:Hx; [|eexists _, _; split; reflexivity].
  destruct (toString_head x Hx) as (c & t' & -> & Hc).
  exists c, t'. split; [reflexivity | exact (opens_number_value c Hc)].
Qed.

Lemma element_head (x : Value) :
  exists c t', element x = String c t' /\ opens_value c = true.
Proof.
  unfold element. destruct (stringify x) as [t|] eqn:E.
  - exact (stringify_head x t E).
  - eexists _, _. split; reflexivity.
Qed.

Lemma representable_stringify (v : Value) :
  representable v = true -> stringify v = Some (element v).
Proof.
  unfold element. destruct v as [| |[]|n|s|xs|fs]; intros H; try discriminate H; reflexivity.
Qed.

Lemma serializable_representable (v : Value) :
  serializable v = true -> representable v = true.
Proof.
  induction v as [| | |x| |xs IH|fs IH] using value_ind_nested; simpl; intros H;
    try assumption.
  - apply andb_true_iff in H as [H _]. exact H.
  - induction IH as [|y ys Hy _ IHys]; [reflexivity|].
    simpl in *. apply andb_true_iff in H as [H1 H2].
    rewrite (Hy H1), (IHys H2). reflexivity.
  - apply andb_true_iff in H as [Hk H]. rewrite Hk. simpl.
    clear Hk. induction IH as [|[k y] ys Hy _ IHys]; [reflexivity|].
    simpl in *. apply andb_true_iff in H as [H1 H2].
    rewrite (Hy H1), (IHys H2). reflexivity.
Qed.

Lemma serializable_stringify (v : Value) :
  serializable v = true -> stringify v = Some (element v).
Proof. intros H. apply representable_stringify, serializable_representable, H. Qed.

(** A value with no negative zero reads back as itself. *)
Lemma read_back_serializable (v : Value) :
  serializable v = true -> read_back v = v.
Proof.
  induction v as [| | |x| |xs IH|fs IH] using value_ind_nested; simpl; intros H;
    try reflexivity.
  - apply andb_true_iff in H as [_ H]. apply negb_true_iff in H. rewrite H. reflexivity.
  - f_equal. induction IH as [|y ys Hy _ IHys]; [reflexivity|].
    simpl in *. apply andb_true_iff in H as [H1 H2].
    rewrite (Hy H1), (IHys H2). reflexivity.
  - f_equal. apply andb_true_iff in H as [_ H].
    induction IH as [|[k y] ys Hy _ IHys]; [reflexivity|].
    simpl in *. apply andb_true_iff in H as [H1 H2].
    rewrite (Hy H1), (IHys H2). reflexivity.
Qed.

Lemma skip_ws_opens (c : code_unit) (r : string) :
  opens_value c = true -> skip_ws (String c r) = String c r.
Proof.
  unfold opens_value. intros H. apply andb_true_iff in H as [H _].
  apply negb_true_iff in H.
  change (skip_ws (String c r)) with (if is_ws c then skip_ws r else String c r).
  rewrite H. reflexivity.
Qed.

Lemma not_bracket_opens (c : code_unit) (r : string) :
  opens_value c = true -> starts_with "]" (String c r) = None.
Proof.
  unfold opens_value. intros H. apply andb_true_iff in H as [_ H].
  apply negb_true_iff in H. unfold starts_with. rewrite H. reflexivity.
Qed.

Lemma join_comma_cons (t : string) (ts : list string) :
  join_comma (t :: ts) =
  match ts with
  | [] => t
  | _ :: _ => t ++ "," ++ join_comma ts
  end.
Proof. destruct ts; reflexivity. Qed.

Lemma parse_elements_step (fuel : nat) (x : Value) (tail : string) :
  reads_back x -> representable x = true -> fuel_of x <= fuel ->
  number_end tail = true ->
  parse_elements (S fuel) (element x ++ tail) =
  match starts_with "," (skip_ws tail) with
  | Some r' =>
      match parse_elements fuel r' with
      | Some (vs, r'') => Some (read_back x :: vs, r'')
      | None => None
      end
  | None =>
      match starts_with "]" (skip_ws tail) with
      | Some r' => Some ([read_back x], r')
      | None => None
      end
  end.
Proof.
  intros Hx Hs Hf Hend. cbn [parse_elements].
  rewrite (Hx fuel tail Hs Hf Hend). reflexivity.
Qed.

Lemma parse_elements_join (xs : list Value) :
  Forall reads_back xs ->
  forall fuel rest,
    xs <> [] -> forallb representable xs = true ->
    list_sum (List.map (fun x => S (fuel_of x)) xs) <= fuel ->
    parse_elements fuel (join_comma (List.map element xs) ++ String "]" rest)
    = Some (List.map read_back xs, rest).
Proof.
  induction 1 as [|x xs Hx Hxs IH]; intros fuel rest Hne Hser Hfuel;
    [contradiction|].
  simpl in Hser. apply andb_true_iff in Hser as [Hsx Hsxs].
  simpl in Hfuel. destruct fuel as [|fuel]; [lia|].
  change (List.map element (x :: xs)) with (element x :: List.map element xs).
  rewrite join_comma_cons. destruct xs as [|y ys].
  - simpl List.map. cbv iota.
    rewrite parse_elements_step by (try assumption; try reflexivity; lia).
    reflexivity.
  - change (List.map element (y :: ys)) with (element y :: List.map element ys).
    cbv iota. rewrite !append_assoc.
    rewrite parse_elements_step by (try assumption; try reflexivity; lia).
    change (String "," EmptyString ++ ?a) with (String "," a).
    change (skip_ws (String "," ?a)) with (String "," a).
    change (starts_with "," (String "," ?a)) with (Some a).
    cbv iota.
    change (element y :: List.map element ys) with (List.map element (y :: ys)).
    rewrite IH; [reflexivity | discriminate | exact Hsxs | lia].
Qed.

Lemma members_text (fs : list (string * Value)) :
  forallb (fun kv => representable (snd kv)) fs = true ->
  List.flat_map
    (fun kv => match member_text (fst kv) (stringify (snd kv)) with
               | Some t => [t]
               | None => []
               end) fs
  = List.map member fs.
Proof.
  induction fs as [|[k v] fs IH]; intros H; [reflexivity|].
  simpl in H. apply andb_true_iff in H as [Hv Hfs].
  simpl. rewrite (representable_stringify v Hv), (IH Hfs). reflexivity.
Qed.

Lemma parse_members_step (fuel : nat) (k : string) (v : Value) (tail : string) :
  reads_back v -> representable v = true -> fuel_of v <= fuel ->
  number_end tail = true ->
  parse_members (S fuel) (member (k, v) ++ tail) =
  match starts_with "," (skip_ws tail) with
  | Some r4 =>
      match parse_members fuel r4 with
      | Some (ms, r5) => Some ((k, read_back v) :: ms, r5)
      | None => None
      end
  | None =>
      match starts_with "}" (skip_ws tail) with
      | Some r4 => Some ([(k, read_back v)], r4)
      | None => None
      end
  end.
Proof.
  intros Hv Hs Hf Hend.
  unfold member, quote. simpl fst. simpl snd.
  rewrite !append_cons, !append_assoc, !append_cons, append_empty_l.
  cbn [parse_members].
  change (skip_ws (String dquote ?r)) with (String dquote r).
  change (starts_with dquote (String dquote ?r)) with (Some r). cbv iota.
  rewrite parse_quote_body.
  change (starts_with ":" (skip_ws (String ":" ?a))) with (Some a). cbv iota.
  rewrite ?append_empty_l, (Hv fuel tail Hs Hf Hend). reflexivity.
Qed.

Lemma parse_members_join (fs : list (string * Value)) :
  Forall (fun kv => reads_back (snd kv)) fs ->
  forall fuel rest,
    fs <> [] -> forallb (fun kv => representable (snd kv)) fs = true ->
    list_sum (List.map (fun kv => S (fuel_of (snd kv))) fs) <= fuel ->
    parse_members fuel (join_comma (List.map member fs) ++ String "}" rest)
    = Some (List.map (fun kv => (fst kv, read_back (snd kv))) fs, rest).
Proof.
  induction 1 as [|[k v] fs Hv Hfs IH]; intros fuel rest Hne Hser Hfuel;
    [contradiction|].
  simpl in Hser. apply andb_true_iff in Hser as [Hsv Hsfs].
  simpl in Hfuel, Hv. destruct fuel as [|fuel]; [lia|].
  change (List.map member ((k, v) :: fs)) with (member (k, v) :: List.map member fs).
  rewrite join_comma_cons. destruct fs as [|kv fs'].
  - simpl List.map. cbv iota.
    rewrite parse_members_step by (try assumption; try reflexivity; lia).
    reflexivity.
  - change (List.map member (kv :: fs')) with (member kv :: List.map member fs').
    cbv iota. rewrite !append_assoc.
    rewrite parse_members_step by (try assumption; try reflexivity; lia).
    change (String "," EmptyString ++ ?a) with (String "," a).
    change (skip_ws (String "," ?a)) with (String "," a).
    change (starts_with "," (String "," ?a)) with (Some a).
    cbv iota.
    change (member kv :: List.map member fs') with (List.map member (kv :: fs')).
    rewrite IH; [reflexivity | discriminate | exact Hsfs | lia].
Qed.

(** *** The order of the properties *)

(** Assigning a new property that goes before none of those there puts it
    last. *)
Lemma set_property_last (k : string) (v : Value) (fs : list (string * Value)) :
  existsb (String.eqb k) (List.map fst fs) = false ->
  forallb (fun k' => negb (precedes k k')) (List.map fst fs) = true ->
  set_property k v fs = (fs ++ [(k, v)])%list.
Proof.
  induction fs as [|[k' v'] fs IH]; intros H Hord; [reflexivity|].
  simpl in H. apply orb_false_iff in H as [Hk Hfs].
  simpl in Hord. apply andb_true_iff in Hord as [Hp Hord].
  apply negb_true_iff in Hp.
  simpl. rewrite Hk, Hp, (IH Hfs Hord). reflexivity.
Qed.

Lemma existsb_app_false (k : string) (a b : list string) :
  existsb (String.eqb k) (a ++ b)%list = false <->
  existsb (String.eqb k) a = false /\ existsb (String.eqb k) b = false.
Proof. rewrite existsb_app. apply orb_false_iff. Qed.

Lemma distinct_snoc (a : list string) (k : string) (b : list string) :
  distinct (a ++ k :: b)%list = true ->
  existsb (String.eqb k) a = false /\ distinct ((a ++ [k]) ++ b)%list = true.
Proof.
  induction a as [|x a IH]; simpl.
  - intros H. split; [reflexivity | exact H].
  - intros H. apply andb_true_iff in H as [Hx Ha]. apply negb_true_iff in Hx.
    apply existsb_app_false in Hx as [Hxa Hxkb]. simpl in Hxkb.
    apply orb_false_iff in Hxkb as [Hxk Hxb].
    destruct (IH Ha) as [Hka Hd]. split.
    + rewrite eqb_sym, Hxk. exact Hka.
    + rewrite Hd, andb_true_r. apply negb_true_iff.
      apply existsb_app_false. split; [|exact Hxb].
      apply existsb_app_false. split; [exact Hxa|]. simpl. rewrite Hxk. reflexivity.
Qed.

Lemma in_order_snoc (a : list string) (k : string) (b : list string) :
  in_order (a ++ k :: b)%list = true ->
  forallb (fun k' => negb (precedes k k')) a = true.
Proof.
  induction a as [|x a IH]; simpl; [reflexivity|].
  intros H. apply andb_true_iff in H as [Hx Ha].
  rewrite forallb_app in Hx. apply andb_true_iff in Hx as [_ Hx].
  simpl in Hx. apply andb_true_iff in Hx as [Hx _].
  rewrite Hx, (IH Ha). reflexivity.
Qed.

Lemma fold_set_property (ms acc : list (string * Value)) :
  distinct (List.map fst (acc ++ ms)%list) = true ->
  in_order (List.map fst (acc ++ ms)%list) = true ->
  fold_left (fun fs kv => set_property (fst kv) (snd kv) fs) ms acc = (acc ++ ms)%list.
Proof.
  revert acc. induction ms as [|[k v] ms IH]; intros acc H Hord.
  - simpl. rewrite app_nil_r. reflexivity.
  - simpl. rewrite List.map_app in H, Hord. simpl in H, Hord.
    pose proof (in_order_snoc _ _ _ Hord) as Hlast.
    apply distinct_snoc in H as [Hk Hd].
    rewrite set_property_last by assumption.
    rewrite IH.
    + rewrite <- app_assoc. reflexivity.
    + rewrite !List.map_app. simpl. exact Hd.
    + rewrite !List.map_app. simpl. rewrite <- app_assoc. exact Hord.
Qed.

Lemma object_of_ordered_members (ms : list (string * Value)) :
  distinct (List.map fst ms) = true -> in_order (List.map fst ms) = true ->
  object_of_members ms = ms.
Proof. intros H Hord. unfold object_of_members. rewrite fold_set_property; auto. Qed.

Lemma map_fst_read_back (fs : list (string * Value)) :
  List.map fst (List.map (fun kv => (fst kv, read_back (snd kv))) fs) = List.map fst fs.
Proof. induction fs as [|[k v] fs IH]; [reflexivity|]. simpl. rewrite IH. reflexivity. Qed.

(** *** Reading back *)

Lemma reads_back_number (x : number) : reads_back (VNum x).
Proof.
  intros fuel rest Hx Hfuel Hend. destruct fuel as [|fuel]; [simpl in Hfuel; lia|].
  simpl in Hx. unfold finite_number in Hx.
  pose proof Hx as Hx'. apply andb_true_iff in Hx' as [Hfin _].
  unfold element. cbn [stringify element_text]. rewrite Hfin.
  destruct (toString_head x Hfin) as (c & t & E & Hc).
  pose proof (parse_number_toString x rest Hx Hend) as Hn.
  rewrite E in *. rewrite append_cons in *.
  rewrite parse_value_number by exact Hc. exact Hn.
Qed.

Lemma reads_back_string (s : string) : reads_back (VStr s).
Proof.
  intros fuel rest _ Hfuel Hend. destruct fuel as [|fuel]; [simpl in Hfuel; lia|].
  change (element (VStr s)) with (String dquote (quote_body s ++ String dquote EmptyString)).
  rewrite append_cons, append_assoc, append_cons, append_empty_l.
  change (parse_value (S fuel) (String dquote ?r))
    with (match parse_string_body r with
          | Some (str, r') => Some (VStr str, r')
          | None => None
          end).
  rewrite parse_quote_body. reflexivity.
Qed.

Lemma reads_back_array (xs : list Value) :
  Forall reads_back xs -> reads_back (VArr xs).
Proof.
  intros Hxs fuel rest Hser Hfuel Hend.
  destruct fuel as [|fuel]; [simpl in Hfuel; lia|].
  simpl in Hser, Hfuel. apply le_S_n in Hfuel.
  change (element (VArr xs))
    with (String "[" (join_comma (List.map element xs) ++ "]")).
  rewrite append_cons, append_assoc. change ("]" ++ ?x) with (String "]" x).
  change (parse_value (S fuel) (String "[" ?r))
    with (match starts_with "]" (skip_ws r) with
          | Some r' => Some (VArr [], r')
          | None =>
              match parse_elements fuel r with
              | Some (xs, r') => Some (VArr xs, r')
              | None => None
              end
          end).
  destruct xs as [|x xs'] eqn:Exs; [reflexivity|].
  rewrite <- Exs in *.
  assert (Hhead : starts_with "]"
            (skip_ws (join_comma (List.map element xs) ++ String "]" rest)) = None).
  { rewrite Exs. change (List.map element (x :: xs')) with (element x :: List.map element xs').
    rewrite join_comma_cons. destruct (element_head x) as (c & t & E & Hc).
    destruct (List.map element xs'); rewrite E, ?append_cons;
      rewrite (skip_ws_opens c _ Hc); exact (not_bracket_opens c _ Hc). }
  rewrite Hhead.
  rewrite (parse_elements_join xs Hxs fuel rest); try assumption; [reflexivity|].
  rewrite Exs. discriminate.
Qed.

Lemma reads_back_object (fs : list (string * Value)) :
  Forall (fun kv => reads_back (snd kv)) fs -> reads_back (VObj fs).
Proof.
  intros Hfs fuel rest Hser Hfuel Hend.
  destruct fuel as [|fuel]; [simpl in Hfuel; lia|].
  simpl in Hser, Hfuel. apply le_S_n in Hfuel.
  apply andb_true_iff in Hser as [Hkeys Hser].
  apply andb_true_iff in Hkeys as [Hkeys Hord].
  unfold element. cbn [stringify element_text]. rewrite (members_text fs Hser).
  change ("{" ++ ?x) with (String "{" x). rewrite append_cons, append_assoc.
  change ("}" ++ ?x) with (String "}" x).
  change (parse_value (S fuel) (String "{" ?r))
    with (match starts_with "}" (skip_ws r) with
          | Some r' => Some (VObj [], r')
          | None =>
              match parse_members fuel r with
              | Some (ms, r') => Some (VObj (object_of_members ms), r')
              | None => None
              end
          end).
  destruct fs as [|[k v] fs'] eqn:Efs; [reflexivity|].
  rewrite <- Efs in *.
  assert (Hhead : starts_with "}"
            (skip_ws (join_comma (List.map member fs) ++ String "}" rest)) = None).
  { rewrite Efs.
    change (List.map member ((k, v) :: fs')) with (member (k, v) :: List.map member fs').
    rewrite join_comma_cons.
    destruct (List.map member fs'); unfold member, quote; simpl fst;
      rewrite ?append_cons; reflexivity. }
  rewrite Hhead.
  rewrite (parse_members_join fs Hfs fuel rest); try assumption.
  - rewrite object_of_ordered_members by (rewrite map_fst_read_back; assumption).
    reflexivity.
  - rewrite Efs. discriminate.
Qed.

(** The parser reads back the text of every representable value. *)
Lemma reads_back_all (v : Value) : reads_back v.
Proof.
  induction v using value_ind_nested.
  - intros fuel rest H. discriminate H.
  - intros [|fuel] rest _ Hfuel _; [simpl in Hfuel; lia | reflexivity].
  - intros [|fuel] rest _ Hfuel _; [simpl in Hfuel; lia | destruct b; reflexivity].
  - apply reads_back_number.
  - apply reads_back_string.
  - apply reads_back_array. assumption.
  - apply reads_back_object. assumption.
Qed.

(** *** Fuel *)

Lemma element_nonempty (x : Value) : 1 <= String.length (element x).
Proof. destruct (element_head x) as (c & t & -> & _). simpl. lia. Qed.

Lemma fuel_of_elements (xs : list Value) :
  Forall (fun x => fuel_of x <= String.length (element x)) xs ->
  list_sum (List.map (fun x => S (fuel_of x)) xs)
  <= String.length (join_comma (List.map element xs)) + 1.
Proof.
  induction 1 as [|x xs Hx Hxs IH]; [simpl; lia|].
  change (List.map element (x :: xs)) with (element x :: List.map element xs).
  rewrite join_comma_cons. simpl list_sum.
  destruct xs as [|y ys].
  - simpl. lia.
  - change (List.map element (y :: ys)) with (element y :: List.map element ys) in *.
    cbv iota. rewrite !length_append.
    change (String.length ",") with 1. simpl list_sum in *. lia.
Qed.

Lemma fuel_of_members (fs : list (string * Value)) :
  Forall (fun kv => fuel_of (snd kv) <= String.length (element (snd kv))) fs ->
  list_sum (List.map (fun kv => S (fuel_of (snd kv))) fs)
  <= String.length (join_comma (List.map member fs)) + 1.
Proof.
  induction 1 as [|[k v] fs Hv Hfs IH]; [simpl; lia|].
  change (List.map member ((k, v) :: fs)) with (member (k, v) :: List.map member fs).
  rewrite join_comma_cons. simpl list_sum. simpl in Hv.
  assert (Hm : fuel_of v + 1 <= String.length (member (k, v))).
  { unfold member, quote. simpl fst. simpl snd.
    rewrite append_cons. simpl String.length. rewrite !length_append. simpl. lia. }
  destruct fs as [|kv fs'].
  - change (List.map member []) with (@nil string). cbv iota. simpl list_sum. lia.
  - change (List.map member (kv :: fs')) with (member kv :: List.map member fs') in *.
    cbv iota. rewrite !length_append.
    change (String.length ",") with 1. simpl list_sum in *. lia.
Qed.

(** The text of a representable value is at least as long as the fuel its
    parsing needs. *)
Lemma fuel_of_length (v : Value) :
  representable v = true -> fuel_of v <= String.length (element v).
Proof.
  induction v as [| | | | |xs IH|fs IH] using value_ind_nested; intros Hser;
    try (simpl fuel_of; apply element_nonempty).
  - simpl in Hser.
    assert (Hall : Forall (fun x => fuel_of x <= String.length (element x)) xs).
    { rewrite Forall_forall in IH. apply Forall_forall. intros x Hin.
      apply IH; [exact Hin|]. rewrite forallb_forall in Hser. apply Hser.
      apply list_elem_of_In. exact Hin. }
    pose proof (fuel_of_elements xs Hall) as Hsum.
    change (element (VArr xs))
      with (String "[" (join_comma (List.map element xs) ++ "]")).
    cbn [String.length]. rewrite length_append. simpl. lia.
  - simpl in Hser. apply andb_true_iff in Hser as [_ Hser].
    assert (Hall : Forall (fun kv => fuel_of (snd kv) <= String.length (element (snd kv))) fs).
    { rewrite Forall_forall in IH. apply Forall_forall. intros kv Hin.
      apply IH; [exact Hin|]. rewrite forallb_forall in Hser. apply Hser.
      apply list_elem_of_In. exact Hin. }
    pose proof (fuel_of_members fs Hall) as Hsum.
    unfold element. cbn [stringify element_text]. rewrite (members_text fs Hser).
    change ("{" ++ ?x) with (String "{" x). cbn [String.length].
    rewrite length_append. simpl. lia.
Qed.

(** [JSON.parse(JSON.stringify(v))] is [v], with zero for every negative
    zero, for every representable [v]. *)
Theorem parse_stringify_representable (v : Value) (t : string) :
  representable v = true -> stringify v = Some t -> parse t = Some (read_back v).
Proof.
  intros Hser Ht. rewrite (representable_stringify v Hser) in Ht. injection Ht as <-.
  unfold parse.
  pose proof (reads_back_all v (S (String.length (element v))) EmptyString Hser) as H.
  rewrite append_empty_r in H. rewrite H; [reflexivity | | reflexivity].
  pose proof (fuel_of_length v Hser). lia.
Qed.

(** [JSON.parse(JSON.stringify(v))] is [v] for every serializable [v]. *)
Theorem parse_stringify (v : Value) (t : string) :
  serializable v = true -> stringify v = Some t -> parse t = Some v.
Proof.
  intros Hser Ht.
  rewrite (parse_stringify_representable v t (serializable_representable v Hser) Ht).
  rewrite (read_back_serializable v Hser). reflexivity.
Qed.

(** A serialized value is never the empty text. *)
Lemma stringify_nonempty (v : Value) : stringify v <> Some EmptyString.
Proof.
  intros H. destruct (stringify_head v _ H) as (c & t & E & _). discriminate E.
Qed.

(** *** What reads back *)

(** What reads back is deeply equal to the value. *)
Lemma deep_equal_read_back (v : Value) :
  representable v = true -> deep_equal (read_back v) v = true.
Proof.
  induction v as [| |b|x|s|xs IH|fs IH] using value_ind_nested; simpl; intros H;
    try reflexivity; try discriminate H.
  - destruct b; reflexivity.
  - unfold finite_number in H. apply andb_true_iff in H as [H _].
    destruct (negative_zero x) eqn:Hz.
    + destruct x as [[]| | |]; try discriminate Hz. reflexivity.
    + apply NumberFacts.equal_refl. exact H.
  - apply eqb_refl.
  - induction IH as [|y ys Hy _ IHys]; [reflexivity|].
    simpl in *. apply andb_true_iff in H as [H1 H2].
    rewrite (Hy H1). exact (IHys H2).
  - apply andb_true_iff in H as [_ H].
    induction IH as [|[k y] ys Hy _ IHys]; [reflexivity|].
    simpl in *. apply andb_true_iff in H as [H1 H2].
    rewrite eqb_refl, (Hy H1). exact (IHys H2).
Qed.

(** What reads back has the text of the value. *)
Lemma stringify_read_back (v : Value) : stringify (read_back v) = stringify v.
Proof.
  induction v as [| |b|x|s|xs IH|fs IH] using value_ind_nested; try reflexivity.
  - destruct x as [[]| | |]; reflexivity.
  - cbn [read_back stringify].
    assert (E : List.map (fun x => element_text (stringify x)) (List.map read_back xs)
                = List.map (fun x => element_text (stringify x)) xs).
    { induction IH as [|y ys Hy _ IHys]; [reflexivity|].
      simpl. rewrite Hy, IHys. reflexivity. }
    rewrite E. reflexivity.
  - cbn [read_back stringify].
    assert (E : List.flat_map
                  (fun kv => match member_text (fst kv) (stringify (snd kv)) with
                             | Some t => [t]
                             | None => []
                             end)
                  (List.map (fun kv => (fst kv, read_back (snd kv))) fs)
                = List.flat_map
                    (fun kv => match member_text (fst kv) (stringify (snd kv)) with
                               | Some t => [t]
                               | None => []
                               end) fs).
    { induction IH as [|[k y] ys Hy _ IHys]; [reflexivity|].
      simpl in *. rewrite Hy, IHys. reflexivity. }
    rewrite E. reflexivity.
Qed.

End JSONFacts.

(** * Facts about the hooks *)

(** Unfolds the computations down to the world they act on. *)
Ltac run :=
  unfold bind, try_catch, ret, throw, window_defined, localStorage_getItem,
    localStorage_setItem, localStorage_removeItem, console_error, JSON_parse,
    setValue, dispatchEvent in *;
  simpl in *.

(** ** [setLocalStorage] and [setStoredValue] on a working storage area *)

(** The world after a write of [storageValue] under [key] went through:
    the item is stored, the event is recorded, the listeners have run. *)
Lemma setLocalStorage_works (key : string) (v : Value) (w : World) :
  storage_works w ->
  setLocalStorage key v w =
  (Returned tt,
   let e := {| ev_key := Some key; ev_newValue := storageValue_of v;
               ev_oldValue := Some (DOMString (storageValue_of v));
               ev_storageArea := LocalStorage |} in
   {| has_window := true; storage_fault := NoFault;
      items := <[key := DOMString (storageValue_of v)]> (items w);
      cells := (fun c => if cell_listening c then handleStorageChange e c else c)
                 <$> cells w;
      dispatched := dispatched w ++ [e]; console := console w |}).
Proof.
  intros [Hwin Hfault]. destruct w as [win fault stored cs es log].
  simpl in Hwin, Hfault. subst win fault.
  unfold setLocalStorage. run. rewrite lookup_insert_eq. reflexivity.
Qed.

Lemma setLocalStorage_items (key : string) (v : Value) (w : World) :
  storage_works w ->
  let w' := snd (setLocalStorage key v w) in
  storage_works w' /\ items w' !! key = Some (DOMString (storageValue_of v)).
Proof.
  intros Hw. rewrite (setLocalStorage_works key v w Hw). simpl.
  split; [split; reflexivity | apply lookup_insert_eq].
Qed.

(** ** [getLocalStorage] *)

Lemma coalesce_null_r (v : Value) : (v ?? VNull) ?? VNull = v ?? VNull.
Proof. destruct v; reflexivity. Qed.

(** The chain of [??] is the fallback as the words describe it. *)
Lemma fallback_in_words_eq (key : string) (d : Value) (configs : option (list Config)) :
  d ?? getDefaultFromConfigs key configs ?? VNull = fallback_in_words key d configs.
Proof.
  unfold fallback_in_words, getDefaultFromConfigs, coalesce.
  destruct (nullish d) eqn:Hd; simpl.
  - destruct configs as [entries|]; [|reflexivity].
    destruct (find _ entries) as [entry|]; [|reflexivity].
    destruct (nullish (cfg_defaultValue entry)); reflexivity.
  - rewrite Hd. reflexivity.
Qed.

(** [getLocalStorage] reads without changing the world, and its result is one
    of two: the decoded item, or the fallback with [isNull]. *)
Lemma getLocalStorage_cases (key : string) (d : Value)
    (configs : option (list Config)) (w : World) :
  getLocalStorage key d configs w =
  (Returned
     (let fallback :=
        {| value := d ?? getDefaultFromConfigs key configs ?? VNull; isNull := true |} in
      if has_window w then
        match storage_fault w with
        | AccessDenied => fallback
        | _ =>
            match items w !! key with
            | None => fallback
            | Some item =>
                if typeof_string d then {| value := VStr item; isNull := false |}
                else match JSON.parse item with
                     | Some parsed => {| value := parsed; isNull := false |}
                     | None => fallback
                     end
            end
        end
      else fallback), w).
Proof.
  destruct w as [win fault stored cs es log]. unfold getLocalStorage. run.
  destruct win; [|reflexivity]. simpl.
  destruct fault; simpl; try reflexivity;
    destruct (stored !! key) as [item|]; simpl; try reflexivity;
    destruct (typeof_string d); simpl; try reflexivity;
    destruct (JSON.parse item); reflexivity.
Qed.

Lemma earlier_getLocalStorage_cases (key : string) (d : Value) (w : World) :
  Earlier.getLocalStorage key d w =
  (Returned
     (if has_window w then
        match storage_fault w with
        | AccessDenied => d ?? VNull
        | _ =>
            match items w !! key with
            | None => d ?? VNull
            | Some EmptyString => d ?? VNull
            | Some item =>
                if typeof_string d then VStr item
                else match JSON.parse item with
                     | Some parsed => parsed
                     | None => d ?? VNull
                     end
            end
        end
      else d ?? VNull), w).
Proof.
  destruct w as [win fault stored cs es log]. unfold Earlier.getLocalStorage. run.
  destruct win; [|reflexivity]. simpl.
  destruct fault; simpl; try reflexivity;
    destruct (stored !! key) as [[|c item]|]; simpl; try reflexivity;
    destruct (typeof_string d); simpl; try reflexivity;
    destruct (JSON.parse (String c item)); reflexivity.
Qed.

(** C10.  [getLocalStorage] never throws and always returns a record; its
    [isNull] is true exactly when no decodable item was obtained: there is no
    window, the storage access throws, the key is absent, or the default is
    not a string and the item does not parse.  Its [value] is then the supplied
    default, else the default of the matching entry of [configs], else [null]. *)
Theorem getLocalStorage_total (key : string) (d : Value)
    (configs : option (list Config)) (w : World) :
  exists r,
    getLocalStorage key d configs w = (Returned r, w) /\
    (isNull r = true <->
       has_window w = false \/ storage_fault w = AccessDenied \/
       items w !! key = None \/
       (typeof_string d = false /\
        exists item, items w !! key = Some item /\ JSON.parse item = None)) /\
    (isNull r = true -> value r = fallback_in_words key d configs).
Proof.
  rewrite getLocalStorage_cases, fallback_in_words_eq.
  eexists. split; [reflexivity|].
  destruct (has_window w); simpl; [|split; [split; auto | auto]].
  destruct (storage_fault w) eqn:Hf; simpl;
    try (split; [split; auto | auto]; fail);
    destruct (items w !! key) as [item|] eqn:Hi; simpl;
    try (split; [split; auto | auto]; fail);
    destruct (typeof_string d) eqn:Hs; simpl.
  all: try destruct (JSON.parse item) eqn:Hp; simpl.
  all: split; [split|]; try discriminate; try (intros _; reflexivity).
  all: try (intros [H|[H|[H|(H & item' & Hi' & Hp')]]]; congruence).
  all: intros _; right; right; right; split; [reflexivity|]; eauto.
Qed.

(** ** Writing, then reading *)

(** C3, as amended.  On a working storage area, after
    [setLocalStorage(k, t)] with a string [t], [getLocalStorage(k, d)] with a
    string default [d] returns [t] itself, with [isNull] false; the earlier
    [getLocalStorage] returns [t] when [t] is not empty, and [d] when [t] is
    the empty string. *)
Theorem get_after_set_string (key d t : string) (configs : option (list Config))
    (w : World) :
  storage_works w ->
  let w' := snd (setLocalStorage key (VStr t) w) in
  getLocalStorage key (VStr d) configs w'
  = (Returned {| value := VStr t; isNull := false |}, w') /\
  (t <> EmptyString ->
   Earlier.getLocalStorage key (VStr d) w' = (Returned (VStr t), w')) /\
  (t = EmptyString ->
   Earlier.getLocalStorage key (VStr d) w' = (Returned (VStr d), w')).
Proof.
  intros Hw w'. destruct (setLocalStorage_items key (VStr t) w Hw) as [[Hwin Hfault] Hitem].
  fold w' in Hwin, Hfault, Hitem. simpl in Hitem. split; [|split].
  - rewrite getLocalStorage_cases, Hwin, Hfault, Hitem. reflexivity.
  - intros Ht. rewrite earlier_getLocalStorage_cases, Hwin, Hfault, Hitem.
    destruct t; [contradiction | reflexivity].
  - intros Ht. rewrite earlier_getLocalStorage_cases, Hwin, Hfault, Hitem, Ht.
    reflexivity.
Qed.

(** The earlier [getLocalStorage] reads a stored empty string as the
    default: the claim C3 fails there. *)
Lemma earlier_get_after_set_empty :
  fst (Earlier.getLocalStorage "note" (VStr "draft")
         (snd (setLocalStorage "note" (VStr EmptyString) (browser ∅ "draft"))))
  = Returned (VStr "draft") /\
  VStr "draft" <> VStr EmptyString.
Proof. split; [vm_compute; reflexivity | discriminate]. Qed.

(** C4.  On a working storage area, after [setLocalStorage(k, v)] with a
    [v] that JSON text represents and that is not a string,
    [getLocalStorage(k, d)] with any default [d] that is not a string returns
    what the text of [v] reads back as, and so does the earlier
    [getLocalStorage]: a value deeply equal to [v], and [v] itself when [v]
    holds no negative zero. *)
Theorem get_after_set_json (key : string) (v d : Value)
    (configs : option (list Config)) (w : World) :
  storage_works w ->
  JSON.representable v = true -> typeof_string v = false ->
  typeof_string d = false ->
  let w' := snd (setLocalStorage key v w) in
  getLocalStorage key d configs w'
  = (Returned {| value := JSON.read_back v; isNull := false |}, w') /\
  Earlier.getLocalStorage key d w' = (Returned (JSON.read_back v), w') /\
  deep_equal (JSON.read_back v) v = true /\
  (JSON.serializable v = true -> JSON.read_back v = v).
Proof.
  intros Hw Hrep Hv Hd w'.
  destruct (setLocalStorage_items key v w Hw) as [[Hwin Hfault] Hitem].
  fold w' in Hwin, Hfault, Hitem.
  assert (Htext : storageValue_of v = JSON.stringify v)
    by (destruct v; try reflexivity; discriminate Hv).
  rewrite Htext, (JSONFacts.representable_stringify v Hrep) in Hitem. simpl in Hitem.
  pose proof (JSONFacts.parse_stringify_representable v _ Hrep
                (JSONFacts.representable_stringify v Hrep)) as Hparse.
  split; [|split; [|split]].
  - rewrite getLocalStorage_cases, Hwin, Hfault, Hitem, Hd, Hparse. reflexivity.
  - rewrite earlier_getLocalStorage_cases, Hwin, Hfault, Hitem.
    destruct (JSONFacts.element_head v) as (c & t' & E & _). rewrite E in *.
    rewrite Hd, Hparse. reflexivity.
  - exact (JSONFacts.deep_equal_read_back v Hrep).
  - exact (JSONFacts.read_back_serializable v).
Qed.

(** ** The two [getLocalStorage] compared *)

(** C9, as amended.  With no [configs], [getLocalStorage] and the earlier
    [getLocalStorage] both return, in every environment and for every
    default.  When the storage area can be read and holds the empty string
    under the key, and the default is a string, the [value] of the first is
    the empty string and the second returns the default.  The [value] of the
    first is what the second returns in every case but that one with a
    default other than the empty string. *)
Theorem getLocalStorage_agree (key : string) (d : Value) (w : World) :
  exists r v,
    getLocalStorage key d None w = (Returned r, w) /\
    Earlier.getLocalStorage key d w = (Returned v, w) /\
    (reads_empty_string key w -> typeof_string d = true ->
     value r = VStr EmptyString /\ v = d) /\
    (value r = v <->
     ~ (reads_empty_string key w /\ typeof_string d = true /\ d <> VStr EmptyString)).
Proof.
  rewrite getLocalStorage_cases, earlier_getLocalStorage_cases.
  eexists _, _. split; [reflexivity|]. split; [reflexivity|].
  change (getDefaultFromConfigs key None) with VNull. rewrite coalesce_null_r.
  unfold reads_empty_string. split.
  - intros (Hwin & Hfault & Hitem) Hd. rewrite Hwin, Hitem, Hd.
    assert (Hdd : d ?? VNull = d) by (destruct d; try discriminate Hd; reflexivity).
    rewrite Hdd. destruct (storage_fault w); [|contradiction|]; split; reflexivity.
  - destruct (has_window w);
      [|split; [intros _ (([=] & _) & _) | reflexivity]].
    destruct (storage_fault w) eqn:Hfault; simpl;
      try (split; [intros _ ((_ & Hf & _) & _); contradiction | reflexivity]);
      destruct (items w !! key) as [[|c item]|] eqn:Hitem; simpl;
      try (split; [intros _ ((_ & _ & [=]) & _) | reflexivity]; fail);
      try (destruct (typeof_string d); [|destruct (JSON.parse _)];
           (split; [intros _ ((_ & _ & [=]) & _) | reflexivity]); fail).
    all: destruct d as [| |b|n|s| |]; simpl;
      try (split; [intros _ (_ & [=] & _) | reflexivity]; fail).
    all: destruct s as [|c s].
    all: try (split; [intros _ (_ & _ & Hne); contradiction | reflexivity]; fail).
    all: split; [discriminate | intros Hno; exfalso; apply Hno].
    all: repeat split; discriminate.
Qed.

(** A stored empty string read with a string default: [getLocalStorage]
    returns it, the earlier one returns the default; the claim C9 fails. *)
Lemma getLocalStorage_disagree :
  fst (getLocalStorage "note" (VStr "draft") None
         (browser {[ "note" := EmptyString ]} "draft"))
  = Returned {| value := VStr EmptyString; isNull := false |} /\
  fst (Earlier.getLocalStorage "note" (VStr "draft")
         (browser {[ "note" := EmptyString ]} "draft"))
  = Returned (VStr "draft") /\
  VStr EmptyString <> VStr "draft".
Proof. repeat split; try (vm_compute; reflexivity). discriminate. Qed.

(** ** The cell *)

(** C5.  When the storage area holds the empty string under the key, the
    initializer returns the default, and the cell that [useLocalStorage]
    creates starts with the default. *)
Theorem initialValue_empty_string (key : string) (d : Value) (w : World) :
  items w !! key = Some EmptyString ->
  initialValue key d w = (Returned d, w) /\
  exists w',
    useLocalStorage key d w = (Returned (length (cells w), d), w') /\
    storedValue (length (cells w)) w' = Some d.
Proof.
  intros Hitem.
  assert (Hinit : initialValue key d w = (Returned d, w)).
  { destruct w as [win fault stored cs es log]. simpl in Hitem.
    unfold initialValue. run. destruct win; [|reflexivity]. simpl.
    destruct fault; simpl; rewrite ?Hitem; reflexivity. }
  split; [exact Hinit|].
  unfold useLocalStorage, bind. rewrite Hinit. eexists. split; [reflexivity|].
  unfold storedValue. simpl. rewrite lookup_app_r by reflexivity.
  rewrite Nat.sub_diag. reflexivity.
Qed.

(** The effect attaches the listener when there is a window. *)
Lemma subscribe_listens (i : nat) (this : Cell) (w : World) :
  cells w !! i = Some this -> has_window w = true ->
  cells (snd (subscribe i w)) !! i = Some (with_listening true this).
Proof.
  intros Hcell Hwin. destruct w as [win fault stored cs es log].
  simpl in Hcell, Hwin. subst win. unfold subscribe. run.
  rewrite list_lookup_alter_eq, Hcell. reflexivity.
Qed.

(** What a notification does to the cell in slot [i]. *)
Lemma dispatchEvent_cell (e : StorageEvent) (w : World) (i : nat) :
  cells (snd (dispatchEvent e w)) !! i =
  (fun c => if cell_listening c then handleStorageChange e c else c) <$> cells w !! i.
Proof. unfold dispatchEvent. simpl. apply list_lookup_fmap. Qed.

Lemma handleStorageChange_adopts (e : StorageEvent) (this : Cell) :
  ev_key e = Some (cell_key this) -> ev_storageArea e = LocalStorage ->
  handleStorageChange e this
  = with_value (adopted (cell_defaultValue this) (ev_newValue e)) this.
Proof.
  intros Hk Ha. unfold handleStorageChange, adopted. rewrite Hk, Ha, StringFacts.eqb_refl.
  destruct (ev_newValue e) as [[|c t]|]; simpl; try reflexivity.
  destruct (typeof_string (cell_defaultValue this)); [reflexivity|].
  destruct (JSON.parse (String c t)); reflexivity.
Qed.

(** C6, as amended.  A listening cell that receives a notification for its
    key from the local storage area adopts the default when the new text is
    absent or empty; otherwise the text itself under a string default, and
    under another default the parsed value, or the default when the text does
    not parse. *)
Theorem dispatchEvent_adopts (e : StorageEvent) (w : World) (i : nat) (this : Cell) :
  cells w !! i = Some this -> cell_listening this = true ->
  ev_key e = Some (cell_key this) -> ev_storageArea e = LocalStorage ->
  storedValue i (snd (dispatchEvent e w))
  = Some (match ev_newValue e with
          | None => cell_defaultValue this
          | Some EmptyString => cell_defaultValue this
          | Some text =>
              if typeof_string (cell_defaultValue this) then VStr text
              else match JSON.parse text with
                   | Some v => v
                   | None => cell_defaultValue this
                   end
          end).
Proof.
  intros Hcell Hlisten Hk Ha. unfold storedValue.
  rewrite dispatchEvent_cell, Hcell. simpl. rewrite Hlisten.
  rewrite (handleStorageChange_adopts e this Hk Ha). reflexivity.
Qed.

(** A notification whose new text is the empty string, received by a cell
    with a string default: the cell adopts the default, not the text; the
    claim C6 fails. *)
Lemma dispatchEvent_empty_text :
  storedValue 0
    (snd (dispatchEvent
            {| ev_key := Some "note"; ev_newValue := Some EmptyString;
               ev_oldValue := Some "old"; ev_storageArea := LocalStorage |}
            (browser {[ "note" := EmptyString ]} "old")))
  = Some (VStr "draft") /\
  VStr "draft" <> VStr EmptyString.
Proof. split; [vm_compute; reflexivity | discriminate]. Qed.

(** ** Writing through the cell *)

Lemma with_value_twice (u v : Value) (c : Cell) :
  with_value u (with_value v c) = with_value u c.
Proof. reflexivity. Qed.

(** The cell after [setStoredValue], in every world: when the write went
    through and the cell listens, its own notification has decided the
    value; otherwise the value is the one asked for. *)
Lemma setStoredValue_cell (i : nat) (this : Cell) (next : SetStateAction) (w : World) :
  cells w !! i = Some this ->
  cells (snd (setStoredValue i this next w)) !! i
  = Some
      (let v := resolve next (cell_value this) in
       if has_window w && cell_listening this then
         match storage_fault w with
         | NoFault =>
             with_value (adopted (cell_defaultValue this) (storageValue_of v)) this
         | _ => with_value v this
         end
       else with_value v this).
Proof.
  intros Hcell. destruct w as [win fault stored cs es log]. simpl in Hcell.
  unfold setStoredValue. fold (resolve next (cell_value this)).
  set (v := resolve next (cell_value this)). run.
  assert (Hset : alter (with_value v) i cs !! i = Some (with_value v this))
    by (rewrite list_lookup_alter_eq, Hcell; reflexivity).
  destruct win; simpl; [|exact Hset].
  destruct fault; simpl.
  - rewrite list_lookup_fmap, Hset. simpl.
    destruct (cell_listening this); [|reflexivity].
    rewrite handleStorageChange_adopts by reflexivity. reflexivity.
  - destruct (cell_listening this); exact Hset.
  - destruct (cell_listening this); exact Hset.
Qed.

(** A value that JSON text represents, stored through the codec of its own
    type, is read back by the listener as what its text reads back as, unless
    it is the empty string and the default is not. *)
Lemma adopted_read_back (d x : Value) :
  typeof_string x = typeof_string d -> JSON.representable x = true ->
  (x = VStr EmptyString -> d = VStr EmptyString) ->
  adopted d (storageValue_of x) = JSON.read_back x.
Proof.
  intros Htype Hrep Hne. destruct (typeof_string x) eqn:Hx.
  - destruct x as [| | | |s| |]; try discriminate Hx.
    destruct s as [|c s]; [rewrite (Hne eq_refl); reflexivity|].
    simpl. rewrite <- Htype. reflexivity.
  - assert (Htext : storageValue_of x = Some (JSON.element x)).
    { rewrite <- (JSONFacts.representable_stringify x Hrep).
      destruct x; try reflexivity; discriminate Hx. }
    pose proof (JSONFacts.parse_stringify_representable x _ Hrep
                  (JSONFacts.representable_stringify x Hrep)) as Hparse.
    rewrite Htext. destruct (JSONFacts.element_head x) as (c & t & E & _).
    rewrite E in *. unfold adopted. rewrite <- Htype, Hparse. reflexivity.
Qed.

Lemma adopted_own_text (d x : Value) :
  typeof_string x = typeof_string d -> JSON.serializable x = true ->
  (x = VStr EmptyString -> d = VStr EmptyString) ->
  adopted d (storageValue_of x) = x.
Proof.
  intros Htype Hser Hne.
  rewrite (adopted_read_back d x Htype (JSONFacts.serializable_representable x Hser) Hne).
  exact (JSONFacts.read_back_serializable x Hser).
Qed.

Lemma adopted_own_write (d x : Value) :
  typeof_string x = typeof_string d -> JSON.serializable x = true ->
  x <> VStr EmptyString ->
  adopted d (storageValue_of x) = x.
Proof.
  intros Htype Hser Hne. apply adopted_own_text; try assumption.
  intros E. contradiction.
Qed.

(** When the storage area refuses the write, [setStoredValue] throws. *)
Lemma setStoredValue_refused (i : nat) (this : Cell) (next : SetStateAction) (w : World) :
  has_window w = true -> storage_fault w <> NoFault ->
  exists e, fst (setStoredValue i this next w) = Thrown e.
Proof.
  intros Hwin Hfault. destruct w as [win fault stored cs es log].
  simpl in Hwin, Hfault. subst win. unfold setStoredValue. run.
  destruct fault; [contradiction | eexists; reflexivity ..].
Qed.

(** The local state then keeps the value asked for. *)
Lemma setStoredValue_refused_state (i : nat) (this : Cell) (next : SetStateAction)
    (w : World) :
  cells w !! i = Some this -> storage_fault w <> NoFault ->
  storedValue i (snd (setStoredValue i this next w))
  = Some (resolve next (cell_value this)).
Proof.
  intros Hcell Hfault. unfold storedValue.
  rewrite (setStoredValue_cell i this next w Hcell). simpl.
  destruct (has_window w && cell_listening this); [|reflexivity].
  destruct (storage_fault w); [contradiction | reflexivity ..].
Qed.

(** [setLocalStorage] returns in every world. *)
Lemma setLocalStorage_returns (key : string) (v : Value) (w : World) :
  fst (setLocalStorage key v w) = Returned tt.
Proof.
  destruct w as [win fault stored cs es log]. unfold setLocalStorage. run.
  destruct win; [|reflexivity]. destruct fault; reflexivity.
Qed.

(** C1 fails on the code.  With the storage area full, [setStoredValue]
    lets the exception of [setItem] out to its caller; the local state does
    keep the requested value.  [setLocalStorage], on the same world, catches
    the exception and reports it. *)
Theorem setStoredValue_lets_exception_out :
  fst (setStoredValue 0 (note_cell "old") (Literal (VStr "new")) (full_browser "old"))
  = Thrown QuotaExceededError /\
  storedValue 0
    (snd (setStoredValue 0 (note_cell "old") (Literal (VStr "new")) (full_browser "old")))
  = Some (VStr "new") /\
  fst (setLocalStorage "note" (VStr "new") (full_browser "old")) = Returned tt /\
  console (snd (setLocalStorage "note" (VStr "new") (full_browser "old")))
  = [QuotaExceededError].
Proof. repeat split; vm_compute; reflexivity. Qed.

(** ** The notifications *)

(** The notification of a write carries, as old text, the text just written. *)
Lemma setLocalStorage_event (key : string) (v : Value) (w : World) :
  storage_works w ->
  dispatched (snd (setLocalStorage key v w))
  = (dispatched w ++
    [{| ev_key := Some key; ev_newValue := storageValue_of v;
        ev_oldValue := Some (DOMString (storageValue_of v));
        ev_storageArea := LocalStorage |}])%list.
Proof. intros Hw. rewrite (setLocalStorage_works key v w Hw). reflexivity. Qed.

Lemma setStoredValue_event (i : nat) (this : Cell) (next : SetStateAction) (w : World) :
  storage_works w ->
  dispatched (snd (setStoredValue i this next w))
  = (dispatched w ++
    [{| ev_key := Some (cell_key this);
        ev_newValue := storageValue_of (resolve next (cell_value this));
        ev_oldValue := Some (DOMString (storageValue_of (resolve next (cell_value this))));
        ev_storageArea := LocalStorage |}])%list.
Proof.
  intros [Hwin Hfault]. destruct w as [win fault stored cs es log].
  simpl in Hwin, Hfault. subst win fault. unfold setStoredValue.
  fold (resolve next (cell_value this)). run. rewrite lookup_insert_eq. reflexivity.
Qed.

(** The notification of a removal carries the text that was stored. *)
Lemma remove_event (i : nat) (this : Cell) (w : World) :
  storage_works w ->
  dispatched (snd (remove i this w))
  = (dispatched w ++
    [{| ev_key := Some (cell_key this); ev_newValue := None;
        ev_oldValue := items w !! cell_key this;
        ev_storageArea := LocalStorage |}])%list.
Proof.
  intros [Hwin Hfault]. destruct w as [win fault stored cs es log].
  simpl in Hwin, Hfault. subst win fault. unfold remove. run. reflexivity.
Qed.

(** C2 fails on the code.  With [old] stored under the key, both writes
    publish a notification whose old text is the new text, [new]; only the
    removal publishes the text that was in place. *)
Theorem write_event_old_text_is_new_text :
  dispatched (snd (setLocalStorage "note" (VStr "new") (browser {[ "note" := "old" ]} "old")))
  = [{| ev_key := Some "note"; ev_newValue := Some "new";
        ev_oldValue := Some "new"; ev_storageArea := LocalStorage |}] /\
  dispatched
    (snd (setStoredValue 0 (note_cell "old") (Literal (VStr "new"))
            (browser {[ "note" := "old" ]} "old")))
  = [{| ev_key := Some "note"; ev_newValue := Some "new";
        ev_oldValue := Some "new"; ev_storageArea := LocalStorage |}] /\
  dispatched (snd (remove 0 (note_cell "old") (browser {[ "note" := "old" ]} "old")))
  = [{| ev_key := Some "note"; ev_newValue := None;
        ev_oldValue := Some "old"; ev_storageArea := LocalStorage |}].
Proof. repeat split; vm_compute; reflexivity. Qed.

(** ** Removing *)

(** The cell and the storage area after [remove], in every world. *)
Lemma remove_cell (i : nat) (this : Cell) (w : World) :
  cells w !! i = Some this ->
  cells (snd (remove i this w)) !! i = Some (with_value (cell_defaultValue this) this).
Proof.
  intros Hcell. destruct w as [win fault stored cs es log]. simpl in Hcell.
  unfold remove. run.
  assert (Hset : alter (with_value (cell_defaultValue this)) i cs !! i
                 = Some (with_value (cell_defaultValue this) this))
    by (rewrite list_lookup_alter_eq, Hcell; reflexivity).
  destruct win; simpl; [|exact Hset].
  destruct fault; simpl; try exact Hset.
  all: rewrite list_lookup_fmap, Hset; simpl;
    destruct (cell_listening this); [|reflexivity];
    rewrite handleStorageChange_adopts by reflexivity; reflexivity.
Qed.

Lemma remove_items (i : nat) (this : Cell) (w : World) :
  has_window w = true -> storage_fault w <> AccessDenied ->
  let w' := snd (remove i this w) in
  items w' = delete (cell_key this) (items w) /\
  has_window w' = true /\ storage_fault w' = storage_fault w.
Proof.
  intros Hwin Hfault. destruct w as [win fault stored cs es log].
  simpl in Hwin, Hfault. subst win. unfold remove. run.
  destruct fault; [| contradiction |]; simpl; auto.
Qed.

(** C8.  [remove()] called twice in a row: after each call the value of the
    cell is its default, and a storage area that can be reached holds no
    entry for the key. *)
Theorem remove_twice (i : nat) (this : Cell) (w : World) :
  cells w !! i = Some this ->
  let w1 := snd (remove i this w) in
  exists this1,
    cells w1 !! i = Some this1 /\
    cell_value this1 = cell_defaultValue this /\
    let w2 := snd (remove i this1 w1) in
    storedValue i w2 = Some (cell_defaultValue this) /\
    (has_window w = true -> storage_fault w <> AccessDenied ->
     items w1 !! cell_key this = None /\ items w2 !! cell_key this = None).
Proof.
  intros Hcell w1. exists (with_value (cell_defaultValue this) this).
  assert (Hcell1 : cells w1 !! i = Some (with_value (cell_defaultValue this) this))
    by exact (remove_cell i this w Hcell).
  split; [exact Hcell1|]. split; [reflexivity|]. intros w2. split.
  - unfold storedValue, w2. rewrite (remove_cell i _ w1 Hcell1). reflexivity.
  - intros Hwin Hfault.
    destruct (remove_items i this w Hwin Hfault) as (Hitems1 & Hwin1 & Hfault1).
    fold w1 in Hitems1, Hwin1, Hfault1.
    assert (Hfault1' : storage_fault w1 <> AccessDenied) by (rewrite Hfault1; exact Hfault).
    destruct (remove_items i (with_value (cell_defaultValue this) this) w1 Hwin1 Hfault1')
      as (Hitems2 & _ & _).
    fold w2 in Hitems2. simpl in Hitems2.
    rewrite Hitems2, Hitems1. split; rewrite ?lookup_delete_eq; reflexivity.
Qed.

(** ** The draft *)

Lemma hasChanges_iff (a b : Value) :
  hasChanges a b = true <-> JSON.stringify a <> JSON.stringify b.
Proof.
  unfold hasChanges.
  destruct (JSON.stringify a) as [s|], (JSON.stringify b) as [t|].
  - rewrite negb_true_iff, StringFacts.eqb_neq. split; congruence.
  - split; [discriminate | reflexivity].
  - split; [discriminate | reflexivity].
  - split; [discriminate | congruence].
Qed.

Lemma hasChanges_same (a : Value) : hasChanges a a = false.
Proof.
  destruct (hasChanges a a) eqn:E; [|reflexivity].
  apply hasChanges_iff in E. contradiction.
Qed.

Lemma Value_eqb_refl (v : Value) : Value_eqb v v = true.
Proof.
  induction v as [| |b|n|s|xs IH|fs IH] using value_ind_nested; simpl;
    try reflexivity.
  - apply Bool.eqb_reflx.
  - apply NumberFacts.number_eqb_refl.
  - apply StringFacts.eqb_refl.
  - induction IH as [|x xs Hx _ IHxs]; [reflexivity|]. rewrite Hx. exact IHxs.
  - induction IH as [|[k x] fs Hx _ IHfs]; [reflexivity|].
    simpl in Hx. rewrite StringFacts.eqb_refl, Hx. exact IHfs.
Qed.

(** The effect does not run when the stored value has not changed; a draft
    under edition then stays as it is. *)
Lemma syncDraft_unchanged (d : Draft) : syncDraft (syncedValue d) d = d.
Proof. unfold syncDraft. rewrite Value_eqb_refl. reflexivity. Qed.

(** Whether the effect runs or not, a draft equal to the stored value stays
    equal to it. *)
Lemma syncDraft_same (x : Value) (d : Draft) :
  draftValue d = x -> draftValue (syncDraft x d) = x.
Proof. intros H. unfold syncDraft. destruct (Value_eqb x (syncedValue d)); auto. Qed.

(** The committed value after [save()], in every world. *)
Lemma save_cell (i : nat) (this : Cell) (d : Draft) (w : World) :
  cells w !! i = Some this ->
  storedValue i (snd (save i this d w))
  = Some (if hears_itself this w
          then adopted (cell_defaultValue this) (storageValue_of (draftValue d))
          else draftValue d).
Proof.
  intros Hcell. unfold storedValue, save, hears_itself.
  rewrite (setStoredValue_cell i this _ w Hcell). simpl.
  destruct (has_window w && cell_listening this); [destruct (storage_fault w)|];
    reflexivity.
Qed.

(** The committed value after [save()] of a draft that JSON text represents
    and that is of the type of the default, when the write comes back to the
    cell: what the text of the draft reads back as, unless the draft is the
    empty string over another default. *)
Lemma save_commits (i : nat) (this : Cell) (d : Draft) (w : World) :
  cells w !! i = Some this -> hears_itself this w = true ->
  typeof_string (draftValue d) = typeof_string (cell_defaultValue this) ->
  JSON.representable (draftValue d) = true ->
  (draftValue d = VStr EmptyString -> cell_defaultValue this = VStr EmptyString) ->
  storedValue i (snd (save i this d w)) = Some (JSON.read_back (draftValue d)).
Proof.
  intros Hcell Hhears Htype Hrep Hne. rewrite (save_cell i this d w Hcell), Hhears.
  rewrite (adopted_read_back _ _ Htype Hrep Hne). reflexivity.
Qed.

(** The dirty flag does not tell a value from what its text reads back as. *)
Lemma hasChanges_read_back (x : Value) (d : Draft) :
  draftValue d = x ->
  hasChanges (draftValue (syncDraft (JSON.read_back x) d)) (JSON.read_back x) = false.
Proof.
  intros Hx. unfold syncDraft.
  destruct (Value_eqb (JSON.read_back x) (syncedValue d)); [|apply hasChanges_same].
  rewrite Hx. destruct (hasChanges x (JSON.read_back x)) eqn:E; [|reflexivity].
  apply hasChanges_iff in E. rewrite JSONFacts.stringify_read_back in E. contradiction.
Qed.

(** The dirty flag of the empty string against a string that is not empty. *)
Lemma hasChanges_empty_string (dflt : Value) :
  typeof_string dflt = true -> dflt <> VStr EmptyString ->
  hasChanges (VStr EmptyString) dflt = true.
Proof.
  intros Hs Hne. apply hasChanges_iff. intros E. apply Hne.
  destruct dflt as [| | | |s| |]; try discriminate Hs.
  change (JSON.stringify (VStr EmptyString)) with (Some (JSON.quote EmptyString)) in E.
  change (JSON.stringify (VStr s)) with (Some (JSON.quote s)) in E.
  pose proof (JSONFacts.parse_stringify (VStr s) (JSON.quote s) eq_refl eq_refl) as Ps.
  pose proof (JSONFacts.parse_stringify (VStr EmptyString) (JSON.quote EmptyString)
                eq_refl eq_refl) as P0.
  congruence.
Qed.

(** C7, as amended.  For a draft over the cell in slot [i]:
    after [setDraftValue(x)] with a serialization other than that of the
    committed value, [hasChanges] is true.  After [save()], when the write
    does not come back to the cell's own listener, the committed value is [x]
    and [hasChanges] is false, whatever [x] is.  When the write comes back and
    [x] is a value that JSON text represents, of the type of the default, and
    not the empty string over another default, the committed value is what
    the text of [x] reads back as, which is deeply equal to [x], and is [x]
    when [x] holds no negative zero; [hasChanges] is false.  When the write
    comes back and [x] is the empty string, the committed value is the
    default; under a string default that is not empty, [hasChanges] is then
    true exactly when the effect does not run, the stored value being the
    default as before.  After [reset()] the draft is the committed value and
    [hasChanges] is false; and [hasChanges] is true exactly when the two
    serializations differ. *)
Theorem draft_divergence (i : nat) (this : Cell) (d : Draft) (x : Value) (w : World) :
  cells w !! i = Some this ->
  let committed := cell_value this in
  let dflt := cell_defaultValue this in
  let d1 := setDraftValue (Literal x) d in
  let w1 := snd (save i this d1 w) in
  (JSON.stringify x <> JSON.stringify committed ->
   hasChanges (draftValue d1) committed = true) /\
  (hears_itself this w = false ->
   storedValue i w1 = Some x /\
   hasChanges (draftValue (syncDraft x d1)) x = false) /\
  (hears_itself this w = true ->
   typeof_string x = typeof_string dflt -> JSON.representable x = true ->
   (x = VStr EmptyString -> dflt = VStr EmptyString) ->
   storedValue i w1 = Some (JSON.read_back x) /\
   deep_equal (JSON.read_back x) x = true /\
   (JSON.serializable x = true -> JSON.read_back x = x) /\
   hasChanges (draftValue (syncDraft (JSON.read_back x) d1)) (JSON.read_back x)
   = false) /\
  (hears_itself this w = true -> x = VStr EmptyString ->
   storedValue i w1 = Some dflt /\
   (typeof_string dflt = true -> dflt <> VStr EmptyString ->
    hasChanges (draftValue (syncDraft dflt d1)) dflt
    = Value_eqb dflt (syncedValue d))) /\
  (draftValue (reset committed d1) = committed /\
   hasChanges (draftValue (reset committed d1)) committed = false) /\
  (forall a b, hasChanges a b = true <-> JSON.stringify a <> JSON.stringify b).
Proof.
  intros Hcell committed dflt d1 w1. split; [|split; [|split; [|split; [|split]]]].
  - intros Hdiff. apply hasChanges_iff. exact Hdiff.
  - intros Hhears. split.
    + unfold w1. rewrite (save_cell i this d1 w Hcell), Hhears. reflexivity.
    + rewrite (syncDraft_same x d1 eq_refl). apply hasChanges_same.
  - intros Hhears Htype Hrep Hne. split; [|split; [|split]].
    + exact (save_commits i this d1 w Hcell Hhears Htype Hrep Hne).
    + exact (JSONFacts.deep_equal_read_back x Hrep).
    + exact (JSONFacts.read_back_serializable x).
    + exact (hasChanges_read_back x d1 eq_refl).
  - intros Hhears ->. split.
    + unfold w1. rewrite (save_cell i this d1 w Hcell), Hhears. reflexivity.
    + intros Hs Hne. unfold syncDraft. simpl syncedValue.
      destruct (Value_eqb dflt (syncedValue d)).
      * exact (hasChanges_empty_string dflt Hs Hne).
      * apply hasChanges_same.
  - split; [reflexivity | apply hasChanges_same].
  - intros a b. apply hasChanges_iff.
Qed.

(** Saving the empty string over a non-empty string default, in a listening
    cell: the draft differs from the committed value, and after [save()] the
    committed value is the default, not the empty string, and [hasChanges] is
    still true; the claim C7 fails. *)
Lemma save_empty_string :
  hasChanges (draftValue (setDraftValue (Literal (VStr EmptyString))
                            (initialDraft (VStr "draft"))))
    (VStr "draft") = true /\
  storedValue 0
    (snd (save 0 (note_cell "draft")
            (setDraftValue (Literal (VStr EmptyString))
               (initialDraft (VStr "draft")))
            (browser ∅ "draft")))
  = Some (VStr "draft") /\
  VStr "draft" <> VStr EmptyString /\
  hasChanges
    (draftValue
       (syncDraft (VStr "draft")
          (setDraftValue (Literal (VStr EmptyString)) (initialDraft (VStr "draft")))))
    (VStr "draft") = true.
Proof. repeat split; try (vm_compute; reflexivity). discriminate. Qed.

(** ** The statements at concrete inputs *)

(** C3 at concrete inputs: the string [hello] written and read back, and
    the empty string written and read back. *)
Lemma get_after_set_string_witness :
  storage_works (browser ∅ "draft") /\
  "hello" <> EmptyString /\
  fst (getLocalStorage "note" (VStr "draft") None
         (snd (setLocalStorage "note" (VStr "hello") (browser ∅ "draft"))))
  = Returned {| value := VStr "hello"; isNull := false |} /\
  fst (Earlier.getLocalStorage "note" (VStr "draft")
         (snd (setLocalStorage "note" (VStr "hello") (browser ∅ "draft"))))
  = Returned (VStr "hello") /\
  fst (getLocalStorage "note" (VStr "draft") None
         (snd (setLocalStorage "note" (VStr EmptyString) (browser ∅ "draft"))))
  = Returned {| value := VStr EmptyString; isNull := false |} /\
  fst (Earlier.getLocalStorage "note" (VStr "draft")
         (snd (setLocalStorage "note" (VStr EmptyString) (browser ∅ "draft"))))
  = Returned (VStr "draft").
Proof.
  assert (Hw : storage_works (browser ∅ "draft")) by (split; reflexivity).
  assert (Hne : "hello" <> EmptyString) by discriminate.
  split; [exact Hw|]. split; [exact Hne|].
  destruct (get_after_set_string "note" "draft" "hello" None (browser ∅ "draft") Hw)
    as (Hnew & Hold & _).
  destruct (get_after_set_string "note" "draft" EmptyString None (browser ∅ "draft") Hw)
    as (Hnew' & _ & Hold').
  split; [rewrite Hnew; reflexivity|]. split; [rewrite (Hold Hne); reflexivity|].
  split; [rewrite Hnew' | rewrite (Hold' eq_refl)]; reflexivity.
Defined.

(** C4 at a concrete input: the mixer object, with a fraction and a negative
    zero, written and read back. *)
Lemma get_after_set_json_witness :
  storage_works (browser ∅ "draft") /\
  JSON.representable mixer = true /\
  typeof_string mixer = false /\
  typeof_string (VObj []) = false /\
  fst (getLocalStorage "mixer" (VObj []) None
         (snd (setLocalStorage "mixer" mixer (browser ∅ "draft"))))
  = Returned
      {| value := VObj [("volume", VNum (Number.of_decimal false 5 (-1)));
                        ("pan", VNum (S754_zero false));
                        ("tracks", VArr [VNum (Number.of_Z 3); VStr "lead"])];
         isNull := false |} /\
  fst (Earlier.getLocalStorage "mixer" (VObj [])
         (snd (setLocalStorage "mixer" mixer (browser ∅ "draft"))))
  = Returned (JSON.read_back mixer) /\
  deep_equal (JSON.read_back mixer) mixer = true.
Proof.
  assert (Hw : storage_works (browser ∅ "draft")) by (split; reflexivity).
  split; [exact Hw|]. do 3 (split; [vm_compute; reflexivity|]).
  destruct (get_after_set_json "mixer" mixer (VObj []) None (browser ∅ "draft")
              Hw eq_refl eq_refl eq_refl) as (Hnew & Hold & Hdeep & _).
  split; [rewrite Hnew; vm_compute; reflexivity|].
  split; [rewrite Hold; reflexivity | exact Hdeep].
Defined.

(** C5 at a concrete input: the empty string stored under [note]. *)
Lemma initialValue_empty_string_witness :
  items (browser {[ "note" := EmptyString ]} "draft") !! "note" = Some EmptyString /\
  initialValue "note" (VStr "draft") (browser {[ "note" := EmptyString ]} "draft")
  = (Returned (VStr "draft"), browser {[ "note" := EmptyString ]} "draft").
Proof.
  assert (H : items (browser {[ "note" := EmptyString ]} "draft") !! "note"
              = Some EmptyString) by (vm_compute; reflexivity).
  split; [exact H|].
  exact (proj1 (initialValue_empty_string "note" (VStr "draft") _ H)).
Defined.

(** C6 at a concrete input: the text [hello] published for [note]. *)
Lemma dispatchEvent_adopts_witness :
  cells (browser ∅ "old") !! 0 = Some (note_cell "old") /\
  cell_listening (note_cell "old") = true /\
  storedValue 0
    (snd (dispatchEvent
            {| ev_key := Some "note"; ev_newValue := Some "hello";
               ev_oldValue := None; ev_storageArea := LocalStorage |}
            (browser ∅ "old")))
  = Some (VStr "hello").
Proof.
  split; [reflexivity|]. split; [reflexivity|].
  exact (dispatchEvent_adopts
           {| ev_key := Some "note"; ev_newValue := Some "hello";
              ev_oldValue := None; ev_storageArea := LocalStorage |}
           (browser ∅ "old") 0 (note_cell "old") eq_refl eq_refl eq_refl eq_refl).
Defined.

(** C7 at concrete inputs: the draft [hello] over the committed [draft],
    the empty draft saved over the empty default, and the mixer saved over an
    empty object. *)
Lemma draft_divergence_witness :
  cells (browser ∅ "draft") !! 0 = Some (note_cell "draft") /\
  JSON.stringify (VStr "hello") <> JSON.stringify (VStr "draft") /\
  hasChanges (VStr "hello") (VStr "draft") = true /\
  storedValue 0
    (snd (save 0 (note_cell "draft")
            (setDraftValue (Literal (VStr "hello")) (initialDraft (VStr "draft")))
            (browser ∅ "draft")))
  = Some (VStr "hello") /\
  storedValue 0
    (snd (save 0 (with_value (VStr "old") empty_note)
            (setDraftValue (Literal (VStr EmptyString)) (initialDraft (VStr "old")))
            (empty_note_browser "old")))
  = Some (VStr EmptyString) /\
  storedValue 0
    (snd (save 0 mixer_cell
            (setDraftValue (Literal mixer) (initialDraft (VObj [])))
            mixer_browser))
  = Some (JSON.read_back mixer).
Proof.
  assert (Hdiff : JSON.stringify (VStr "hello") <> JSON.stringify (VStr "draft")).
  { intros E. apply (hasChanges_iff (VStr "hello") (VStr "draft")); [|exact E].
    vm_compute. reflexivity. }
  split; [reflexivity|]. split; [exact Hdiff|].
  destruct (draft_divergence 0 (note_cell "draft") (initialDraft (VStr "draft"))
              (VStr "hello") (browser ∅ "draft") eq_refl)
    as (Hset & _ & Hsave & _).
  destruct (draft_divergence 0 (with_value (VStr "old") empty_note)
              (initialDraft (VStr "old")) (VStr EmptyString) (empty_note_browser "old")
              eq_refl)
    as (_ & _ & Hsave' & _).
  destruct (draft_divergence 0 mixer_cell (initialDraft (VObj [])) mixer
              mixer_browser eq_refl)
    as (_ & _ & Hsave'' & _).
  split; [exact (Hset Hdiff)|]. split; [|split].
  - apply (Hsave eq_refl eq_refl eq_refl). discriminate.
  - apply (Hsave' eq_refl eq_refl eq_refl). reflexivity.
  - apply (Hsave'' eq_refl eq_refl); [vm_compute; reflexivity | discriminate].
Defined.

(** C8 at a concrete input: [remove()] twice with [old] stored under [note]. *)
Lemma remove_twice_witness :
  cells (browser {[ "note" := "old" ]} "old") !! 0 = Some (note_cell "old") /\
  exists this1,
    cells (snd (remove 0 (note_cell "old") (browser {[ "note" := "old" ]} "old"))) !! 0
    = Some this1 /\
    cell_value this1 = VStr "draft" /\
    storedValue 0
      (snd (remove 0 this1
              (snd (remove 0 (note_cell "old") (browser {[ "note" := "old" ]} "old")))))
    = Some (VStr "draft") /\
    items (snd (remove 0 (note_cell "old") (browser {[ "note" := "old" ]} "old")))
      !! "note" = None /\
    items (snd (remove 0 this1
                  (snd (remove 0 (note_cell "old") (browser {[ "note" := "old" ]} "old")))))
      !! "note" = None.
Proof.
  split; [reflexivity|].
  destruct (remove_twice 0 (note_cell "old") (browser {[ "note" := "old" ]} "old") eq_refl)
    as (this1 & Hcell & Hvalue & Hstored & Hitems).
  exists this1. split; [exact Hcell|]. split; [exact Hvalue|]. split; [exact Hstored|].
  apply Hitems; [reflexivity | discriminate].
Defined.

(** C9 at a concrete input: [hello] stored under [note]. *)
Lemma getLocalStorage_agree_witness :
  exists r v,
    getLocalStorage "note" (VStr "draft") None (browser {[ "note" := "hello" ]} "hello")
    = (Returned r, browser {[ "note" := "hello" ]} "hello") /\
    Earlier.getLocalStorage "note" (VStr "draft") (browser {[ "note" := "hello" ]} "hello")
    = (Returned v, browser {[ "note" := "hello" ]} "hello") /\
    value r = v.
Proof.
  destruct (getLocalStorage_agree "note" (VStr "draft")
              (browser {[ "note" := "hello" ]} "hello"))
    as (r & v & Hnew & Hold & _ & Hsame).
  exists r, v. split; [exact Hnew|]. split; [exact Hold|].
  apply Hsame. intros ((_ & _ & Hitem) & _). vm_compute in Hitem. discriminate Hitem.
Defined.

(** * Further facts about the code *)

(** ** Notifications reach the cells they are for *)

Lemma handleStorageChange_ignores (e : StorageEvent) (c : Cell) :
  ev_key e <> Some (cell_key c) \/ ev_storageArea e <> LocalStorage ->
  handleStorageChange e c = c.
Proof.
  intros H. unfold handleStorageChange.
  destruct (ev_key e) as [k|]; [|reflexivity].
  destruct (ev_storageArea e); [|reflexivity].
  destruct (StringFacts.eqb_spec k (cell_key c)) as [->|Hk]; [|reflexivity].
  destruct H as [H|H]; contradiction.
Qed.

(** An event for another key, for no key (the whole area was cleared), or
    from another storage area changes no cell: each cell in the page stays
    as it was. *)
Theorem dispatchEvent_other_key (e : StorageEvent) (w : World) (j : nat) (c : Cell) :
  cells w !! j = Some c ->
  ev_key e <> Some (cell_key c) \/ ev_storageArea e <> LocalStorage ->
  cells (snd (dispatchEvent e w)) !! j = Some c.
Proof.
  intros Hc H. rewrite dispatchEvent_cell, Hc. simpl.
  destruct (cell_listening c); [|reflexivity].
  rewrite (handleStorageChange_ignores e c H). reflexivity.
Qed.

Lemma dispatchEvent_other_key_witness :
  cells (browser ∅ "old") !! 0 = Some (note_cell "old") /\
  cells (snd (dispatchEvent
                {| ev_key := Some "theme"; ev_newValue := Some "dark";
                   ev_oldValue := None; ev_storageArea := LocalStorage |}
                (browser ∅ "old"))) !! 0
  = Some (note_cell "old").
Proof.
  split; [reflexivity|].
  apply (dispatchEvent_other_key _ (browser ∅ "old") 0 (note_cell "old") eq_refl).
  left. discriminate.
Defined.

(** After the cleanup of the effect the cell no longer follows the storage
    area: a notification, also one for its key, leaves its value as it was;
    the cleanup itself leaves the storage area alone. *)
Theorem unsubscribe_stops_listening (e : StorageEvent) (w : World) (i : nat) (c : Cell) :
  cells w !! i = Some c ->
  storedValue i (snd (dispatchEvent e (snd (unsubscribe i w)))) = Some (cell_value c) /\
  items (snd (unsubscribe i w)) = items w.
Proof.
  intros Hc. split; [|reflexivity]. unfold storedValue.
  rewrite dispatchEvent_cell. unfold unsubscribe. simpl.
  rewrite list_lookup_alter_eq, Hc. reflexivity.
Qed.

Lemma unsubscribe_stops_listening_witness :
  cells (browser ∅ "old") !! 0 = Some (note_cell "old") /\
  storedValue 0
    (snd (dispatchEvent
            {| ev_key := Some "note"; ev_newValue := Some "new";
               ev_oldValue := None; ev_storageArea := LocalStorage |}
            (snd (unsubscribe 0 (browser ∅ "old")))))
  = Some (VStr "old").
Proof.
  split; [reflexivity|].
  exact (proj1 (unsubscribe_stops_listening _ (browser ∅ "old") 0 (note_cell "old") eq_refl)).
Defined.

(** ** [setLocalStorage] *)

(** [setLocalStorage] never throws.  Without a window it does nothing.  When
    the storage area refuses the write, nothing is stored, no notification is
    published and no cell changes: the error goes to the console, once. *)
Theorem setLocalStorage_failure_safe (key : string) (v : Value) (w : World) :
  fst (setLocalStorage key v w) = Returned tt /\
  (has_window w = false -> snd (setLocalStorage key v w) = w) /\
  (has_window w = true -> storage_fault w <> NoFault ->
   let w' := snd (setLocalStorage key v w) in
   items w' = items w /\ dispatched w' = dispatched w /\ cells w' = cells w /\
   exists error, console w' = (console w ++ [error])%list).
Proof.
  destruct w as [win fault stored cs es log]. unfold setLocalStorage. run.
  split; [destruct win; [destruct fault|]; reflexivity|]. split.
  - intros ->. reflexivity.
  - intros -> Hfault. destruct fault; [contradiction | ..]; simpl;
      repeat split; eexists; reflexivity.
Qed.

Lemma setLocalStorage_failure_safe_witness :
  has_window (full_browser "old") = true /\
  storage_fault (full_browser "old") <> NoFault /\
  has_window (server "old") = false /\
  items (snd (setLocalStorage "note" (VStr "new") (full_browser "old"))) = ∅ /\
  dispatched (snd (setLocalStorage "note" (VStr "new") (full_browser "old"))) = [] /\
  snd (setLocalStorage "note" (VStr "new") (server "old")) = server "old".
Proof.
  assert (Hfault : storage_fault (full_browser "old") <> NoFault) by discriminate.
  split; [reflexivity|]. split; [exact Hfault|]. split; [reflexivity|].
  destruct (setLocalStorage_failure_safe "note" (VStr "new") (full_browser "old"))
    as (_ & _ & Hfull).
  destruct (Hfull eq_refl Hfault) as (Hitems & Hevents & _ & _).
  split; [exact Hitems|]. split; [exact Hevents|].
  exact (proj1 (proj2 (setLocalStorage_failure_safe "note" (VStr "new") (server "old")))
           eq_refl).
Defined.

(** The cell in slot [j] after a write by [setLocalStorage] that went
    through. *)
Lemma setLocalStorage_cell (key : string) (v : Value) (w : World) (j : nat) (c : Cell) :
  storage_works w -> cells w !! j = Some c ->
  cells (snd (setLocalStorage key v w)) !! j
  = Some (if cell_listening c && bool_decide (cell_key c = key)
          then with_value (adopted (cell_defaultValue c) (storageValue_of v)) c
          else c).
Proof.
  intros Hw Hc. rewrite (setLocalStorage_works key v w Hw). simpl.
  rewrite list_lookup_fmap, Hc. simpl.
  destruct (cell_listening c); [|reflexivity]. simpl.
  case_bool_decide as Hk.
  - rewrite handleStorageChange_adopts by (simpl; congruence). reflexivity.
  - rewrite handleStorageChange_ignores by (left; simpl; congruence). reflexivity.
Qed.

(** On a working storage area [setLocalStorage(key, v)] reaches the cells
    bound to [key] and no other: a listening cell bound to [key] decodes the
    text of [v] by its own default; a cell bound to another key, or not
    listening, stays as it was. *)
Theorem setLocalStorage_reaches_cells (key : string) (v : Value) (w : World)
    (j : nat) (c : Cell) :
  storage_works w -> cells w !! j = Some c ->
  (cell_listening c = true -> cell_key c = key ->
   storedValue j (snd (setLocalStorage key v w))
   = Some (match storageValue_of v with
           | None => cell_defaultValue c
           | Some EmptyString => cell_defaultValue c
           | Some text =>
               if typeof_string (cell_defaultValue c) then VStr text
               else match JSON.parse text with
                    | Some parsed => parsed
                    | None => cell_defaultValue c
                    end
           end)) /\
  (cell_listening c = false \/ cell_key c <> key ->
   cells (snd (setLocalStorage key v w)) !! j = Some c).
Proof.
  intros Hw Hc. unfold storedValue. rewrite (setLocalStorage_cell key v w j c Hw Hc).
  split.
  - intros -> Hk. rewrite bool_decide_eq_true_2 by exact Hk. reflexivity.
  - intros [->|Hk]; [reflexivity|].
    rewrite bool_decide_eq_false_2 by exact Hk. rewrite andb_false_r. reflexivity.
Qed.

Lemma setLocalStorage_reaches_cells_witness :
  storage_works (shared_browser ∅) /\
  cells (shared_browser ∅) !! 1 = Some note_reader /\
  storedValue 1 (snd (setLocalStorage "note" (VStr "new") (shared_browser ∅)))
  = Some (VStr "new") /\
  storedValue 1 (snd (setLocalStorage "theme" (VStr "dark") (shared_browser ∅)))
  = Some (VStr "old").
Proof.
  assert (Hw : storage_works (shared_browser ∅)) by (split; reflexivity).
  assert (Hne : cell_listening note_reader = false \/ cell_key note_reader <> "theme")
    by (right; discriminate).
  split; [exact Hw|]. split; [reflexivity|]. split.
  - exact (proj1 (setLocalStorage_reaches_cells "note" (VStr "new") _ 1 note_reader
                    Hw eq_refl) eq_refl eq_refl).
  - unfold storedValue.
    rewrite (proj2 (setLocalStorage_reaches_cells "theme" (VStr "dark") _ 1 note_reader
                      Hw eq_refl) Hne).
    reflexivity.
Defined.

(** Code outside React drives the cells: after [setLocalStorage(key, v)] on a
    working storage area, with [v] serializable, of the type of the cell's
    default and not the empty string, a listening cell bound to [key] holds
    [v]. *)
Theorem setLocalStorage_drives_cell (key : string) (v : Value) (w : World)
    (j : nat) (c : Cell) :
  storage_works w -> cells w !! j = Some c ->
  cell_listening c = true -> cell_key c = key ->
  typeof_string v = typeof_string (cell_defaultValue c) ->
  JSON.serializable v = true -> v <> VStr EmptyString ->
  storedValue j (snd (setLocalStorage key v w)) = Some v.
Proof.
  intros Hw Hc Hl Hk Htype Hser Hne. unfold storedValue.
  rewrite (setLocalStorage_cell key v w j c Hw Hc), Hl.
  rewrite bool_decide_eq_true_2 by exact Hk. simpl.
  rewrite (adopted_own_write _ _ Htype Hser Hne). reflexivity.
Qed.

Lemma setLocalStorage_drives_cell_witness :
  storage_works (browser ∅ "old") /\
  cells (browser ∅ "old") !! 0 = Some (note_cell "old") /\
  JSON.serializable (VStr "new") = true /\
  storedValue 0 (snd (setLocalStorage "note" (VStr "new") (browser ∅ "old")))
  = Some (VStr "new").
Proof.
  assert (Hw : storage_works (browser ∅ "old")) by (split; reflexivity).
  assert (Hne : VStr "new" <> VStr EmptyString) by discriminate.
  split; [exact Hw|]. split; [reflexivity|]. split; [reflexivity|].
  exact (setLocalStorage_drives_cell "note" (VStr "new") _ 0 (note_cell "old")
           Hw eq_refl eq_refl eq_refl eq_refl eq_refl Hne).
Defined.

(** [setLocalStorage] writes one key: on a working storage area the item
    under [key] is the text of [v], and the item under every other key is what
    it was. *)
Theorem setLocalStorage_writes_one_key (key other : string) (v : Value) (w : World) :
  storage_works w ->
  items (snd (setLocalStorage key v w)) !! key = Some (DOMString (storageValue_of v)) /\
  (other <> key ->
   items (snd (setLocalStorage key v w)) !! other = items w !! other).
Proof.
  intros Hw. rewrite (setLocalStorage_works key v w Hw). simpl. split.
  - apply lookup_insert_eq.
  - intros Hne. apply lookup_insert_ne. congruence.
Qed.

Lemma setLocalStorage_writes_one_key_witness :
  storage_works (browser {[ "theme" := "dark" ]} "old") /\
  "theme" <> "note" /\
  items (snd (setLocalStorage "note" settings (browser {[ "theme" := "dark" ]} "old")))
    !! "theme" = Some "dark".
Proof.
  assert (Hw : storage_works (browser {[ "theme" := "dark" ]} "old")) by (split; reflexivity).
  assert (Hne : "theme" <> "note") by discriminate.
  split; [exact Hw|]. split; [exact Hne|].
  rewrite (proj2 (setLocalStorage_writes_one_key "note" "theme" settings _ Hw) Hne).
  vm_compute. reflexivity.
Defined.

(** ** [setStoredValue] *)

(** The world after a write through the cell went through. *)
Lemma setStoredValue_works (i : nat) (this : Cell) (next : SetStateAction) (w : World) :
  storage_works w ->
  setStoredValue i this next w =
  (Returned tt,
   let v := resolve next (cell_value this) in
   let e := {| ev_key := Some (cell_key this); ev_newValue := storageValue_of v;
               ev_oldValue := Some (DOMString (storageValue_of v));
               ev_storageArea := LocalStorage |} in
   {| has_window := true; storage_fault := NoFault;
      items := <[cell_key this := DOMString (storageValue_of v)]> (items w);
      cells := (fun c => if cell_listening c then handleStorageChange e c else c)
                 <$> alter (with_value v) i (cells w);
      dispatched := dispatched w ++ [e]; console := console w |}).
Proof.
  intros [Hwin Hfault]. destruct w as [win fault stored cs es log].
  simpl in Hwin, Hfault. subst win fault. unfold setStoredValue.
  fold (resolve next (cell_value this)). run. rewrite lookup_insert_eq. reflexivity.
Qed.

(** The cell after [setStoredValue] through a closure of an earlier render:
    the slot may hold another value than [this], and the outcome is the
    same. *)
Lemma setStoredValue_stale_cell (i : nat) (this : Cell) (u : Value)
    (next : SetStateAction) (w : World) :
  cells w !! i = Some (with_value u this) ->
  cells (snd (setStoredValue i this next w)) !! i
  = Some
      (let v := resolve next (cell_value this) in
       if has_window w && cell_listening this then
         match storage_fault w with
         | NoFault =>
             with_value (adopted (cell_defaultValue this) (storageValue_of v)) this
         | _ => with_value v this
         end
       else with_value v this).
Proof.
  intros Hcell. destruct w as [win fault stored cs es log]. simpl in Hcell.
  unfold setStoredValue. fold (resolve next (cell_value this)).
  set (v := resolve next (cell_value this)). run.
  assert (Hset : alter (with_value v) i cs !! i = Some (with_value v this))
    by (rewrite list_lookup_alter_eq, Hcell; reflexivity).
  destruct win; simpl; [|exact Hset].
  destruct fault; simpl.
  - rewrite list_lookup_fmap, Hset. simpl.
    destruct (cell_listening this); [|reflexivity].
    rewrite handleStorageChange_adopts by reflexivity. reflexivity.
  - destruct (cell_listening this); exact Hset.
  - destruct (cell_listening this); exact Hset.
Qed.

Lemma setStoredValue_environment (i : nat) (this : Cell) (next : SetStateAction)
    (w : World) :
  has_window (snd (setStoredValue i this next w)) = has_window w /\
  storage_fault (snd (setStoredValue i this next w)) = storage_fault w.
Proof.
  destruct w as [win fault stored cs es log]. unfold setStoredValue. run.
  destruct win; [destruct fault|]; split; reflexivity.
Qed.

(** Two cells bound to one key stay in step: after a write of [x] through
    the cell in slot [i], on a working storage area, another listening cell
    bound to the same key holds [x], for [x] serializable, of the type of that
    cell's default and not the empty string. *)
Theorem setStoredValue_syncs_other_cell (i j : nat) (this other : Cell) (x : Value)
    (w : World) :
  storage_works w -> i <> j ->
  cells w !! i = Some this -> cells w !! j = Some other ->
  cell_key other = cell_key this -> cell_listening other = true ->
  typeof_string x = typeof_string (cell_defaultValue other) ->
  JSON.serializable x = true -> x <> VStr EmptyString ->
  storedValue j (snd (setStoredValue i this (Literal x) w)) = Some x.
Proof.
  intros Hw Hij Hi Hj Hk Hl Htype Hser Hne. unfold storedValue.
  rewrite (setStoredValue_works i this _ w Hw). simpl.
  rewrite list_lookup_fmap, list_lookup_alter_ne by exact Hij. rewrite Hj. simpl.
  rewrite Hl. rewrite handleStorageChange_adopts by (simpl; congruence). simpl.
  rewrite (adopted_own_write _ _ Htype Hser Hne). reflexivity.
Qed.

Lemma setStoredValue_syncs_other_cell_witness :
  storage_works (shared_browser ∅) /\
  0 <> 1 /\
  cells (shared_browser ∅) !! 0 = Some (note_cell "old") /\
  cells (shared_browser ∅) !! 1 = Some note_reader /\
  storedValue 1
    (snd (setStoredValue 0 (note_cell "old") (Literal (VStr "new")) (shared_browser ∅)))
  = Some (VStr "new").
Proof.
  assert (Hw : storage_works (shared_browser ∅)) by (split; reflexivity).
  assert (Hij : 0 <> 1) by lia.
  assert (Hne : VStr "new" <> VStr EmptyString) by discriminate.
  split; [exact Hw|]. split; [exact Hij|]. split; [reflexivity|]. split; [reflexivity|].
  exact (setStoredValue_syncs_other_cell 0 1 (note_cell "old") note_reader (VStr "new")
           _ Hw Hij eq_refl eq_refl eq_refl eq_refl eq_refl eq_refl Hne).
Defined.

(** When [setStoredValue] returns and when it throws.  Without a window it
    returns and only the local state changes.  With a window it throws
    exactly when the storage area refuses the write, and then nothing is
    stored and no notification is published. *)
Theorem setStoredValue_outcome (i : nat) (this : Cell) (next : SetStateAction)
    (w : World) :
  let w' := snd (setStoredValue i this next w) in
  (fst (setStoredValue i this next w) = Returned tt <->
   has_window w = false \/ storage_fault w = NoFault) /\
  (has_window w = false \/ storage_fault w <> NoFault ->
   items w' = items w /\ dispatched w' = dispatched w).
Proof.
  destruct w as [win fault stored cs es log]. unfold setStoredValue. run.
  destruct win; simpl.
  - destruct fault; simpl; (split; [split|]).
    all: try (intros _; right; reflexivity).
    all: try (intros _; reflexivity).
    all: try discriminate.
    all: try (intros [H|H]; discriminate H).
    all: try (intros [H|H]; [discriminate H | contradiction]).
    all: intros _; split; reflexivity.
  - split; [split; [intros _; left|]; reflexivity|]. intros _. split; reflexivity.
Qed.

(** A functional update reads the value of the render, not the latest state:
    calling [setStoredValue] twice through the same closure leaves the cell
    where one call left it. *)
Theorem setStoredValue_same_render (i : nat) (this : Cell) (next : SetStateAction)
    (w : World) :
  cells w !! i = Some this ->
  cells (snd (setStoredValue i this next (snd (setStoredValue i this next w)))) !! i
  = cells (snd (setStoredValue i this next w)) !! i.
Proof.
  intros Hcell.
  pose proof (setStoredValue_cell i this next w Hcell) as H1.
  destruct (setStoredValue_environment i this next w) as [Hwin Hfault].
  set (w1 := snd (setStoredValue i this next w)) in *.
  assert (Hex : exists u, cells w1 !! i = Some (with_value u this)).
  { rewrite H1. simpl.
    destruct (has_window w && cell_listening this); [destruct (storage_fault w)|];
      eexists; reflexivity. }
  destruct Hex as [u Hu].
  rewrite (setStoredValue_stale_cell i this u next w1 Hu), H1, Hwin, Hfault.
  reflexivity.
Qed.

Lemma setStoredValue_same_render_witness :
  cells (server "old") !! 0 = Some (note_cell "old") /\
  storedValue 0
    (snd (setStoredValue 0 (note_cell "old") (Updater (fun v => VArr [v]))
            (snd (setStoredValue 0 (note_cell "old") (Updater (fun v => VArr [v]))
                    (server "old")))))
  = Some (VArr [VStr "old"]).
Proof.
  split; [reflexivity|]. unfold storedValue.
  rewrite (setStoredValue_same_render 0 (note_cell "old") _ (server "old") eq_refl).
  reflexivity.
Defined.

Lemma setStoredValue_outcome_witness :
  (has_window (full_browser "old") = false \/ storage_fault (full_browser "old") <> NoFault) /\
  fst (setStoredValue 0 (note_cell "old") (Literal (VStr "new")) (full_browser "old"))
  <> Returned tt /\
  items (snd (setStoredValue 0 (note_cell "old") (Literal (VStr "new")) (full_browser "old")))
  = ∅.
Proof.
  assert (H : has_window (full_browser "old") = false \/
              storage_fault (full_browser "old") <> NoFault) by (right; discriminate).
  split; [exact H|].
  destruct (setStoredValue_outcome 0 (note_cell "old") (Literal (VStr "new"))
              (full_browser "old")) as [Hiff Hsame].
  split.
  - intros Hret. apply Hiff in Hret. destruct Hret as [Hret|Hret]; discriminate Hret.
  - exact (proj1 (Hsame H)).
Defined.

(** ** The initializer and the first render *)

(** What the initializer reads, in every world: it decodes the item as the
    listener decodes a new text. *)
Lemma initialValue_reads (key : string) (d : Value) (w : World) :
  initialValue key d w =
  (Returned
     (if has_window w then
        match storage_fault w with
        | AccessDenied => d
        | _ => adopted d (items w !! key)
        end
      else d), w).
Proof.
  destruct w as [win fault stored cs es log]. unfold initialValue, adopted. run.
  destruct win; [|reflexivity]. simpl.
  destruct fault; simpl; try reflexivity;
    destruct (stored !! key) as [[|c item]|]; simpl; try reflexivity;
    destruct (typeof_string d); simpl; try reflexivity;
    destruct (JSON.parse (String c item)); reflexivity.
Qed.

(** The initializer never throws and changes nothing.  It returns the
    default when there is no window, when the storage access throws, and when
    the item is absent or empty; otherwise the item itself under a string
    default, and under another default the parsed item, or the default when
    the item does not parse. *)
Theorem initialValue_total (key : string) (d : Value) (w : World) :
  exists v,
    initialValue key d w = (Returned v, w) /\
    (has_window w = false \/ storage_fault w = AccessDenied \/
     items w !! key = None \/ items w !! key = Some EmptyString -> v = d) /\
    (forall item,
       has_window w = true -> storage_fault w <> AccessDenied ->
       items w !! key = Some item -> item <> EmptyString ->
       v = if typeof_string d then VStr item
           else match JSON.parse item with
                | Some parsed => parsed
                | None => d
                end).
Proof.
  rewrite initialValue_reads. eexists. split; [reflexivity|]. split.
  - intros [H|[H|[H|H]]].
    + rewrite H. reflexivity.
    + rewrite H. destruct (has_window w); reflexivity.
    + rewrite H. destruct (has_window w); [|reflexivity].
      destruct (storage_fault w); reflexivity.
    + rewrite H. destruct (has_window w); [|reflexivity].
      destruct (storage_fault w); reflexivity.
  - intros item Hwin Hfault Hitem Hne. rewrite Hwin, Hitem.
    destruct item as [|c item]; [contradiction|].
    destruct (storage_fault w); [reflexivity | contradiction | reflexivity].
Qed.

Lemma initialValue_total_witness :
  has_window (browser {[ "note" := "{oops" ]} "old") = true /\
  storage_fault (browser {[ "note" := "{oops" ]} "old") <> AccessDenied /\
  items (browser {[ "note" := "{oops" ]} "old") !! "note" = Some "{oops" /\
  "{oops" <> EmptyString /\
  fst (initialValue "note" settings (browser {[ "note" := "{oops" ]} "old"))
  = Returned settings.
Proof.
  assert (Hfault : storage_fault (browser {[ "note" := "{oops" ]} "old") <> AccessDenied)
    by discriminate.
  assert (Hitem : items (browser {[ "note" := "{oops" ]} "old") !! "note" = Some "{oops")
    by (vm_compute; reflexivity).
  assert (Hne : "{oops" <> EmptyString) by discriminate.
  split; [reflexivity|]. split; [exact Hfault|]. split; [exact Hitem|]. split; [exact Hne|].
  destruct (initialValue_total "note" settings (browser {[ "note" := "{oops" ]} "old"))
    as (v & Hrun & _ & Hdecoded).
  rewrite Hrun. simpl. f_equal.
  rewrite (Hdecoded "{oops" eq_refl Hfault Hitem Hne). vm_compute. reflexivity.
Defined.

(** The first render, in every world. *)
Lemma useLocalStorage_runs (key : string) (d : Value) (w : World) :
  exists v,
    initialValue key d w = (Returned v, w) /\
    useLocalStorage key d w =
    (Returned (length (cells w), v),
     with_cells
       (cells w ++
        [{| cell_key := key; cell_defaultValue := d;
            cell_value := v; cell_listening := false |}]) w).
Proof.
  unfold useLocalStorage, bind. rewrite initialValue_reads.
  eexists. split; reflexivity.
Qed.

(** The first render only reads: it never throws, adds one cell, not yet
    listening, after the cells of the page, and leaves the other cells, the
    storage area and the published notifications as they were. *)
Theorem useLocalStorage_mounts_one_cell (key : string) (d : Value) (w : World) :
  exists v w',
    useLocalStorage key d w = (Returned (length (cells w), v), w') /\
    cells w' = (cells w ++
                [{| cell_key := key; cell_defaultValue := d;
                    cell_value := v; cell_listening := false |}])%list /\
    items w' = items w /\ dispatched w' = dispatched w.
Proof.
  destruct (useLocalStorage_runs key d w) as (v & _ & Hrun).
  exists v. eexists. split; [exact Hrun|]. repeat split.
Qed.

(** A written value survives a reload: after a write of [x] that went
    through, by [setStoredValue] or by [setLocalStorage], a cell mounted for
    the key with a default of the type of [x] starts with [x], for [x]
    serializable and not the empty string. *)
Theorem write_then_mount (i : nat) (this : Cell) (x d : Value) (w : World) :
  storage_works w ->
  typeof_string x = typeof_string d -> JSON.serializable x = true ->
  x <> VStr EmptyString ->
  fst (initialValue (cell_key this) d (snd (setStoredValue i this (Literal x) w)))
  = Returned x /\
  fst (initialValue (cell_key this) d (snd (setLocalStorage (cell_key this) x w)))
  = Returned x.
Proof.
  intros Hw Htype Hser Hne. rewrite !initialValue_reads.
  rewrite (setStoredValue_works i this _ w Hw), (setLocalStorage_works _ x w Hw).
  simpl. rewrite lookup_insert_eq.
  assert (Htext : Some (DOMString (storageValue_of x)) = storageValue_of x).
  { destruct x as [| |[]| | | |]; try reflexivity. discriminate Hser. }
  rewrite Htext, (adopted_own_write d x Htype Hser Hne). split; reflexivity.
Qed.

Lemma write_then_mount_witness :
  storage_works (browser ∅ "old") /\
  JSON.serializable settings = true /\
  settings <> VStr EmptyString /\
  fst (initialValue "note" (VObj [])
         (snd (setStoredValue 0 (note_cell "old") (Literal settings) (browser ∅ "old"))))
  = Returned settings.
Proof.
  assert (Hw : storage_works (browser ∅ "old")) by (split; reflexivity).
  assert (Hne : settings <> VStr EmptyString) by discriminate.
  split; [exact Hw|]. split; [reflexivity|]. split; [exact Hne|].
  exact (proj1 (write_then_mount 0 (note_cell "old") settings (VObj []) _
                  Hw eq_refl eq_refl Hne)).
Defined.

(** A cell follows the storage area from its effect on.  Mounted and
    subscribed, it holds a value written by [setLocalStorage] for its key;
    between the render and the effect the same write passes it by. *)
Theorem mounted_cell_follows (key : string) (d v : Value) (w : World) :
  storage_works w ->
  typeof_string v = typeof_string d -> JSON.serializable v = true ->
  v <> VStr EmptyString ->
  let i := length (cells w) in
  let rendered := snd (useLocalStorage key d w) in
  let subscribed := snd (subscribe i rendered) in
  storedValue i (snd (setLocalStorage key v subscribed)) = Some v /\
  storedValue i (snd (setLocalStorage key v rendered)) = storedValue i rendered.
Proof.
  intros Hw Htype Hser Hne i rendered subscribed.
  destruct (useLocalStorage_runs key d w) as (v0 & _ & Hrun).
  assert (Hw' : storage_works rendered).
  { unfold rendered. rewrite Hrun. exact Hw. }
  assert (Hcell : cells rendered !! i
                  = Some {| cell_key := key; cell_defaultValue := d;
                            cell_value := v0; cell_listening := false |}).
  { unfold rendered. rewrite Hrun. simpl.
    rewrite lookup_app_r by reflexivity. unfold i. rewrite Nat.sub_diag. reflexivity. }
  split.
  - pose proof (subscribe_listens i _ rendered Hcell (proj1 Hw')) as Hsub.
    fold subscribed in Hsub.
    assert (Hws : storage_works subscribed).
    { unfold subscribed, subscribe. run. destruct Hw' as [Hwin Hfault].
      rewrite Hwin. simpl. split; assumption. }
    unfold storedValue. rewrite (setLocalStorage_cell key v subscribed i _ Hws Hsub).
    simpl. rewrite bool_decide_eq_true_2 by reflexivity.
    simpl. rewrite (adopted_own_write _ _ Htype Hser Hne). reflexivity.
  - unfold storedValue. rewrite (setLocalStorage_cell key v rendered i _ Hw' Hcell).
    rewrite Hcell. reflexivity.
Qed.

Lemma mounted_cell_follows_witness :
  storage_works (browser ∅ "old") /\
  JSON.serializable settings = true /\
  settings <> VStr EmptyString /\
  storedValue 1
    (snd (setLocalStorage "settings" settings
            (snd (subscribe 1 (snd (useLocalStorage "settings" (VObj []) (browser ∅ "old")))))))
  = Some settings /\
  storedValue 1
    (snd (setLocalStorage "settings" settings
            (snd (useLocalStorage "settings" (VObj []) (browser ∅ "old")))))
  = Some (VObj []).
Proof.
  assert (Hw : storage_works (browser ∅ "old")) by (split; reflexivity).
  assert (Hne : settings <> VStr EmptyString) by discriminate.
  split; [exact Hw|]. split; [reflexivity|]. split; [exact Hne|].
  destruct (mounted_cell_follows "settings" (VObj []) settings (browser ∅ "old")
              Hw eq_refl eq_refl Hne) as [Hfollows Hmisses].
  split; [exact Hfollows|]. etransitivity; [exact Hmisses|]. vm_compute. reflexivity.
Defined.

(** ** [remove] *)

(** The world after [remove] on a storage area that can be reached. *)
Lemma remove_reachable (i : nat) (this : Cell) (w : World) :
  has_window w = true -> storage_fault w <> AccessDenied ->
  remove i this w =
  (Returned tt,
   let e := {| ev_key := Some (cell_key this); ev_newValue := None;
               ev_oldValue := items w !! cell_key this;
               ev_storageArea := LocalStorage |} in
   {| has_window := true; storage_fault := storage_fault w;
      items := delete (cell_key this) (items w);
      cells := (fun c => if cell_listening c then handleStorageChange e c else c)
                 <$> alter (with_value (cell_defaultValue this)) i (cells w);
      dispatched := dispatched w ++ [e]; console := console w |}).
Proof.
  intros Hwin Hfault. destruct w as [win fault stored cs es log].
  simpl in Hwin, Hfault. subst win. unfold remove. run.
  destruct fault; [reflexivity | contradiction | reflexivity].
Qed.

(** [remove()] deletes one key and says so: on a storage area that can be
    reached, also a full one, the key has no item afterwards, the item under
    every other key is what it was, and one notification is published, with
    the text that was stored as old text and no new text. *)
Theorem remove_publishes (i : nat) (this : Cell) (other : string) (w : World) :
  has_window w = true -> storage_fault w <> AccessDenied ->
  let w' := snd (remove i this w) in
  items w' !! cell_key this = None /\
  (other <> cell_key this -> items w' !! other = items w !! other) /\
  dispatched w'
  = (dispatched w ++
     [{| ev_key := Some (cell_key this); ev_newValue := None;
         ev_oldValue := items w !! cell_key this;
         ev_storageArea := LocalStorage |}])%list.
Proof.
  intros Hwin Hfault. rewrite (remove_reachable i this w Hwin Hfault). simpl.
  split; [apply lookup_delete_eq|]. split; [|reflexivity].
  intros Hne. apply lookup_delete_ne. congruence.
Qed.

Lemma remove_publishes_witness :
  has_window (browser {[ "note" := "old"; "theme" := "dark" ]} "old") = true /\
  storage_fault (browser {[ "note" := "old"; "theme" := "dark" ]} "old") <> AccessDenied /\
  "theme" <> "note" /\
  items (snd (remove 0 (note_cell "old")
                (browser {[ "note" := "old"; "theme" := "dark" ]} "old"))) !! "note"
  = None /\
  items (snd (remove 0 (note_cell "old")
                (browser {[ "note" := "old"; "theme" := "dark" ]} "old"))) !! "theme"
  = Some "dark".
Proof.
  assert (Hfault : storage_fault (browser {[ "note" := "old"; "theme" := "dark" ]} "old")
                   <> AccessDenied) by discriminate.
  assert (Hne : "theme" <> "note") by discriminate.
  split; [reflexivity|]. split; [exact Hfault|]. split; [exact Hne|].
  destruct (remove_publishes 0 (note_cell "old") "theme"
              (browser {[ "note" := "old"; "theme" := "dark" ]} "old") eq_refl Hfault)
    as (Hgone & Hkept & _).
  split; [exact Hgone|]. etransitivity; [exact (Hkept Hne)|]. vm_compute. reflexivity.
Defined.

(** When [remove()] returns and when it throws.  It throws exactly when
    there is a window and every access to the storage area is refused.
    Then, and without a window, the storage area and the published
    notifications are left as they were; the cell is reset all the same. *)
Theorem remove_outcome (i : nat) (this : Cell) (w : World) :
  let w' := snd (remove i this w) in
  (fst (remove i this w) = Returned tt <->
   has_window w = false \/ storage_fault w <> AccessDenied) /\
  (has_window w = false \/ storage_fault w = AccessDenied ->
   items w' = items w /\ dispatched w' = dispatched w /\
   cells w' = alter (with_value (cell_defaultValue this)) i (cells w)).
Proof.
  destruct w as [win fault stored cs es log]. unfold remove. run.
  destruct win; simpl.
  - destruct fault; simpl; (split; [split|]).
    all: try (intros _; right; discriminate).
    all: try (intros _; reflexivity).
    all: try discriminate.
    all: try (intros [H|H]; discriminate H).
    all: try (intros [H|H]; [discriminate H | contradiction]).
    all: intros _; repeat split; reflexivity.
  - split; [split; [intros _; left|]; reflexivity|]. intros _. repeat split; reflexivity.
Qed.

Lemma remove_outcome_witness :
  (has_window (denied_browser "old") = false \/
   storage_fault (denied_browser "old") = AccessDenied) /\
  fst (remove 0 (note_cell "old") (denied_browser "old")) <> Returned tt /\
  dispatched (snd (remove 0 (note_cell "old") (denied_browser "old"))) = [] /\
  storedValue 0 (snd (remove 0 (note_cell "old") (denied_browser "old")))
  = Some (VStr "draft").
Proof.
  assert (H : has_window (denied_browser "old") = false \/
              storage_fault (denied_browser "old") = AccessDenied) by (right; reflexivity).
  split; [exact H|].
  destruct (remove_outcome 0 (note_cell "old") (denied_browser "old")) as [Hiff Hsame].
  destruct (Hsame H) as (_ & Hevents & Hcells).
  split; [|split; [exact Hevents|]].
  - intros Hret. apply Hiff in Hret. destruct Hret as [Hret|Hret];
      [discriminate Hret | exact (Hret eq_refl)].
  - unfold storedValue. rewrite Hcells. reflexivity.
Defined.

(** A removal resets every cell bound to the key, each to its own default:
    after [remove()] through the cell in slot [i], on a storage area that can
    be reached, another listening cell bound to the same key holds its own
    default, not the default of the cell that removed. *)
Theorem remove_resets_other_cell (i j : nat) (this other : Cell) (w : World) :
  has_window w = true -> storage_fault w <> AccessDenied -> i <> j ->
  cells w !! j = Some other ->
  cell_key other = cell_key this -> cell_listening other = true ->
  storedValue j (snd (remove i this w)) = Some (cell_defaultValue other).
Proof.
  intros Hwin Hfault Hij Hj Hk Hl. unfold storedValue.
  rewrite (remove_reachable i this w Hwin Hfault). simpl.
  rewrite list_lookup_fmap, list_lookup_alter_ne by exact Hij. rewrite Hj. simpl.
  rewrite Hl. rewrite handleStorageChange_adopts by (simpl; congruence).
  reflexivity.
Qed.

Lemma remove_resets_other_cell_witness :
  has_window (shared_browser {[ "note" := "old" ]}) = true /\
  storage_fault (shared_browser {[ "note" := "old" ]}) <> AccessDenied /\
  0 <> 1 /\
  cells (shared_browser {[ "note" := "old" ]}) !! 1 = Some note_reader /\
  storedValue 1 (snd (remove 0 (note_cell "old") (shared_browser {[ "note" := "old" ]})))
  = Some (VStr "empty").
Proof.
  assert (Hfault : storage_fault (shared_browser {[ "note" := "old" ]}) <> AccessDenied)
    by discriminate.
  assert (Hij : 0 <> 1) by lia.
  split; [reflexivity|]. split; [exact Hfault|]. split; [exact Hij|].
  split; [reflexivity|].
  exact (remove_resets_other_cell 0 1 (note_cell "old") note_reader
           (shared_browser {[ "note" := "old" ]})
           eq_refl Hfault Hij eq_refl eq_refl eq_refl).
Defined.

(** After [remove()] the key reads as never written: on a storage area that
    can be reached, a cell mounted for the key starts with its own default,
    whatever it is, and [getLocalStorage] answers the fallback with
    [isNull]. *)
Theorem remove_then_read (i : nat) (this : Cell) (d : Value)
    (configs : option (list Config)) (w : World) :
  has_window w = true -> storage_fault w <> AccessDenied ->
  let w' := snd (remove i this w) in
  initialValue (cell_key this) d w' = (Returned d, w') /\
  getLocalStorage (cell_key this) d configs w'
  = (Returned {| value := fallback_in_words (cell_key this) d configs;
                 isNull := true |}, w').
Proof.
  intros Hwin Hfault w'.
  assert (Hitem : items w' !! cell_key this = None).
  { unfold w'. rewrite (remove_reachable i this w Hwin Hfault). apply lookup_delete_eq. }
  assert (Hwin' : has_window w' = true).
  { unfold w'. rewrite (remove_reachable i this w Hwin Hfault). reflexivity. }
  split.
  - rewrite initialValue_reads, Hwin', Hitem. destruct (storage_fault w'); reflexivity.
  - rewrite getLocalStorage_cases, fallback_in_words_eq, Hwin', Hitem.
    destruct (storage_fault w'); reflexivity.
Qed.

Lemma remove_then_read_witness :
  has_window (browser {[ "note" := "old" ]} "old") = true /\
  storage_fault (browser {[ "note" := "old" ]} "old") <> AccessDenied /\
  fst (initialValue "note" (VStr "fresh")
         (snd (remove 0 (note_cell "old") (browser {[ "note" := "old" ]} "old"))))
  = Returned (VStr "fresh").
Proof.
  assert (Hfault : storage_fault (browser {[ "note" := "old" ]} "old") <> AccessDenied)
    by discriminate.
  split; [reflexivity|]. split; [exact Hfault|].
  exact (f_equal fst
           (proj1 (remove_then_read 0 (note_cell "old") (VStr "fresh") None
                     (browser {[ "note" := "old" ]} "old") eq_refl Hfault))).
Defined.

(** ** [getDefaultFromConfigs] and the two [getLocalStorage] *)

Lemma find_no_match (key : string) (entries : list Config) :
  (forall c, In c entries -> cfg_key c <> key) ->
  List.find (fun config => String.eqb (cfg_key config) key) entries = None.
Proof.
  induction entries as [|c entries IH]; intros H; [reflexivity|]. simpl.
  destruct (StringFacts.eqb_spec (cfg_key c) key) as [Hk|_].
  - exfalso. exact (H c (or_introl eq_refl) Hk).
  - apply IH. intros c' Hin. apply H. right. exact Hin.
Qed.

(** [getDefaultFromConfigs] answers with the first entry for the key: entries
    for other keys before it are passed over and entries after it, also for
    the same key, are not looked at.  With no entry for the key the answer is
    [null]. *)
Theorem getDefaultFromConfigs_first_match (key : string)
    (before after : list Config) (entry : Config) :
  (forall c, In c before -> cfg_key c <> key) ->
  (cfg_key entry = key ->
   getDefaultFromConfigs key (Some (before ++ entry :: after)%list)
   = cfg_defaultValue entry) /\
  getDefaultFromConfigs key (Some before) = VNull.
Proof.
  intros Hbefore. unfold getDefaultFromConfigs. split.
  - intros Hk. induction before as [|c before IH]; simpl.
    + rewrite Hk, StringFacts.eqb_refl. reflexivity.
    + destruct (StringFacts.eqb_spec (cfg_key c) key) as [Hc|_].
      * exfalso. exact (Hbefore c (or_introl eq_refl) Hc).
      * apply IH. intros c' Hin. apply Hbefore. right. exact Hin.
  - rewrite (find_no_match key before Hbefore). reflexivity.
Qed.

Lemma getDefaultFromConfigs_first_match_witness :
  (forall c, In c [{| cfg_key := "theme"; cfg_defaultValue := VStr "light" |}] ->
             cfg_key c <> "note") /\
  getDefaultFromConfigs "note"
    (Some [{| cfg_key := "theme"; cfg_defaultValue := VStr "light" |};
           {| cfg_key := "note"; cfg_defaultValue := VStr "first" |};
           {| cfg_key := "note"; cfg_defaultValue := VStr "second" |}])
  = VStr "first".
Proof.
  assert (H : forall c, In c [{| cfg_key := "theme"; cfg_defaultValue := VStr "light" |}] ->
                        cfg_key c <> "note").
  { intros c [<-|[]]. discriminate. }
  split; [exact H|].
  exact (proj1 (getDefaultFromConfigs_first_match "note"
                  [{| cfg_key := "theme"; cfg_defaultValue := VStr "light" |}]
                  [{| cfg_key := "note"; cfg_defaultValue := VStr "second" |}]
                  {| cfg_key := "note"; cfg_defaultValue := VStr "first" |} H) eq_refl).
Defined.

(** [getLocalStorage] reads what the hook would start with: with a supplied
    default (not [null], not [undefined]), its [value] is the initial value of
    a cell for the same key and default, unless the stored text is the empty
    string under a string default. *)
Theorem getLocalStorage_matches_initialValue (key : string) (d : Value)
    (configs : option (list Config)) (w : World) :
  nullish d = false ->
  items w !! key <> Some EmptyString \/ typeof_string d = false ->
  exists r,
    getLocalStorage key d configs w = (Returned r, w) /\
    initialValue key d w = (Returned (value r), w).
Proof.
  intros Hd H. rewrite getLocalStorage_cases, initialValue_reads.
  eexists. split; [reflexivity|].
  assert (Hfallback : d ?? getDefaultFromConfigs key configs ?? VNull = d).
  { unfold coalesce at 2. rewrite Hd. unfold coalesce. rewrite Hd. reflexivity. }
  rewrite Hfallback. unfold adopted.
  apply (f_equal (fun v => (Returned v, w))).
  destruct (has_window w); [|reflexivity].
  destruct (storage_fault w); try reflexivity;
    destruct (items w !! key) as [[|c item]|]; try reflexivity;
    try (destruct (typeof_string d); [|destruct (JSON.parse _)]; reflexivity).
  all: destruct H as [H|H]; [congruence | rewrite H; reflexivity].
Qed.

Lemma getLocalStorage_matches_initialValue_witness :
  nullish (VNum (Number.of_Z 0)) = false /\
  (items (browser {[ "count" := "41" ]} "old") !! "count" <> Some EmptyString \/
   typeof_string (VNum (Number.of_Z 0)) = false) /\
  fst (getLocalStorage "count" (VNum (Number.of_Z 0)) None (browser {[ "count" := "41" ]} "old"))
  = Returned {| value := VNum (Number.of_Z 41); isNull := false |} /\
  fst (initialValue "count" (VNum (Number.of_Z 0)) (browser {[ "count" := "41" ]} "old"))
  = Returned (VNum (Number.of_Z 41)).
Proof.
  assert (H : items (browser {[ "count" := "41" ]} "old") !! "count" <> Some EmptyString \/
              typeof_string (VNum (Number.of_Z 0)) = false) by (right; reflexivity).
  split; [reflexivity|]. split; [exact H|].
  destruct (getLocalStorage_matches_initialValue "count" (VNum (Number.of_Z 0)) None
              (browser {[ "count" := "41" ]} "old") eq_refl H) as (r & Hget & Hinit).
  assert (Hr : r = {| value := VNum (Number.of_Z 41); isNull := false |}).
  { assert (Hrun : fst (getLocalStorage "count" (VNum (Number.of_Z 0)) None
                          (browser {[ "count" := "41" ]} "old"))
                   = Returned {| value := VNum (Number.of_Z 41); isNull := false |})
      by (vm_compute; reflexivity).
    rewrite Hget in Hrun. simpl in Hrun. congruence. }
  subst r. rewrite Hget, Hinit. split; reflexivity.
Defined.

(** The earlier [getLocalStorage] and the hook's initializer are one
    function on a supplied default: in every world they return the same. *)
Theorem earlier_getLocalStorage_is_initialValue (key : string) (d : Value) (w : World) :
  nullish d = false ->
  Earlier.getLocalStorage key d w = initialValue key d w.
Proof.
  intros Hd. rewrite earlier_getLocalStorage_cases, initialValue_reads.
  assert (Hfallback : d ?? VNull = d) by (unfold coalesce; rewrite Hd; reflexivity).
  rewrite Hfallback. unfold adopted.
  apply (f_equal (fun v => (Returned v, w))).
  destruct (has_window w); [|reflexivity].
  destruct (storage_fault w); try reflexivity;
    destruct (items w !! key) as [[|c item]|]; reflexivity.
Qed.

Lemma earlier_getLocalStorage_is_initialValue_witness :
  nullish (VStr "draft") = false /\
  Earlier.getLocalStorage "note" (VStr "draft") (browser {[ "note" := "old" ]} "old")
  = initialValue "note" (VStr "draft") (browser {[ "note" := "old" ]} "old").
Proof.
  split; [reflexivity|].
  exact (earlier_getLocalStorage_is_initialValue "note" (VStr "draft")
           (browser {[ "note" := "old" ]} "old") eq_refl).
Defined.

(** ** The draft, continued *)

Lemma Value_eqb_eq (a b : Value) : Value_eqb a b = true -> a = b.
Proof.
  revert b. induction a as [| |x|x|x|xs IH|fs IH] using value_ind_nested;
    intros [| |y|y|y|ys|gs] H; simpl in H; try discriminate H; try reflexivity.
  - apply Bool.eqb_prop in H. congruence.
  - apply NumberFacts.number_eqb_eq in H. congruence.
  - apply StringFacts.eqb_eq in H. congruence.
  - f_equal. revert ys H. induction IH as [|x xs Hx _ IHxs]; intros [|y ys] H;
      try discriminate H; [reflexivity|].
    apply andb_true_iff in H as [Hxy Hrest].
    rewrite (Hx y Hxy), (IHxs ys Hrest). reflexivity.
  - f_equal. revert gs H. induction IH as [|[k x] fs Hx _ IHfs]; intros [|[k' y] gs] H;
      try discriminate H; [reflexivity|].
    apply andb_true_iff in H as [H Hrest]. apply andb_true_iff in H as [Hk Hxy].
    apply StringFacts.eqb_eq in Hk. simpl in Hx.
    rewrite Hk, (Hx y Hxy), (IHfs gs Hrest). reflexivity.
Qed.

(** The effect runs when the stored value has changed, and overwrites the
    draft. *)
Lemma syncDraft_changed (v : Value) (d : Draft) :
  v <> syncedValue d -> syncDraft v d = initialDraft v.
Proof.
  intros Hne. unfold syncDraft.
  destruct (Value_eqb v (syncedValue d)) eqn:E; [|reflexivity].
  apply Value_eqb_eq in E. contradiction.
Qed.

(** Serializable values with one text are one value. *)
Lemma stringify_injective (a b : Value) :
  JSON.serializable a = true -> JSON.serializable b = true ->
  JSON.stringify a = JSON.stringify b -> a = b.
Proof.
  intros Ha Hb H.
  pose proof (JSONFacts.parse_stringify a _ Ha (JSONFacts.serializable_stringify a Ha)) as Pa.
  pose proof (JSONFacts.parse_stringify b _ Hb (JSONFacts.serializable_stringify b Hb)) as Pb.
  rewrite (JSONFacts.serializable_stringify a Ha),
    (JSONFacts.serializable_stringify b Hb) in H.
  injection H as H. rewrite H in Pa. congruence.
Qed.

(** On serializable values the dirty flag is exact: [hasChanges] is false
    when, and only when, the draft is the stored value. *)
Theorem hasChanges_exact (draft stored : Value) :
  JSON.serializable draft = true -> JSON.serializable stored = true ->
  (hasChanges draft stored = false <-> draft = stored).
Proof.
  intros Hd Hs. split.
  - intros H. apply (stringify_injective draft stored Hd Hs).
    destruct (decide (JSON.stringify draft = JSON.stringify stored)) as [E|E];
      [exact E|].
    apply hasChanges_iff in E. congruence.
  - intros ->. apply hasChanges_same.
Qed.

Lemma hasChanges_exact_witness :
  JSON.serializable settings = true /\
  JSON.serializable (VObj [("size", VNum (Number.of_Z 12)); ("darkMode", VBool true)]) = true /\
  hasChanges settings settings = false /\
  hasChanges settings (VObj [("size", VNum (Number.of_Z 12)); ("darkMode", VBool true)]) <> false.
Proof.
  split; [reflexivity|]. split; [reflexivity|]. split.
  - exact (proj2 (hasChanges_exact settings settings eq_refl eq_refl) eq_refl).
  - intros H.
    apply (hasChanges_exact settings (VObj [("size", VNum (Number.of_Z 12)); ("darkMode", VBool true)])
             eq_refl eq_refl) in H.
    discriminate H.
Defined.

(** The dirty flag does not see what JSON drops: a draft that only adds a
    property whose value is [undefined] counts as unchanged. *)
Theorem hasChanges_misses_undefined (k : string) (fields : list (string * Value)) :
  hasChanges (VObj (fields ++ [(k, VUndefined)])) (VObj fields) = false /\
  VObj (fields ++ [(k, VUndefined)]) <> VObj fields.
Proof.
  split.
  - destruct (hasChanges _ (VObj fields)) eqn:E; [|reflexivity].
    apply hasChanges_iff in E. exfalso. apply E. simpl.
    rewrite flat_map_app. simpl. rewrite app_nil_r. reflexivity.
  - intros H. injection H as H. apply (f_equal (@length _)) in H.
    rewrite length_app in H. simpl in H. lia.
Qed.

(** An edit in progress is lost when the key is written elsewhere: after
    [setLocalStorage(key, v)] on a working storage area, with [v] another
    value than the stored one, the listening cell under the draft holds [v]
    and the effect sets the draft to [v], whatever it was; [hasChanges] is
    false again. *)
Theorem external_write_discards_draft (i : nat) (this : Cell) (d : Draft) (v : Value)
    (w : World) :
  storage_works w -> cells w !! i = Some this -> cell_listening this = true ->
  syncedValue d = cell_value this -> v <> cell_value this ->
  typeof_string v = typeof_string (cell_defaultValue this) ->
  JSON.serializable v = true -> v <> VStr EmptyString ->
  storedValue i (snd (setLocalStorage (cell_key this) v w)) = Some v /\
  draftValue (syncDraft v d) = v /\
  hasChanges (draftValue (syncDraft v d)) v = false.
Proof.
  intros Hw Hc Hl Hsync Hne Htype Hser Hnonempty.
  assert (Hdraft : syncDraft v d = initialDraft v)
    by (apply syncDraft_changed; rewrite Hsync; exact Hne).
  split; [|rewrite Hdraft; split; [reflexivity | apply hasChanges_same]].
  unfold storedValue. rewrite (setLocalStorage_cell _ v w i this Hw Hc), Hl.
  rewrite bool_decide_eq_true_2 by reflexivity. simpl.
  rewrite (adopted_own_write _ _ Htype Hser Hnonempty). reflexivity.
Qed.

Lemma external_write_discards_draft_witness :
  storage_works (browser ∅ "old") /\
  cells (browser ∅ "old") !! 0 = Some (note_cell "old") /\
  VStr "theirs" <> VStr "old" /\
  JSON.serializable (VStr "theirs") = true /\
  storedValue 0 (snd (setLocalStorage "note" (VStr "theirs") (browser ∅ "old")))
  = Some (VStr "theirs") /\
  draftValue (syncDraft (VStr "theirs")
                (setDraftValue (Literal (VStr "mine")) (initialDraft (VStr "old"))))
  = VStr "theirs".
Proof.
  assert (Hw : storage_works (browser ∅ "old")) by (split; reflexivity).
  assert (Hne : VStr "theirs" <> VStr "old") by discriminate.
  assert (Hnonempty : VStr "theirs" <> VStr EmptyString) by discriminate.
  split; [exact Hw|]. split; [reflexivity|]. split; [exact Hne|]. split; [reflexivity|].
  destruct (external_write_discards_draft 0 (note_cell "old")
              (setDraftValue (Literal (VStr "mine")) (initialDraft (VStr "old")))
              (VStr "theirs") (browser ∅ "old")
              Hw eq_refl eq_refl eq_refl Hne eq_refl eq_refl Hnonempty)
    as (Hstored & Hdraft & _).
  split; [exact Hstored | exact Hdraft].
Defined.

(** The first render of [useDraftLocalStorage]: it never throws, mounts one
    cell, and the draft starts as the value of that cell, with [hasChanges]
    false; the storage area is only read. *)
Theorem useDraftLocalStorage_starts_clean (key : string) (dflt : Value) (w : World) :
  exists v w',
    useDraftLocalStorage key dflt w = (Returned (length (cells w), initialDraft v), w') /\
    storedValue (length (cells w)) w' = Some v /\
    hasChanges (draftValue (initialDraft v)) v = false /\
    items w' = items w /\ dispatched w' = dispatched w.
Proof.
  destruct (useLocalStorage_runs key dflt w) as (v & _ & Hrun).
  exists v. eexists. unfold useDraftLocalStorage, bind, ret. rewrite Hrun.
  split; [reflexivity|]. split.
  - unfold storedValue. simpl. rewrite lookup_app_r by reflexivity.
    rewrite Nat.sub_diag. reflexivity.
  - split; [apply hasChanges_same | split; reflexivity].
Qed.

(** [removeValue()] brings the draft back to the default: in every world the
    cell holds its default afterwards, and when that is another value than
    the one stored before, the effect sets the draft to the default. *)
Theorem removeValue_resets_draft (i : nat) (this : Cell) (d : Draft) (w : World) :
  cells w !! i = Some this -> syncedValue d = cell_value this ->
  cell_defaultValue this <> cell_value this ->
  storedValue i (snd (removeValue i this w)) = Some (cell_defaultValue this) /\
  draftValue (syncDraft (cell_defaultValue this) d) = cell_defaultValue this.
Proof.
  intros Hc Hsync Hne. split.
  - unfold storedValue, removeValue. rewrite (remove_cell i this w Hc). reflexivity.
  - rewrite syncDraft_changed by (rewrite Hsync; exact Hne). reflexivity.
Qed.

Lemma removeValue_resets_draft_witness :
  cells (browser {[ "note" := "old" ]} "old") !! 0 = Some (note_cell "old") /\
  VStr "draft" <> VStr "old" /\
  storedValue 0 (snd (removeValue 0 (note_cell "old") (browser {[ "note" := "old" ]} "old")))
  = Some (VStr "draft") /\
  draftValue (syncDraft (VStr "draft")
                (setDraftValue (Literal (VStr "mine")) (initialDraft (VStr "old"))))
  = VStr "draft".
Proof.
  assert (Hne : VStr "draft" <> VStr "old") by discriminate.
  split; [reflexivity|]. split; [exact Hne|].
  exact (removeValue_resets_draft 0 (note_cell "old")
           (setDraftValue (Literal (VStr "mine")) (initialDraft (VStr "old")))
           (browser {[ "note" := "old" ]} "old") eq_refl eq_refl Hne).
Defined.

(** ** [useStateRef] *)

(** [getCurrent] is never stale: after any run of [setStateRef] calls it
    returns the last value set, each function argument having been applied to
    the value of the call before it; and the state React holds is that same
    value. *)
Theorem setStateRef_runs (actions : list SetStateAction) (s : StateRef) :
  sr_state s = sr_current s ->
  let s' := fold_left (fun s a => setStateRef a s) actions s in
  getCurrent s' = fold_left (fun v a => resolve a v) actions (getCurrent s) /\
  sr_state s' = sr_current s'.
Proof.
  revert s. induction actions as [|a actions IH]; intros s Hs.
  - split; [reflexivity | exact Hs].
  - simpl. destruct (IH (setStateRef a s) eq_refl) as [Hcurrent Hstate].
    split; [|exact Hstate]. rewrite Hcurrent. destruct a; reflexivity.
Qed.

Lemma setStateRef_runs_witness :
  sr_state (useStateRef (VStr "x")) = sr_current (useStateRef (VStr "x")) /\
  getCurrent
    (setStateRef (Updater (fun v => VArr [v]))
       (setStateRef (Updater (fun v => VArr [v])) (useStateRef (VStr "x"))))
  = VArr [VArr [VStr "x"]].
Proof.
  split; [reflexivity|].
  exact (proj1 (setStateRef_runs
                  [Updater (fun v => VArr [v]); Updater (fun v => VArr [v])]
                  (useStateRef (VStr "x")) eq_refl)).
Defined.

(** ** [useIsOnline] *)

(** The hook reports the last event: after any run of [online] and
    [offline] events the state is what the last one says, and with no event
    it is [navigator.onLine], or [true] where there is no [navigator]. *)
Theorem useIsOnline_reports_last_event (navigator : option bool)
    (events : list ConnectivityEvent) :
  fold_left handleConnectivity events (useIsOnline navigator)
  = match last events with
    | Some online => true
    | Some offline => false
    | None => match navigator with
              | Some onLine => onLine
              | None => true
              end
    end.
Proof.
  induction events as [|e events _] using rev_ind.
  - destruct navigator; reflexivity.
  - rewrite fold_left_app, last_snoc. simpl. destruct e; reflexivity.
Qed.
